(** * TravelPlanner: the generate-travel-plan edge function

    A shallow embedding of the airport-code resolution pipeline, the flight
    aggregation and the request handler of the [generate-travel-plan]
    function, with the properties its specification states about them.

    Texts are [string]s, sequences of 8-bit code units read as the first 256
    code points.  Letter case is that of the ASCII letters: [toUpperCase]
    and [toLowerCase] leave the other units unchanged, so they are
    JavaScript's on texts of ASCII characters ([isAsciiText]), and what
    depends on the case of other characters is stated for such texts.
    Numbers are integers ([Z]), exact for JavaScript numbers within the
    safe-integer range.  The services called over HTTP are functions from
    requests to replies, the built-in [JSON.parse] and date conversion are
    parameters. *)

From Stdlib Require Import ZArith Lia Bool Ascii String DecimalString List
  Sorting.Sorted Sorting.Permutation.
From stdpp Require Import base option list strings gmap.

Import ListNotations.
Set Warnings "-register-all".
Local Open Scope string_scope.
Local Open Scope Z_scope.

#[local] Arguments String.append !s1 s2 : simpl nomatch.

(* ===================================================================== *)
(** * Part I: the program                                                 *)
(* ===================================================================== *)

(** ** Characters and texts *)

(** The double quote, the backslash and the braces. *)
Definition dquote : ascii := "034"%char.
Definition backslash : ascii := "092"%char.
Definition lbrace : ascii := "{"%char.
Definition rbrace : ascii := "}"%char.

(** [jsq s] is [s] with every apostrophe replaced by a double quote; it only
    serves to write JSON texts legibly. *)
Fixpoint jsq (s : string) : string :=
  match s with
  | EmptyString => EmptyString
  | String c r => String (if Ascii.eqb c "'" then dquote else c) (jsq r)
  end.

Definition isUpper (c : ascii) : bool := (("A" <=? c) && (c <=? "Z"))%char.
Definition isLower (c : ascii) : bool := (("a" <=? c) && (c <=? "z"))%char.
Definition isAlpha (c : ascii) : bool := isUpper c || isLower c.
Definition isDigit (c : ascii) : bool := (("0" <=? c) && (c <=? "9"))%char.

(** [\w] of a regular expression without the unicode flag. *)
Definition isWordChar (c : ascii) : bool :=
  isAlpha c || isDigit c || Ascii.eqb c "_".

(** White space and line terminators removed by [String.prototype.trim]:
    tab, line feed, vertical tab, form feed, carriage return, space and
    no-break space. *)
Definition isSpace (c : ascii) : bool :=
  let n := nat_of_ascii c in
  ((9 <=? n)%nat && (n <=? 13)%nat) || (n =? 32)%nat || (n =? 160)%nat.

Definition upperChar (c : ascii) : ascii :=
  if isLower c then ascii_of_nat (nat_of_ascii c - 32) else c.
Definition lowerChar (c : ascii) : ascii :=
  if isUpper c then ascii_of_nat (nat_of_ascii c + 32) else c.

Fixpoint mapString (f : ascii -> ascii) (s : string) : string :=
  match s with
  | EmptyString => EmptyString
  | String c r => String (f c) (mapString f r)
  end.

Fixpoint allString (p : ascii -> bool) (s : string) : bool :=
  match s with
  | EmptyString => true
  | String c r => p c && allString p r
  end.

(** [s.toUpperCase()] and [s.toLowerCase()] on the ASCII letters.  Of the
    other 8-bit characters JavaScript capitalises some (223 becomes two
    letters, 224 to 254 their capitals): the two functions are the source's
    on the texts that satisfy [isAsciiText]. *)
Definition toUpperCase : string -> string := mapString upperChar.
Definition toLowerCase : string -> string := mapString lowerChar.

(** Every character of the text is an ASCII character. *)
Definition isAsciiChar (c : ascii) : bool := (nat_of_ascii c <? 128)%nat.
Definition isAsciiText (s : string) : bool := allString isAsciiChar s.

Fixpoint trimStart (s : string) : string :=
  match s with
  | String c r => if isSpace c then trimStart r else s
  | EmptyString => EmptyString
  end.

Fixpoint trimEnd (s : string) : string :=
  match s with
  | EmptyString => EmptyString
  | String c r =>
      match trimEnd r with
      | EmptyString => if isSpace c then EmptyString else String c EmptyString
      | r' => String c r'
      end
  end.

Definition trim (s : string) : string := trimEnd (trimStart s).

(** [s.slice(n)] for [0 <= n]. *)
Fixpoint dropString (n : nat) (s : string) : string :=
  match n, s with
  | O, _ => s
  | S n', String _ r => dropString n' r
  | S _, EmptyString => EmptyString
  end.

(** [s.slice(0, n)]. *)
Fixpoint takeString (n : nat) (s : string) : string :=
  match n, s with
  | S n', String c r => String c (takeString n' r)
  | _, _ => EmptyString
  end.

(** [/^[A-Za-z]{3}$/.test(s)] *)
Definition isCodeShaped (s : string) : bool :=
  (String.length s =? 3)%nat && allString isAlpha s.

(** [/^[A-Z]{3}$/.test(s)] *)
Definition isUpperCode (s : string) : bool :=
  (String.length s =? 3)%nat && allString isUpper s.

(** ** JSON-candidate extractor: [extractFirstJsonObject] *)

Record ScanState := mkScan { depth : Z; inString : bool; escaped : bool }.

Definition scanInit : ScanState := mkScan 0 false false.

(** One iteration of the loop body up to the test [depth === 0]. *)
Definition scanStep (ch : ascii) (st : ScanState) : ScanState :=
  let inString' :=
    if Ascii.eqb ch dquote && negb (escaped st)
    then negb (inString st) else inString st in
  let depth' :=
    if negb inString' then
      if Ascii.eqb ch lbrace then depth st + 1
      else if Ascii.eqb ch rbrace then depth st - 1
      else depth st
    else depth st in
  let escaped' := Ascii.eqb ch backslash && negb (escaped st) in
  mkScan depth' inString' escaped'.

(** The [for] loop: [i] is the loop index, [rest] the text from index [i]
    on ([rest = text.slice(i)]), so that [text[i]] is the head of [rest]
    and the loop ends when [rest] is exhausted. *)
Fixpoint scanLoop (text : string) (firstBrace i : nat) (rest : string)
    (st : ScanState) : option string :=
  match rest with
  | EmptyString => None
  | String ch rest' =>
      let st' := scanStep ch st in
      if depth st' =? 0
      then Some (substring firstBrace (i + 1 - firstBrace) text)
      else scanLoop text firstBrace (i + 1) rest' st'
  end.

Definition extractFirstJsonObject (text : string) : option string :=
  match index 0 "{" text with
  | None => None
  | Some firstBrace =>
      scanLoop text firstBrace firstBrace (dropString firstBrace text) scanInit
  end.

(** ** Code-token extractor: [extractIataCodesFromText] *)

(** [\b] at the position whose preceding character is [prev] (if any) and
    whose following text is [s]. *)
Definition boundaryAt (prev : option ascii) (s : string) : bool :=
  xorb (match prev with Some c => isWordChar c | None => false end)
       (match s with String c _ => isWordChar c | EmptyString => false end).

(** Does [/\b[A-Za-z]{3}\b/] match at the start of [s]? *)
Definition matchHere (prev : option ascii) (s : string) : bool :=
  match s with
  | String a (String b (String c r)) =>
      boundaryAt prev s && isAlpha a && isAlpha b && isAlpha c
      && boundaryAt (Some c) r
  | _ => false
  end.

(** [text.match(/\b[A-Za-z]{3}\b/g)]: the search moves through the text from
    left to right; after a match it resumes at the end of the match
    ([lastIndex]), which [skip] accounts for: the number of characters still
    covered by the last match. *)
Fixpoint matchAllFrom (prev : option ascii) (s : string) (skip : nat)
    : list string :=
  match s with
  | EmptyString => []
  | String c r =>
      match skip with
      | S k => matchAllFrom (Some c) r k
      | O =>
          if matchHere prev s
          then takeString 3 s :: matchAllFrom (Some c) r 2
          else matchAllFrom (Some c) r 0
      end
  end.

Definition matchAll (text : string) : list string := matchAllFrom None text 0.

(** A [Set] of strings keeps its elements in insertion order. *)
Definition setAdd (s : list string) (x : string) : list string :=
  if decide (x ∈ s) then s else s ++ [x].

(** [Array.from(new Set(l))] *)
Definition newSet (l : list string) : list string := fold_left setAdd l [].

(** [text] is [None] for [null]; [match] answers [null] when nothing
    matches, which is the empty list here. *)
Definition extractIataCodesFromText (text : option string) : list string :=
  match text with
  | None => []
  | Some EmptyString => []
  | Some t =>
      match matchAll t with
      | [] => []
      | matches =>
          let upper := newSet (map toUpperCase matches) in
          List.filter isUpperCode upper
      end
  end.

(** ** Values produced by [JSON.parse] *)

(** A number is an integer of magnitude below 10^21, which [String] prints
    in plain digits. *)
Inductive jsval :=
| JNull
| JBool (b : bool)
| JNum (n : Z)
| JStr (s : string)
| JArr (items : list jsval)
| JObj (fields : list (string * jsval)).

(** Truthiness of a value, and of a possibly [undefined] one. *)
Definition truthy (v : jsval) : bool :=
  match v with
  | JNull => false
  | JBool b => b
  | JNum n => negb (n =? 0)
  | JStr s => negb (String.eqb s "")
  | JArr _ | JObj _ => true
  end.

Definition truthyOpt (v : option jsval) : bool :=
  match v with Some v => truthy v | None => false end.

Definition decimal (n : Z) : string :=
  DecimalString.NilZero.string_of_int (Z.to_int n).

(** [String(v)] when the conversion returns; [stringThrows] below tells
    when it raises a [TypeError] instead. *)
Fixpoint toJsString (v : jsval) : string :=
  match v with
  | JNull => "null"
  | JBool true => "true"
  | JBool false => "false"
  | JNum n => decimal n
  | JStr s => s
  | JArr items =>
      String.concat ","
        (map (fun e => match e with JNull => "" | _ => toJsString e end) items)
  | JObj _ => "[object Object]"
  end.

(** [v.key]: [None] is [undefined]. *)
Fixpoint assocGet (key : string) (fields : list (string * jsval))
    : option jsval :=
  match fields with
  | [] => None
  | (k, v) :: r => if String.eqb k key then Some v else assocGet key r
  end.

Definition getProp (v : jsval) (key : string) : option jsval :=
  match v with
  | JObj fields => assocGet key fields
  | _ => None
  end.

(** [String(v)] raises a [TypeError].  An object is converted by its
    [toString], then by its [valueOf]: an object read from JSON that has a
    property [toString] of its own has no function there, and the [valueOf]
    it has or inherits gives no primitive value, so the conversion fails;
    without such a property the inherited [toString] answers.  An array
    joins the conversions of its elements, [null] counting as the empty
    text. *)
Fixpoint stringThrows (v : jsval) : bool :=
  match v with
  | JArr items =>
      existsb (fun e => match e with JNull => false | _ => stringThrows e end)
              items
  | JObj fields =>
      match assocGet "toString" fields with
      | Some _ => true
      | None => false
      end
  | _ => false
  end.

(** The message of that [TypeError]. *)
Definition conversionError : string :=
  "Cannot convert object to primitive value".

(** Induction on values, through the lists they are nested in. *)
Fixpoint jsval_nested_ind (P : jsval -> Prop)
    (Hnull : P JNull) (Hbool : forall b, P (JBool b))
    (Hnum : forall n, P (JNum n)) (Hstr : forall s, P (JStr s))
    (Harr : forall items, Forall P items -> P (JArr items))
    (Hobj : forall fields, Forall (fun kv => P (snd kv)) fields -> P (JObj fields))
    (v : jsval) {struct v} : P v :=
  match v with
  | JNull => Hnull
  | JBool b => Hbool b
  | JNum n => Hnum n
  | JStr s => Hstr s
  | JArr items =>
      Harr items
        ((fix go (l : list jsval) : Forall P l :=
            match l with
            | [] => @List.Forall_nil _ P
            | x :: r =>
                @List.Forall_cons _ P x r
                  (jsval_nested_ind P Hnull Hbool Hnum Hstr Harr Hobj x) (go r)
            end) items)
  | JObj fields =>
      Hobj fields
        ((fix go (l : list (string * jsval))
            : Forall (fun kv => P (snd kv)) l :=
            match l with
            | [] => @List.Forall_nil _ _
            | kv :: r =>
                @List.Forall_cons _ _ kv r
                  (jsval_nested_ind P Hnull Hbool Hnum Hstr Harr Hobj (snd kv))
                  (go r)
            end) fields)
  end.

(** ** Airport resolver *)

(** The fallback table, at its declared type [Record<string, string[]>]: a
    finite map from keys to lists of codes.  Properties that the object
    inherits from [Object.prototype] are not of this type and are left
    out. *)
Definition COUNTRY_AIRPORTS : gmap string (list string) :=
  list_to_map
    [ ("germany", ["FRA"; "MUC"; "BER"; "DUS"; "HAM"]);
      ("france", ["CDG"; "ORY"; "NCE"; "LYS"; "MRS"]);
      ("italy", ["FCO"; "MXP"; "VCE"; "NAP"; "BGY"]);
      ("spain", ["MAD"; "BCN"; "PMI"; "AGP"; "SVQ"]);
      ("uk", ["LHR"; "LGW"; "MAN"; "EDI"; "BHX"]);
      ("united kingdom", ["LHR"; "LGW"; "MAN"; "EDI"; "BHX"]);
      ("usa", ["JFK"; "LAX"; "ORD"; "DFW"; "ATL"]);
      ("united states", ["JFK"; "LAX"; "ORD"; "DFW"; "ATL"]);
      ("canada", ["YYZ"; "YVR"; "YUL"; "YYC"; "YOW"]);
      ("japan", ["NRT"; "HND"; "KIX"; "NGO"; "FUK"]);
      ("australia", ["SYD"; "MEL"; "BNE"; "PER"; "ADL"]);
      ("india", ["DEL"; "BOM"; "BLR"; "CCU"; "MAA"]);
      ("china", ["PEK"; "PVG"; "CAN"; "CTU"; "SZX"]);
      ("brazil", ["GRU"; "GIG"; "BSB"; "CGH"; "SSA"]);
      ("mexico", ["MEX"; "CUN"; "GDL"; "MTY"; "TIJ"]) ].

(** What one call of the text-generation service comes back with. *)
Inductive GeminiReply :=
| GeminiNetworkError (message : string)          (* [fetch] rejects *)
| GeminiStatus (status : nat)                    (* [!resp.ok] *)
| GeminiBadBody (message : string)               (* [resp.json()] rejects *)
| GeminiOk (text : option string) (stringified : string).
    (* [payload?.candidates?.[0]?.content?.parts?.[0]?.text] and
       [JSON.stringify(payload)] *)

(** [None] is [undefined].  A falsy value gives the empty list, an array
    its elements turned into uppercase strings, a string itself in upper
    case, anything else the empty list.  [arrayifyThrows] tells when the
    conversion of an element raises instead. *)
Definition arrayifyCodes (value : option jsval) : list string :=
  match value with
  | None => []
  | Some v =>
      if negb (truthy v) then []
      else match v with
           | JArr items => map (fun s => toUpperCase (toJsString s)) items
           | JStr s => [toUpperCase s]
           | _ => []
           end
  end.

Definition arrayifyThrows (value : option jsval) : bool :=
  match value with
  | Some (JArr items) => existsb stringThrows items
  | _ => false
  end.

Section Parsing.

(** [JSON.parse], [None] when it throws. *)
Variable JSON_parse : string -> option jsval.

Definition safeParseJsonCandidate (text : option string) : option jsval :=
  match text with
  | None => None
  | Some EmptyString => None
  | Some t => JSON_parse t
  end.

(** The result is [inl message] when the function throws, else the value
    returned, [None] being [null]. *)
Definition fetchAirportCodesFromGemini (reply : GeminiReply)
    : string + option jsval :=
  match reply with
  | GeminiNetworkError m => inl m
  | GeminiStatus status =>
      inl ("Gemini airport lookup error: " ++ decimal (Z.of_nat status))
  | GeminiBadBody m => inl m
  | GeminiOk text stringified =>
      let rawText := match text with Some t => t | None => stringified end in
      let jsonCandidate := extractFirstJsonObject rawText in
      let parsed := safeParseJsonCandidate jsonCandidate in
      if truthyOpt parsed then inr parsed
      else
        let tokens := extractIataCodesFromText (Some rawText) in
        if (2 <=? length tokens)%nat
        then inr (Some (JObj
               [ ("source_airports", JArr (map JStr (take 1 tokens)));
                 ("destination_airports", JArr (map JStr (drop 1 tokens))) ]))
        else inr None
  end.

(** The [try]/[catch] around the lookup. *)
Definition airportLookupOf (reply : GeminiReply) : option jsval :=
  match fetchAirportCodesFromGemini reply with
  | inl _ => None
  | inr v => v
  end.

End Parsing.

(** The lists after the model-based tiers. *)
Definition lookupTier (airportLookup : option jsval)
    : list string * list string :=
  match airportLookup with
  | Some v =>
      if truthy v
         && (truthyOpt (getProp v "source_airports")
             || truthyOpt (getProp v "destination_airports"))
      then (arrayifyCodes (getProp v "source_airports"),
            arrayifyCodes (getProp v "destination_airports"))
      else ([], [])
  | None => ([], [])
  end.

(** The two calls of [arrayifyCodes] are made outside any [try]: one of them
    raises. *)
Definition lookupTierThrows (airportLookup : option jsval) : bool :=
  match airportLookup with
  | Some v =>
      truthy v
      && (truthyOpt (getProp v "source_airports")
          || truthyOpt (getProp v "destination_airports"))
      && (arrayifyThrows (getProp v "source_airports")
          || arrayifyThrows (getProp v "destination_airports"))
  | None => false
  end.

(** The table is an object literal: besides its own keys, a lowercased key
    can name two properties that the object inherits, whose values are no
    lists of codes.  [plainInput] holds of the inputs that are not such a
    name; the table is modelled for them. *)
Definition inheritedKey (key : string) : bool :=
  String.eqb key "constructor" || String.eqb key "__proto__".

Definition plainInput (input : string) : bool :=
  negb (inheritedKey (trim (toLowerCase (trim input)))).

(** The fallback of one side: its own input as a code, else the table. *)
Definition sideFallback (input : string) (codes : list string) : list string :=
  if (length codes =? 0)%nat then
    let s := trim input in
    if isCodeShaped s then [toUpperCase s]
    else
      let lookupKey := trim (toLowerCase s) in
      match COUNTRY_AIRPORTS !! lookupKey with
      | Some table => table
      | None => codes
      end
  else codes.

(** The final fallback: an empty side takes the first code of the other. *)
Definition finalFallback (p : list string * list string)
    : list string * list string :=
  let '(sourceAirports, destinationAirports) := p in
  let sourceAirports :=
    match sourceAirports, destinationAirports with
    | [], d :: _ => [d]
    | _, _ => sourceAirports
    end in
  let destinationAirports :=
    match destinationAirports, sourceAirports with
    | [], s :: _ => [s]
    | _, _ => destinationAirports
    end in
  (sourceAirports, destinationAirports).

Definition resolveAirports (airportLookup : option jsval)
    (source destination : string) : list string * list string :=
  let '(sourceAirports, destinationAirports) := lookupTier airportLookup in
  finalFallback (sideFallback source sourceAirports,
                 sideFallback destination destinationAirports).

(** ** Flight aggregator *)

(** What the flight-search service answers, typed: a field that may be
    missing is an [option], prices and durations are integers. *)
Record ProviderAirport := mkProviderAirport
  { pa_id : option string; pa_name : option string; pa_time : option string }.

Record ProviderLeg := mkProviderLeg
  { departure_airport : option ProviderAirport;
    arrival_airport : option ProviderAirport;
    leg_airline : option string }.

Record ProviderFlight := mkProviderFlight
  { flights : option (list ProviderLeg);
    flight_price : option Z;
    total_duration : option Z }.

Record SerpData := mkSerpData { best_flights : option (list ProviderFlight) }.

Inductive SerpReply :=
| SerpNetworkError (message : string)     (* [fetch] rejects *)
| SerpStatus (status : nat)               (* [!response.ok] *)
| SerpBadBody (message : string)          (* [response.json()] rejects *)
| SerpOk (data : SerpData).

(** A search request, by the parameters of its URL. *)
Record SerpRequest := mkSerpRequest
  { departure_id : string; arrival_id : string; outbound_date : string }.

Record RouteLeg := mkRouteLeg
  { from : option string; to : option string;
    fromName : option string; toName : option string }.

Record FlightOption := mkFlightOption
  { destination : string;
    destinationName : string;
    price : option Z;
    duration : option Z;
    airline : string;
    route : list RouteLeg;
    departureTime : string;
    arrivalTime : string }.

(** [x || d] for a string that may be missing. *)
Definition orElse (x : option string) (d : string) : string :=
  match x with
  | Some s => if String.eqb s "" then d else s
  | None => d
  end.

(** [o?.f] on a value that may be missing. *)
Definition optChain {A B} (o : option A) (f : A -> option B) : option B :=
  match o with
  | Some a => f a
  | None => None
  end.

(** One leg of the route; [None] when reading a property of a missing
    airport throws. *)
Definition toRouteLeg (leg : ProviderLeg) : option RouteLeg :=
  match departure_airport leg, arrival_airport leg with
  | Some dep, Some arr =>
      Some (mkRouteLeg (pa_id dep) (pa_id arr) (pa_name dep) (pa_name arr))
  | _, _ => None
  end.

(** [legs.map(toRouteLeg)]; [None] as soon as one leg throws. *)
Fixpoint mapLegs (legs : list ProviderLeg) : option (list RouteLeg) :=
  match legs with
  | [] => Some []
  | leg :: r =>
      match toRouteLeg leg, mapLegs r with
      | Some x, Some xs => Some (x :: xs)
      | _, _ => None
      end
  end.

(** The callback of [data.best_flights.map]; [None] when it throws. *)
Definition toFlightOption (destAirport : string) (flight : ProviderFlight)
    : option FlightOption :=
  let firstLeg := optChain (flights flight) (fun legs => nth_error legs 0) in
  let lastLeg :=
    optChain (flights flight)
      (fun legs => nth_error legs (length legs - 1)) in
  let mapped :=
    match flights flight with
    | Some legs => mapLegs legs
    | None => Some []
    end in
  match mapped with
  | None => None
  | Some legs =>
      Some {| destination := destAirport;
              destinationName :=
                orElse (optChain (optChain lastLeg arrival_airport) pa_name)
                       destAirport;
              price := flight_price flight;
              duration := total_duration flight;
              airline := orElse (optChain firstLeg leg_airline) "Unknown";
              route := legs;
              departureTime :=
                orElse (optChain (optChain firstLeg departure_airport) pa_time)
                       "";
              arrivalTime :=
                orElse (optChain (optChain lastLeg arrival_airport) pa_time)
                       "" |}
  end.

(** [flights.map(f)] for a callback that may throw. *)
Fixpoint mapFlights (f : ProviderFlight -> option FlightOption)
    (l : list ProviderFlight) : option (list FlightOption) :=
  match l with
  | [] => Some []
  | x :: r =>
      match f x, mapFlights f r with
      | Some y, Some ys => Some (y :: ys)
      | _, _ => None
      end
  end.

(** The body of one element of [flightPromises], given the reply to its
    request: every failure is caught and gives the empty list. *)
Definition flightsFor (destAirport : string) (reply : SerpReply)
    : list FlightOption :=
  match reply with
  | SerpOk data =>
      match best_flights data with
      | Some (f :: fs) =>
          match mapFlights (toFlightOption destAirport) (f :: fs) with
          | Some options => options
          | None => []
          end
      | _ => []
      end
  | _ => []
  end.

Definition MAX_SAFE_INTEGER : Z := 9007199254740991.

(** [f.price || Number.MAX_SAFE_INTEGER] *)
Definition sortKey (f : FlightOption) : Z :=
  match price f with
  | Some p => if p =? 0 then MAX_SAFE_INTEGER else p
  | None => MAX_SAFE_INTEGER
  end.

(** The comparator handed to [sort]. *)
Definition comparePrice (a b : FlightOption) : Z := sortKey a - sortKey b.

(** [Array.prototype.sort] is a stable sort; with a comparator that is a
    difference of keys its result is the one of this insertion sort. *)
Fixpoint insertBy {A} (cmp : A -> A -> Z) (x : A) (l : list A) : list A :=
  match l with
  | [] => [x]
  | y :: r => if cmp x y <=? 0 then x :: y :: r else y :: insertBy cmp x r
  end.

Fixpoint sortBy {A} (cmp : A -> A -> Z) (l : list A) : list A :=
  match l with
  | [] => []
  | x :: r => insertBy cmp x (sortBy cmp r)
  end.

(** The requests of the per-destination searches, in the order issued. *)
Definition flightRequests (originAirportForSearch flightDate : string)
    (destinationAirports : list string) : list SerpRequest :=
  map (fun destAirport =>
         mkSerpRequest originAirportForSearch destAirport flightDate)
      destinationAirports.

Section Aggregator.

(** The flight-search service: its reply to each request. *)
Variable serp : SerpRequest -> SerpReply.

(** [await Promise.all(flightPromises)]: the results in request order. *)
Definition allFlightResults (originAirportForSearch flightDate : string)
    (destinationAirports : list string) : list (list FlightOption) :=
  map (fun r => flightsFor (arrival_id r) (serp r))
      (flightRequests originAirportForSearch flightDate destinationAirports).

Definition aggregateFlights (originAirportForSearch flightDate : string)
    (destinationAirports : list string) : list FlightOption :=
  sortBy comparePrice
    (concat (allFlightResults originAirportForSearch flightDate
               destinationAirports)).

End Aggregator.

(** [flightData[0].destination || destinationAirports[0] || null] when
    [flightData] is not empty, else the initial [null]. *)
Definition selectAirportCode (flightData : list FlightOption)
    (destinationAirports : list string) : option string :=
  match flightData with
  | [] => None
  | f :: _ =>
      if negb (String.eqb (destination f) "") then Some (destination f)
      else match destinationAirports with
           | d :: _ => if negb (String.eqb d "") then Some d else None
           | [] => None
           end
  end.

(** [sourceAirports.length > 0 ? sourceAirports[0] : source] *)
Definition originAirportForSearch (sourceAirports : list string)
    (source : string) : string :=
  match sourceAirports with
  | s :: _ => s
  | [] => source
  end.

(** ** Request handler *)

Record TravelRequest := mkTravelRequest
  { source : string;
    req_destination : string;
    startDate : string;
    endDate : string;
    budget : string;
    travelers : string;
    interests : string;
    includeFlights : bool }.

Inductive Method := OPTIONS | POST.

(** An incoming request: [json] is [inl message] when [req.json()] rejects. *)
Record HttpRequest := mkHttpRequest
  { method : Method; json : string + TravelRequest }.

Record Env := mkEnv
  { GEMINI_API_KEY : option string; SERPAPI_API_KEY : option string }.

(** The prompts, by what is filled into their templates.  [arrivalNote] is
    [Some selectedAirportCode] when the note on the arrival airport is
    included. *)
Inductive GeminiPrompt :=
| AirportPrompt (src dst : string)
| ItineraryPrompt (src arrivalInfo start finish money people topics : string)
    (arrivalNote : option (option string)).

Inductive UpstreamCall :=
| CallGemini (prompt : GeminiPrompt)
| CallSerp (request : SerpRequest).

Record ResponseBody := mkResponseBody
  { airportCodes_source : option (list string);
    airportCodes_destination : option (list string);
    selectedAirportCode : option string;
    flightData : option (list FlightOption);
    itinerary : string }.

Inductive Response :=
| RespPreflight
| RespOk (body : ResponseBody)
| RespError (status : nat) (error : string).

(** Computations that call upstream services and may throw: the calls made
    so far are threaded through, the result is [inl message] after a
    [throw]. *)
Definition Eff (A : Type) : Type :=
  list UpstreamCall -> (string + A) * list UpstreamCall.

Definition ret {A} (a : A) : Eff A := fun calls => (inr a, calls).

Definition throw {A} (message : string) : Eff A :=
  fun calls => (inl message, calls).

Definition bind {A B} (m : Eff A) (k : A -> Eff B) : Eff B :=
  fun calls =>
    match m calls with
    | (inl e, calls') => (inl e, calls')
    | (inr a, calls') => k a calls'
    end.

Definition tryCatch {A} (m : Eff A) (handler : string -> Eff A) : Eff A :=
  fun calls =>
    match m calls with
    | (inl e, calls') => handler e calls'
    | (inr a, calls') => (inr a, calls')
    end.

Definition upstream {R} (c : UpstreamCall) (reply : R) : Eff R :=
  fun calls => (inr reply, (calls ++ [c])%list).

Notation "'let!' x ':=' m 'in' k" := (bind m (fun x => k))
  (at level 10, x name, m at level 100, k at level 200).
Notation "'let!' ( x , y ) ':=' m 'in' k" := (bind m (fun '(x, y) => k))
  (at level 10, x name, y name, m at level 100, k at level 200).

(** [x ? a : b] on a string that may be missing or empty. *)
Definition truthyString (x : option string) : bool :=
  match x with
  | Some s => negb (String.eqb s "")
  | None => false
  end.

Definition nonEmptyOrNull {A} (l : list A) : option (list A) :=
  match l with
  | [] => None
  | _ => Some l
  end.

(** The itinerary prompt: the destination is followed by the selected
    airport when there is one, and the note on the arrival airport is
    included when there are flight data. *)
Definition itineraryPrompt (request : TravelRequest)
    (flights : list FlightOption) (selected : option string) : GeminiPrompt :=
  let arrivalInfo :=
    match selected with
    | Some code =>
        req_destination request ++ " (arriving at airport " ++ code ++ ")"
    | None => req_destination request
    end in
  let note :=
    match flights with
    | [] => None
    | _ => Some selected
    end in
  ItineraryPrompt (source request) arrivalInfo (startDate request)
    (endDate request) (budget request) (travelers request)
    (interests request) note.

Section Service.

Variable JSON_parse : string -> option jsval.
(** [new Date(startDate).toISOString().split("T")[0]], [None] when it
    throws. *)
Variable toISODate : string -> option string.
Variable env : Env.
(** The two upstream services: their reply to each request. *)
Variable gemini : GeminiPrompt -> GeminiReply.
Variable serp : SerpRequest -> SerpReply.

Definition fetchGemini (p : GeminiPrompt) : Eff GeminiReply :=
  upstream (CallGemini p) (gemini p).

Definition fetchSerp (r : SerpRequest) : Eff SerpReply :=
  upstream (CallSerp r) (serp r).

(** The lookup with the [try]/[catch] around it. *)
Definition lookupAirports (src dst : string) : Eff (option jsval) :=
  let! reply := fetchGemini (AirportPrompt src dst) in
  ret (airportLookupOf JSON_parse reply).

(** [destinationAirports.map(async ...)] joined by [Promise.all]. *)
Fixpoint searchAll (requests : list SerpRequest)
    : Eff (list (list FlightOption)) :=
  match requests with
  | [] => ret []
  | r :: rs =>
      let! reply := fetchSerp r in
      let! rest := searchAll rs in
      ret (flightsFor (arrival_id r) reply :: rest)
  end.

(** The flight block; its result is [(flightData, selectedAirportCode)]. *)
Definition flightStage (request : TravelRequest) (origin : string)
    (destinationAirports : list string)
    : Eff (list FlightOption * option string) :=
  if includeFlights request then
    if negb (truthyString (SERPAPI_API_KEY env)) then ret ([], None)
    else
      tryCatch
        (let! flightDate :=
           match toISODate (startDate request) with
           | Some d => ret d
           | None => throw "Invalid time value"
           end in
         let! results :=
           searchAll (flightRequests origin flightDate destinationAirports) in
         let flightData := sortBy comparePrice (concat results) in
         ret (flightData, selectAirportCode flightData destinationAirports))
        (fun _ => ret ([], None))
  else ret ([], None).

(** The [try] block of the handler. *)
Definition handlerBody (request : TravelRequest) : Eff ResponseBody :=
  let src := source request in
  let dst := req_destination request in
  if negb (truthyString (GEMINI_API_KEY env))
  then throw "GEMINI_API_KEY is not configured"
  else
    let! airportLookup := lookupAirports src dst in
    (* the conversion of what the lookup gave is outside its [try] *)
    if lookupTierThrows airportLookup then throw conversionError else
    let '(sourceAirports, destinationAirports) :=
      resolveAirports airportLookup src dst in
    let origin := originAirportForSearch sourceAirports src in
    let! (flights, selected) :=
      flightStage request origin destinationAirports in
    let! reply := fetchGemini (itineraryPrompt request flights selected) in
    match reply with
    | GeminiNetworkError m => throw m
    | GeminiStatus status =>
        throw ("AI Gateway error: " ++ decimal (Z.of_nat status))
    | GeminiBadBody m => throw m
    | GeminiOk text _ =>
        ret {| airportCodes_source := nonEmptyOrNull sourceAirports;
               airportCodes_destination := nonEmptyOrNull destinationAirports;
               selectedAirportCode := selected;
               flightData := nonEmptyOrNull flights;
               itinerary := match text with Some t => t | None => "" end |}
    end.

(** The handler: the response and the upstream calls made, in order. *)
Definition serve (req : HttpRequest) : Response * list UpstreamCall :=
  match method req with
  | OPTIONS => (RespPreflight, [])
  | POST =>
      let body :=
        match json req with
        | inl message => throw message
        | inr request => handlerBody request
        end in
      match body [] with
      | (inr responseBody, calls) => (RespOk responseBody, calls)
      | (inl errorMessage, calls) => (RespError 500 errorMessage, calls)
      end
  end.

End Service.

(** ** Notions used to state the properties *)

(** The scanner state after a whole text. *)
Fixpoint scanRun (s : string) (st : ScanState) : ScanState :=
  match s with
  | EmptyString => st
  | String ch r => scanRun r (scanStep ch st)
  end.

(** The text has no opening brace. *)
Definition noBrace (s : string) : bool :=
  allString (fun c => negb (Ascii.eqb c lbrace)) s.

(** The inside of a string literal: plain characters, and escapes made of a
    backslash and one more character. *)
Inductive StringBody : string -> Prop :=
| sb_nil : StringBody ""
| sb_char c s :
    c <> dquote -> c <> backslash -> StringBody s -> StringBody (String c s)
| sb_escape c s :
    StringBody s -> StringBody (String backslash (String c s)).

(** Text whose braces outside string literals are balanced; outside string
    literals it has no backslash, as in JSON. *)
Inductive Balanced : string -> Prop :=
| bal_nil : Balanced ""
| bal_char c s :
    c <> dquote -> c <> backslash -> c <> lbrace -> c <> rbrace ->
    Balanced s -> Balanced (String c s)
| bal_string lit s :
    StringBody lit -> Balanced s ->
    Balanced (String dquote (lit ++ String dquote s))
| bal_object inner s :
    Balanced inner -> Balanced s ->
    Balanced (String lbrace (inner ++ String rbrace s)).

(** The source text of a balanced object: from its opening brace to the
    matching closing one. *)
Definition ObjectText (obj : string) : Prop :=
  exists inner, Balanced inner /\ obj = String lbrace (inner ++ String rbrace "").

(** The hexadecimal digit of a number below sixteen. *)
Definition hexDigit (n : nat) : ascii :=
  ascii_of_nat (if (n <? 10)%nat then 48 + n else 87 + n).

(** A character inside a JSON string literal: the quote and the backslash
    are escaped with a backslash, control characters are written
    [\u00XX]. *)

Definition escapeChar (c : ascii) : string :=
  if Ascii.eqb c dquote then String backslash (String dquote "")
  else if Ascii.eqb c backslash then String backslash (String backslash "")
  else if (nat_of_ascii c <? 32)%nat then
    String backslash
      (String "u" (String "0" (String "0"
         (String (hexDigit (nat_of_ascii c / 16))
            (String (hexDigit (nat_of_ascii c mod 16)) "")))))
  else String c "".

Fixpoint escapeString (s : string) : string :=
  match s with
  | EmptyString => EmptyString
  | String c r => escapeChar c ++ escapeString r
  end.

(** The string literal of a text. *)
Definition quoteString (s : string) : string :=
  String dquote (escapeString s ++ String dquote "").

Fixpoint joinComma (parts : list string) : string :=
  match parts with
  | [] => ""
  | [x] => x
  | x :: r => x ++ String "," (joinComma r)
  end.

(** The compact JSON text of a value. *)
Fixpoint renderJson (v : jsval) : string :=
  match v with
  | JNull => "null"
  | JBool true => "true"
  | JBool false => "false"
  | JNum n => decimal n
  | JStr s => quoteString s
  | JArr items => String "[" (joinComma (map renderJson items) ++ "]")
  | JObj fields =>
      String lbrace
        (joinComma
           (map (fun kv => quoteString (fst kv) ++ String ":" (renderJson (snd kv)))
                fields)
         ++ String rbrace "")
  end.

(** A text is the inside of a string literal. *)
Fixpoint stringBodyb (s : string) : bool :=
  match s with
  | EmptyString => true
  | String c r =>
      if Ascii.eqb c backslash then
        match r with
        | String _ r' => stringBodyb r'
        | EmptyString => false
        end
      else negb (Ascii.eqb c dquote) && stringBodyb r
  end.

(** A text without quote, backslash or brace. *)
Definition plainText (s : string) : bool :=
  allString (fun c => negb (Ascii.eqb c dquote) && negb (Ascii.eqb c backslash)
                      && negb (Ascii.eqb c lbrace) && negb (Ascii.eqb c rbrace)) s.

(** The depth is not zero after any character of [s]. *)
Fixpoint staysOpen (s : string) (st : ScanState) : bool :=
  match s with
  | EmptyString => true
  | String ch r =>
      negb (depth (scanStep ch st) =? 0) && staysOpen r (scanStep ch st)
  end.

(** The character before a position, if any, is not a word character. *)
Definition notWord (prev : option ascii) : Prop :=
  match prev with
  | Some p => isWordChar p = false
  | None => True
  end.

(** Every place of a text where three letters stand between two word
    boundaries, from left to right: [prev] is the character before [s]. *)
Fixpoint runsFrom (prev : option ascii) (s : string) : list string :=
  match s with
  | EmptyString => []
  | String c r =>
      if matchHere prev s
      then takeString 3 s :: runsFrom (Some c) r
      else runsFrom (Some c) r
  end.

Definition codeRuns (text : string) : list string := runsFrom None text.

(** The words of a text: its maximal runs of word characters, from left to
    right; [cur] is the part already read of the word under way. *)
Fixpoint wordsFrom (cur : string) (s : string) : list string :=
  match s with
  | EmptyString =>
      match cur with
      | EmptyString => []
      | _ => [cur]
      end
  | String c r =>
      if isWordChar c then wordsFrom (cur ++ String c EmptyString) r
      else match cur with
           | EmptyString => wordsFrom EmptyString r
           | _ => cur :: wordsFrom EmptyString r
           end
  end.

Definition words (text : string) : list string := wordsFrom EmptyString text.

(** The word characters a text starts with. *)
Fixpoint takeWord (s : string) : string :=
  match s with
  | String c r => if isWordChar c then String c (takeWord r) else EmptyString
  | EmptyString => EmptyString
  end.

(** A list without its repetitions, each element kept where it first
    occurs; [seen] are the elements met before. *)
Fixpoint keepFirst (seen l : list string) : list string :=
  match l with
  | [] => []
  | x :: r =>
      if decide (x ∈ seen) then keepFirst seen r
      else x :: keepFirst (x :: seen) r
  end.

(** The input of one side resolves by itself: it is code-shaped, or names
    an entry of the table. *)
Definition sideResolvable (input : string) : bool :=
  isCodeShaped (trim input)
  || bool_decide (is_Some (COUNTRY_AIRPORTS !! toLowerCase (trim input))).

(** An entry of the table is a non-empty list of codes. *)
Definition tableEntryOk (l : list string) : bool :=
  negb (length l =? 0)%nat && forallb isUpperCode l.

(** The upstream call fails: no reply, a non-success status, or a body that
    is not JSON. *)
Definition replyFails (reply : GeminiReply) : bool :=
  match reply with
  | GeminiOk _ _ => false
  | _ => true
  end.

(** The flight search for one destination fails: no reply, a non-success
    status, or a body that is not JSON. *)
Definition serpFails (reply : SerpReply) : bool :=
  match reply with
  | SerpOk _ => false
  | _ => true
  end.

(** The price as a sort key when only a missing price is replaced by the
    largest safe integer. *)
Definition priceKey (f : FlightOption) : Z :=
  match price f with
  | Some p => p
  | None => MAX_SAFE_INTEGER
  end.

(** A provider offer with a price and nothing else. *)
Definition offerPriced (p : Z) : ProviderFlight :=
  mkProviderFlight None (Some p) None.

(** The flight option made of such an offer for destination [d]. *)
Definition pricedOption (d : string) (p : Z) : FlightOption :=
  mkFlightOption d d (Some p) None "Unknown" [] "" "".

(** An offer without price, and its flight option. *)
Definition offerUnpriced : ProviderFlight := mkProviderFlight None None None.

Definition unpricedOption (d : string) : FlightOption :=
  mkFlightOption d d None None "Unknown" [] "" "".

(** The searches issued by the flight block, and what it computes. *)
Definition flightStageRequests (toISODate : string -> option string)
    (env : Env) (request : TravelRequest) (origin : string)
    (destinationAirports : list string) : list SerpRequest :=
  if includeFlights request && truthyString (SERPAPI_API_KEY env) then
    match toISODate (startDate request) with
    | Some flightDate => flightRequests origin flightDate destinationAirports
    | None => []
    end
  else [].

Definition flightStageValue (toISODate : string -> option string)
    (env : Env) (serp : SerpRequest -> SerpReply) (request : TravelRequest)
    (origin : string) (destinationAirports : list string)
    : list FlightOption * option string :=
  if includeFlights request && truthyString (SERPAPI_API_KEY env) then
    match toISODate (startDate request) with
    | Some flightDate =>
        let flights :=
          aggregateFlights serp origin flightDate destinationAirports in
        (flights, selectAirportCode flights destinationAirports)
    | None => ([], None)
    end
  else ([], None).

(** The prompt asks for an itinerary. *)
Definition isItineraryPrompt (prompt : GeminiPrompt) : bool :=
  match prompt with
  | ItineraryPrompt _ _ _ _ _ _ _ _ => true
  | AirportPrompt _ _ => false
  end.

(** The message of the error a failed itinerary call is reported with. *)
Definition failureMessage (reply : GeminiReply) : string :=
  match reply with
  | GeminiNetworkError m => m
  | GeminiStatus status => "AI Gateway error: " ++ decimal (Z.of_nat status)
  | GeminiBadBody m => m
  | GeminiOk _ _ => ""
  end.

Section ServiceNotions.

Variable JSON_parse : string -> option jsval.
Variable toISODate : string -> option string.
Variable env : Env.
Variable gemini : GeminiPrompt -> GeminiReply.
Variable serp : SerpRequest -> SerpReply.

(** The airport lists a request resolves to. *)
Definition resolvedAirports (request : TravelRequest)
    : list string * list string :=
  resolveAirports
    (airportLookupOf JSON_parse
       (gemini (AirportPrompt (source request) (req_destination request))))
    (source request) (req_destination request).

(** Turning what its lookup gave into lists of codes raises an error. *)
Definition lookupThrowsOf (request : TravelRequest) : bool :=
  lookupTierThrows
    (airportLookupOf JSON_parse
       (gemini (AirportPrompt (source request) (req_destination request)))).

(** The origin of its flight searches. *)
Definition searchOrigin (request : TravelRequest) : string :=
  originAirportForSearch (resolvedAirports request).1 (source request).

(** Its flight data and selected airport code. *)
Definition stageOf (request : TravelRequest)
    : list FlightOption * option string :=
  flightStageValue toISODate env serp request (searchOrigin request)
    (resolvedAirports request).2.

(** The prompt of its itinerary call. *)
Definition itineraryPromptOf (request : TravelRequest) : GeminiPrompt :=
  itineraryPrompt request (stageOf request).1 (stageOf request).2.

(** The calls of a request that passes the credential check: the airport
    lookup alone when the conversion of its result raises, else the airport
    lookup, the flight searches, the itinerary. *)
Definition callsOf (request : TravelRequest) : list UpstreamCall :=
  if lookupThrowsOf request then
    [CallGemini (AirportPrompt (source request) (req_destination request))]
  else
    (CallGemini (AirportPrompt (source request) (req_destination request))
     :: map CallSerp
          (flightStageRequests toISODate env request (searchOrigin request)
             (resolvedAirports request).2)
     ++ [CallGemini (itineraryPromptOf request)])%list.

(** What such a request ends with: the message of an error, or the body of
    the response. *)
Definition outcomeOf (request : TravelRequest) : string + ResponseBody :=
  if lookupThrowsOf request then inl conversionError
  else
    match gemini (itineraryPromptOf request) with
    | GeminiOk text _ =>
        inr {| airportCodes_source :=
                 nonEmptyOrNull (resolvedAirports request).1;
               airportCodes_destination :=
                 nonEmptyOrNull (resolvedAirports request).2;
               selectedAirportCode := (stageOf request).2;
               flightData := nonEmptyOrNull (stageOf request).1;
               itinerary := match text with Some t => t | None => "" end |}
    | reply => inl (failureMessage reply)
    end.

End ServiceNotions.

(** Sample services: the lookup answers with two codes in plain text, the
    itinerary call is refused; every flight search returns one offer. *)
Definition sampleGemini (prompt : GeminiPrompt) : GeminiReply :=
  match prompt with
  | AirportPrompt _ _ => GeminiOk (Some "JFK then CDG") "{}"
  | ItineraryPrompt _ _ _ _ _ _ _ _ => GeminiStatus 503
  end.

(** A lookup result with an element that cannot be turned into a text. *)
Definition unreadableLookup : jsval :=
  JObj [("source_airports", JArr [JObj [("toString", JNum 1)]]);
        ("destination_airports", JArr [JStr "CDG"])].

Definition sampleSerp (_ : SerpRequest) : SerpReply :=
  SerpOk (mkSerpData (Some [offerPriced 420])).

Definition sampleRequest : TravelRequest :=
  mkTravelRequest "New York" "Paris" "2025-06-01" "2025-06-08" "2000" "2"
    "museums" true.

(** ** Further notions *)

(** The text has no lowercase letter. *)
Definition noLower (s : string) : bool :=
  allString (fun c => negb (isLower c)) s.

(** The object a model reply carries when it answers as asked: the two
    arrays of codes. *)
Definition airportsObject (l1 l2 : list string) : jsval :=
  JObj [("source_airports", JArr (map JStr l1));
        ("destination_airports", JArr (map JStr l2))].

(** A parser that knows the text of one value only. *)
Definition parseOnly (v : jsval) (s : string) : option jsval :=
  if String.eqb s (renderJson v) then Some v else None.

(** A leg names both its airports; every leg of an offer does. *)
Definition legComplete (leg : ProviderLeg) : bool :=
  match departure_airport leg, arrival_airport leg with
  | Some _, Some _ => true
  | _, _ => false
  end.

Definition offerComplete (flight : ProviderFlight) : bool :=
  match flights flight with
  | Some legs => forallb legComplete legs
  | None => true
  end.

(** The legs of an offer, none when the field is missing. *)
Definition legsOf (flight : ProviderFlight) : list ProviderLeg :=
  match flights flight with
  | Some legs => legs
  | None => []
  end.

(** A leg with both airports, and one without arrival airport. *)
Definition sampleLeg : ProviderLeg :=
  mkProviderLeg (Some (mkProviderAirport (Some "JFK") (Some "Kennedy") None))
                (Some (mkProviderAirport (Some "CDG") (Some "Roissy") None))
                (Some "Air France").

Definition brokenLeg : ProviderLeg :=
  mkProviderLeg (Some (mkProviderAirport (Some "JFK") None None)) None None.

(** ** Itinerary display: [formatItinerary] of [TravelPlan] *)

Definition newline : ascii := "010"%char.
Definition hash : ascii := "#"%char.
Definition star : ascii := "*"%char.

(** [text.split('\n')] *)
Fixpoint splitLines (s : string) : list string :=
  match s with
  | EmptyString => [EmptyString]
  | String c r =>
      if Ascii.eqb c newline then EmptyString :: splitLines r
      else match splitLines r with
           | line :: rest => String c line :: rest
           | [] => [String c EmptyString]
           end
  end.

(** [s.startsWith(p)] *)
Definition startsWith (p s : string) : bool := String.prefix p s.

(** [s.replace(/\*\*/g, '')]: every pair of stars met from left to right
    is removed. *)
Fixpoint removeStars (s : string) : string :=
  match s with
  | EmptyString => EmptyString
  | String c r =>
      if Ascii.eqb c star then
        match r with
        | String c2 r2 =>
            if Ascii.eqb c2 star then removeStars r2
            else String c (removeStars r)
        | EmptyString => String c EmptyString
        end
      else String c (removeStars r)
  end.

(** [s.replace(/#{2,3}\s*/g, '')]: two hashes, a third one when there is
    one, and the white space that follows are removed; [inSpace] tells that
    the white space after hashes is being removed. *)
Fixpoint stripHashes (inSpace : bool) (s : string) : string :=
  match s with
  | EmptyString => EmptyString
  | String c r =>
      if inSpace && isSpace c then stripHashes true r
      else if Ascii.eqb c hash then
        match r with
        | String c2 r2 =>
            if Ascii.eqb c2 hash then
              match r2 with
              | String c3 r3 =>
                  if Ascii.eqb c3 hash then stripHashes true r3
                  else stripHashes true r2
              | EmptyString => EmptyString
              end
            else String c (stripHashes false r)
        | EmptyString => String c EmptyString
        end
      else String c (stripHashes false r)
  end.

(** The elements of the formatted itinerary: a day heading ([h3]), a
    section heading ([h4]), a list item ([li]) or a paragraph ([p]), with
    its React key and its text. *)
Inductive BlockKind := DayHeading | SectionHeading | ListItem | Paragraph.

Record Block := mkBlock { key : nat; kind : BlockKind; content : string }.

(** The element pushed for a line that is not blank. *)
Definition blockOf (index : nat) (trimmed : string) : Block :=
  if startsWith "Day " trimmed || startsWith "**Day " trimmed then
    mkBlock index DayHeading (removeStars trimmed)
  else if startsWith "###" trimmed || startsWith "##" trimmed then
    mkBlock index SectionHeading (stripHashes false trimmed)
  else if startsWith "- " trimmed || startsWith "* " trimmed then
    mkBlock index ListItem (dropString 2 trimmed)
  else mkBlock index Paragraph trimmed.

(** [lines.forEach((line, index) => ...)] from index [index] on. *)
Fixpoint formatLines (index : nat) (lines : list string) : list Block :=
  match lines with
  | [] => []
  | line :: rest =>
      let trimmed := trim line in
      match trimmed with
      | EmptyString => formatLines (S index) rest
      | _ => blockOf index trimmed :: formatLines (S index) rest
      end
  end.

Definition formatItinerary (text : string) : list Block :=
  formatLines 0 (splitLines text).

(** ** The page: [handleSubmit] and [handleReset] of [Index] *)

Record TravelFormData := mkTravelFormData
  { form_source : string;
    form_destination : string;
    form_startDate : option Z;
    form_endDate : option Z;
    form_budget : string;
    form_travelers : string;
    form_interests : string;
    form_includeFlights : bool }.

Record Toast := mkToast
  { toast_title : string; toast_description : string; toast_variant : string }.

(** The state of the page; [JNull] is [null].  The toasts shown so far are
    kept with it. *)
Record PageState := mkPageState
  { page_itinerary : jsval;
    page_flightData : jsval;
    page_selectedAirport : jsval;
    page_formData : option TravelFormData;
    page_isLoading : bool;
    page_toasts : list Toast }.

Definition initialPage : PageState :=
  mkPageState (JStr "") JNull JNull None false [].

(** What [supabase.functions.invoke] comes back with: it rejects, or it
    returns [{ data, error }]; [None] is [null]. *)
Inductive InvokeOutcome :=
| InvokeRejected (message : string)
| InvokeReturned (data : option jsval) (error : option string).

(** [v || null] *)
Definition orNull (v : option jsval) : jsval :=
  match v with
  | Some x => if truthy x then x else JNull
  | None => JNull
  end.

(** The [catch] block: the error is logged and this toast is shown. *)
Definition failureToast : Toast :=
  mkToast "Error" "Failed to generate travel plan. Please try again."
          "destructive".

Definition showFailure (st : PageState) : PageState :=
  mkPageState (page_itinerary st) (page_flightData st)
    (page_selectedAirport st) (page_formData st) (page_isLoading st)
    (page_toasts st ++ [failureToast]).

(** [handleSubmit] up to the call of the function... *)
Definition handleSubmitStart (data : TravelFormData) (st : PageState)
    : PageState :=
  mkPageState (page_itinerary st) (page_flightData st)
    (page_selectedAirport st) (Some data) true (page_toasts st).

(** ... and from its outcome on, [finally] included. *)
Definition handleSubmitEnd (outcome : InvokeOutcome) (st : PageState)
    : PageState :=
  let st' :=
    match outcome with
    | InvokeRejected _ => showFailure st
    | InvokeReturned data error =>
        match error with
        | Some _ => showFailure st
        | None =>
            match optChain data (fun result => getProp result "itinerary") with
            | Some itinerary =>
                mkPageState itinerary
                  (orNull (optChain data
                             (fun result => getProp result "flightData")))
                  (orNull (optChain data
                             (fun result => getProp result "selectedAirport")))
                  (page_formData st) (page_isLoading st) (page_toasts st)
            | None => showFailure st
            end
        end
    end in
  mkPageState (page_itinerary st') (page_flightData st')
    (page_selectedAirport st') (page_formData st') false (page_toasts st').

Definition handleSubmit (data : TravelFormData) (outcome : InvokeOutcome)
    (st : PageState) : PageState :=
  handleSubmitEnd outcome (handleSubmitStart data st).

Definition handleReset (st : PageState) : PageState :=
  mkPageState (JStr "") JNull JNull None (page_isLoading st) (page_toasts st).

(** [!itinerary ? form : plan] *)
Definition showsPlan (st : PageState) : bool := truthy (page_itinerary st).

(** [length > 0] for the value of a property [length], [None] being
    [undefined].  The answer is [None] for a text, an array or an object,
    whose conversion to a number is not modelled. *)
Definition positiveLength (v : option jsval) : option bool :=
  match v with
  | None => Some false
  | Some JNull => Some false
  | Some (JBool b) => Some b
  | Some (JNum n) => Some (0 <? n)
  | Some _ => None
  end.

(** [flightData && flightData.length > 0], the test that [TravelPlan] makes
    for its flight card.  A number or a boolean has no [length], a text that
    is not empty has a positive one, an array as many as it has elements,
    an object the property of that name if it has one. *)
Definition hasFlights (flights : jsval) : option bool :=
  match flights with
  | JArr [] => Some false
  | JArr (_ :: _) => Some true
  | JStr s => Some (truthy flights)
  | JObj fields => positiveLength (assocGet "length" fields)
  | JNull | JBool _ | JNum _ => Some false
  end.

(** The test for the flight card is reached and holds: [TravelPlan] is
    rendered only when the plan is shown. *)
Definition showsFlights (st : PageState) : option bool :=
  if showsPlan st then hasFlights (page_flightData st) else Some false.

(** The line "Itinerary is based on arrival at ..." is rendered: it is part
    of the flight card. *)
Definition showsArrival (st : PageState) : option bool :=
  match showsFlights st with
  | Some true => Some (truthy (page_selectedAirport st))
  | other => other
  end.

(** ** The body of a successful response as JSON *)

Definition jsonOfOption {A} (f : A -> jsval) (x : option A) : jsval :=
  match x with
  | Some a => f a
  | None => JNull
  end.

(** A property whose value is [undefined] is left out by
    [JSON.stringify]. *)
Definition optField {A} (name : string) (f : A -> jsval) (x : option A)
    : list (string * jsval) :=
  match x with
  | Some a => [(name, f a)]
  | None => []
  end.

Definition routeLegJson (leg : RouteLeg) : jsval :=
  JObj (optField "from" JStr (from leg) ++ optField "to" JStr (to leg)
        ++ optField "fromName" JStr (fromName leg)
        ++ optField "toName" JStr (toName leg))%list.

Definition flightOptionJson (f : FlightOption) : jsval :=
  JObj ([("destination", JStr (destination f));
         ("destinationName", JStr (destinationName f))]
        ++ optField "price" JNum (price f)
        ++ optField "duration" JNum (duration f)
        ++ [("airline", JStr (airline f));
            ("route", JArr (map routeLegJson (route f)));
            ("departureTime", JStr (departureTime f));
            ("arrivalTime", JStr (arrivalTime f))])%list.

Definition codesJson (codes : list string) : jsval := JArr (map JStr codes).

(** [responseBody] as the client receives it. *)
Definition responseJson (body : ResponseBody) : jsval :=
  JObj [("airportCodes",
         JObj [("source", jsonOfOption codesJson (airportCodes_source body));
               ("destination",
                jsonOfOption codesJson (airportCodes_destination body))]);
        ("selectedAirportCode", jsonOfOption JStr (selectedAirportCode body));
        ("flightData",
         jsonOfOption (fun l => JArr (map flightOptionJson l)) (flightData body));
        ("itinerary", JStr (itinerary body))].

(** A pair of one character occurs in the text. *)
Fixpoint containsPair (a : ascii) (s : string) : bool :=
  match s with
  | String c r =>
      match r with
      | String d _ => (Ascii.eqb c a && Ascii.eqb d a) || containsPair a r
      | EmptyString => false
      end
  | EmptyString => false
  end.

(** The line is not blank. *)
Definition nonBlank (line : string) : bool := negb (String.eqb (trim line) "").

(** The call of the function failed for the page: it was rejected, it
    came back with an error, or its data holds no [itinerary]. *)
Definition outcomeFails (outcome : InvokeOutcome) : bool :=
  match outcome with
  | InvokeRejected _ => true
  | InvokeReturned _ (Some _) => true
  | InvokeReturned data None =>
      match optChain data (fun result => getProp result "itinerary") with
      | Some _ => false
      | None => true
      end
  end.

Definition sampleForm : TravelFormData :=
  mkTravelFormData "Lisbon" "Paris" None None "1000" "2" "food" true.

(* ===================================================================== *)
(** * Part II: properties                                                 *)
(* ===================================================================== *)

(** ** Texts *)

Lemma length_append (s t : string) :
  String.length (s ++ t) = (String.length s + String.length t)%nat.
Proof. induction s as [|c s IH]; simpl; [reflexivity | now rewrite IH]. Qed.

Lemma dropString_app (s t : string) : dropString (String.length s) (s ++ t) = t.
Proof. induction s as [|c s IH]; simpl; [now destruct t | exact IH]. Qed.

Lemma substring_app_prefix (t u : string) :
  substring 0 (String.length t) (t ++ u) = t.
Proof.
  induction t as [|d t IHt]; simpl; [now destruct u | now rewrite IHt].
Qed.

Lemma substring_app_mid (s t u : string) :
  substring (String.length s) (String.length t) (s ++ t ++ u) = t.
Proof.
  induction s as [|c s IH]; simpl; [apply substring_app_prefix | exact IH].
Qed.

Lemma prefix_empty (s : string) : String.prefix "" s = true.
Proof. now destruct s. Qed.

Lemma index_lbrace_cons (c : ascii) (s : string) :
  index 0 "{" (String c s)
  = if Ascii.eqb c lbrace then Some 0%nat
    else match index 0 "{" s with Some n => Some (S n) | None => None end.
Proof.
  cbn [index String.prefix]. unfold lbrace.
  destruct (ascii_dec "{" c) as [<-|Hne].
  - now rewrite prefix_empty.
  - destruct (Ascii.eqb_spec c "{"); [congruence | reflexivity].
Qed.

Lemma index_lbrace_app (pre rest : string) :
  noBrace pre = true ->
  index 0 "{" (pre ++ String lbrace rest) = Some (String.length pre).
Proof.
  induction pre as [|c pre IH]; intros H.
  - simpl String.append. now rewrite index_lbrace_cons.
  - simpl in H. apply andb_true_iff in H as [Hc Hpre].
    simpl String.append. rewrite index_lbrace_cons, (IH Hpre).
    apply negb_true_iff in Hc. now rewrite Hc.
Qed.

Lemma index_lbrace_none (text : string) :
  noBrace text = true -> index 0 "{" text = None.
Proof.
  induction text as [|c text IH]; intros H; [reflexivity|].
  simpl in H. apply andb_true_iff in H as [Hc Htext].
  rewrite index_lbrace_cons, (IH Htext).
  apply negb_true_iff in Hc. now rewrite Hc.
Qed.

(** ** JSON-candidate extractor *)

#[local] Arguments scanStep : simpl never.

Ltac scan_simpl :=
  cbn [scanLoop staysOpen scanRun String.append String.length takeString].

Lemma scanRun_app (s t : string) (st : ScanState) :
  scanRun (s ++ t) st = scanRun t (scanRun s st).
Proof.
  revert st; induction s as [|c s IH]; scan_simpl; intros;
    [reflexivity | apply IH].
Qed.

Lemma staysOpen_app (s t : string) (st : ScanState) :
  staysOpen (s ++ t) st = staysOpen s st && staysOpen t (scanRun s st).
Proof.
  revert st; induction s as [|c s IH]; scan_simpl; intros; [reflexivity|].
  now rewrite IH, andb_assoc.
Qed.

Lemma scanLoop_open (text : string) (fb i : nat) (s t : string) (st : ScanState) :
  staysOpen s st = true ->
  scanLoop text fb i (s ++ t) st
  = scanLoop text fb (i + String.length s) t (scanRun s st).
Proof.
  revert i st; induction s as [|c s IH]; scan_simpl; intros i st H.
  - now rewrite Nat.add_0_r.
  - apply andb_true_iff in H as [Hd Hs].
    apply negb_true_iff in Hd. rewrite Hd, (IH _ _ Hs).
    f_equal. lia.
Qed.

Lemma scanLoop_none (text : string) (fb i : nat) (s : string) (st : ScanState) :
  scanLoop text fb i s st = None <-> staysOpen s st = true.
Proof.
  revert i st; induction s as [|c s IH]; scan_simpl; intros i st.
  - tauto.
  - destruct (depth (scanStep c st) =? 0); cbn [negb andb].
    + split; intros H; discriminate H.
    + apply IH.
Qed.

Lemma staysOpen_prefixes (s : string) (st : ScanState) :
  staysOpen s st = true <->
  (forall n, (0 < n <= String.length s)%nat ->
             depth (scanRun (takeString n s) st) <> 0).
Proof.
  revert st; induction s as [|c s IH]; scan_simpl; intros st.
  - split; [intros _ n Hn; lia | reflexivity].
  - rewrite andb_true_iff, negb_true_iff, Z.eqb_neq, IH. split.
    + intros [Hc Hs] [|n] Hn; [lia|]. scan_simpl.
      destruct n as [|n]; [exact Hc | apply Hs; lia].
    + intros H. split.
      * apply (H 1%nat). lia.
      * intros n Hn. apply (H (S n)). lia.
Qed.

Lemma scanStep_in_string (c : ascii) (d : Z) :
  c <> dquote -> c <> backslash ->
  scanStep c (mkScan d true false) = mkScan d true false.
Proof.
  intros Hq Hb. unfold scanStep; cbn [depth inString escaped].
  apply Ascii.eqb_neq in Hq, Hb. now rewrite Hq, Hb.
Qed.

Lemma scanStep_backslash (d : Z) :
  scanStep backslash (mkScan d true false) = mkScan d true true.
Proof. reflexivity. Qed.

Lemma scanStep_escaped (c : ascii) (d : Z) :
  scanStep c (mkScan d true true) = mkScan d true false.
Proof.
  unfold scanStep; cbn [depth inString escaped negb].
  now rewrite !andb_false_r.
Qed.

Lemma scanStep_open_quote (d : Z) :
  scanStep dquote (mkScan d false false) = mkScan d true false.
Proof. reflexivity. Qed.

Lemma scanStep_close_quote (d : Z) :
  scanStep dquote (mkScan d true false) = mkScan d false false.
Proof. reflexivity. Qed.

Lemma scanStep_plain (c : ascii) (d : Z) :
  c <> dquote -> c <> backslash -> c <> lbrace -> c <> rbrace ->
  scanStep c (mkScan d false false) = mkScan d false false.
Proof.
  intros Hq Hb Hl Hr. unfold scanStep; cbn [depth inString escaped].
  apply Ascii.eqb_neq in Hq, Hb, Hl, Hr. now rewrite Hq, Hb, Hl, Hr.
Qed.

Lemma scanStep_lbrace (d : Z) :
  scanStep lbrace (mkScan d false false) = mkScan (d + 1) false false.
Proof. reflexivity. Qed.

Lemma scanStep_rbrace (d : Z) :
  scanStep rbrace (mkScan d false false) = mkScan (d - 1) false false.
Proof. reflexivity. Qed.

Lemma nonzero_eqb (d : Z) : d <> 0 -> negb (d =? 0) = true.
Proof. intros H. apply negb_true_iff, Z.eqb_neq, H. Qed.

(** Inside a string literal the scanner keeps its depth. *)
Lemma scan_string_body (lit : string) :
  StringBody lit -> forall d, d <> 0 ->
  staysOpen lit (mkScan d true false) = true
  /\ scanRun lit (mkScan d true false) = mkScan d true false.
Proof.
  induction 1 as [|c s Hq Hb _ IH|c s _ IH]; intros d Hd; scan_simpl.
  - split; reflexivity.
  - rewrite scanStep_in_string by assumption. cbn [depth].
    rewrite nonzero_eqb by assumption. apply IH, Hd.
  - rewrite scanStep_backslash, scanStep_escaped. cbn [depth].
    rewrite nonzero_eqb by assumption. apply IH, Hd.
Qed.

(** Over balanced text the scanner comes back to the depth it started
    from, and never below it. *)
Lemma scan_balanced (s : string) :
  Balanced s -> forall d, 0 < d ->
  staysOpen s (mkScan d false false) = true
  /\ scanRun s (mkScan d false false) = mkScan d false false.
Proof.
  induction 1 as [|c s Hq Hb Hl Hr _ IH|lit s Hlit _ IH|inner s _ IHi _ IHs];
    intros d Hd; scan_simpl.
  - split; reflexivity.
  - rewrite scanStep_plain by assumption. cbn [depth].
    rewrite nonzero_eqb by lia. apply IH, Hd.
  - rewrite scanStep_open_quote. cbn [depth].
    rewrite nonzero_eqb by lia. cbn [andb].
    destruct (scan_string_body lit Hlit d ltac:(lia)) as [Ho Hr].
    rewrite staysOpen_app, scanRun_app, Ho, Hr. scan_simpl.
    rewrite scanStep_close_quote. cbn [depth].
    rewrite nonzero_eqb by lia. apply IH, Hd.
  - rewrite scanStep_lbrace. cbn [depth].
    rewrite nonzero_eqb by lia. cbn [andb].
    destruct (IHi (d + 1) ltac:(lia)) as [Ho Hr].
    rewrite staysOpen_app, scanRun_app, Ho, Hr. scan_simpl.
    rewrite scanStep_rbrace. cbn [depth].
    replace (d + 1 - 1) with d by lia.
    rewrite nonzero_eqb by lia. apply IHs, Hd.
Qed.

(** Scanning an object text from its opening brace stops exactly at its
    closing brace. *)
Lemma scanLoop_object (text : string) (fb : nat) (inner post : string) :
  Balanced inner ->
  scanLoop text fb fb (String lbrace (inner ++ String rbrace post)) scanInit
  = Some (substring fb (String.length inner + 2) text).
Proof.
  intros Hin. scan_simpl. unfold scanInit. rewrite scanStep_lbrace.
  cbn [depth Z.add Z.eqb Pos.add].
  destruct (scan_balanced inner Hin 1 ltac:(lia)) as [Ho Hr].
  rewrite (scanLoop_open _ _ _ _ _ _ Ho), Hr. scan_simpl.
  rewrite scanStep_rbrace. cbn [depth Z.sub Z.add Z.opp Z.pos_sub Z.eqb].
  do 2 f_equal. lia.
Qed.

(** *** Rendered JSON objects are balanced object texts *)

Lemma stringBodyb_sound (n : nat) :
  forall s, (String.length s <= n)%nat -> stringBodyb s = true -> StringBody s.
Proof.
  induction n as [|n IH]; intros s Hn H.
  - destruct s; [constructor | simpl in Hn; lia].
  - destruct s as [|c r]; [constructor|]. cbn [stringBodyb] in H.
    destruct (Ascii.eqb_spec c backslash) as [->|Hb].
    + destruct r as [|d r']; [discriminate H|].
      apply sb_escape, IH; [simpl in Hn; lia | exact H].
    + apply andb_true_iff in H as [Hq H].
      apply negb_true_iff, Ascii.eqb_neq in Hq.
      apply sb_char; [exact Hq | exact Hb|].
      apply IH; [simpl in Hn; lia | exact H].
Qed.

Lemma StringBody_app (s t : string) :
  StringBody s -> StringBody t -> StringBody (s ++ t).
Proof.
  induction 1 as [|c s Hq Hb _ IH|c s _ IH]; intros Ht; cbn [String.append].
  - exact Ht.
  - apply sb_char; auto.
  - apply sb_escape; auto.
Qed.

Lemma escapeChar_body (c : ascii) : StringBody (escapeChar c).
Proof.
  apply (stringBodyb_sound 6).
  - destruct c as [[] [] [] [] [] [] [] []]; vm_compute; lia.
  - destruct c as [[] [] [] [] [] [] [] []]; reflexivity.
Qed.

Lemma escapeString_body (s : string) : StringBody (escapeString s).
Proof.
  induction s as [|c r IH]; cbn [escapeString]; [constructor|].
  apply StringBody_app; [apply escapeChar_body | exact IH].
Qed.

Lemma append_assoc (s t u : string) : (s ++ t) ++ u = s ++ t ++ u.
Proof. induction s as [|c s IH]; cbn [String.append]; [reflexivity | now rewrite IH]. Qed.

Lemma Balanced_app (s t : string) :
  Balanced s -> Balanced t -> Balanced (s ++ t).
Proof.
  induction 1 as [|c s Hq Hb Hl Hr _ IH|lit s Hlit _ IH|inner s Hi _ _ IH];
    intros Ht; cbn [String.append].
  - exact Ht.
  - apply bal_char; auto.
  - rewrite append_assoc. cbn [String.append]. apply bal_string; auto.
  - rewrite append_assoc. cbn [String.append]. apply bal_object; auto.
Qed.

Lemma plainText_balanced (s : string) : plainText s = true -> Balanced s.
Proof.
  induction s as [|c r IH]; [constructor|]. unfold plainText. cbn [allString].
  rewrite !andb_true_iff, !negb_true_iff.
  intros [[[[Hq Hb] Hl] Hr] Hrest].
  apply bal_char; try (now apply Ascii.eqb_neq). now apply IH.
Qed.

Lemma quoteString_balanced (s : string) : Balanced (quoteString s).
Proof.
  unfold quoteString. apply (bal_string _ ""); [apply escapeString_body | constructor].
Qed.

Lemma plainText_uint (d : Decimal.uint) :
  plainText (NilEmpty.string_of_uint d) = true.
Proof. induction d; cbn [NilEmpty.string_of_uint]; try exact IHd; reflexivity. Qed.

Lemma plainText_nz_uint (d : Decimal.uint) :
  plainText (NilZero.string_of_uint d) = true.
Proof. destruct d; try reflexivity; apply plainText_uint. Qed.

Lemma plainText_decimal (n : Z) : plainText (decimal n) = true.
Proof.
  unfold decimal, NilZero.string_of_int.
  destruct (Z.to_int n) as [d|d]; [apply plainText_nz_uint|].
  unfold plainText. cbn [allString]. apply andb_true_iff.
  split; [reflexivity | apply plainText_nz_uint].
Qed.

Lemma joinComma_balanced (parts : list string) :
  Forall Balanced parts -> Balanced (joinComma parts).
Proof.
  induction 1 as [|x r Hx Hr IH]; cbn [joinComma]; [constructor|].
  destruct r as [|y r]; [exact Hx|].
  apply Balanced_app; [exact Hx|].
  apply bal_char; try discriminate. exact IH.
Qed.

Lemma renderJson_balanced (v : jsval) : Balanced (renderJson v).
Proof.
  induction v as [|b|n|s|items IH|fields IH] using jsval_nested_ind;
    cbn [renderJson].
  - now apply plainText_balanced.
  - destruct b; now apply plainText_balanced.
  - apply plainText_balanced, plainText_decimal.
  - apply quoteString_balanced.
  - apply bal_char; try discriminate.
    apply Balanced_app; [|now apply plainText_balanced].
    apply joinComma_balanced, Forall_map.
    eapply Forall_impl; [exact IH|]. auto.
  - apply (bal_object _ ""); [|constructor].
    apply joinComma_balanced, Forall_map.
    eapply Forall_impl; [exact IH|]. intros [k x] Hx. cbn [fst snd] in *.
    apply Balanced_app; [apply quoteString_balanced|].
    apply bal_char; try discriminate. exact Hx.
Qed.

Lemma renderJson_object (fields : list (string * jsval)) :
  ObjectText (renderJson (JObj fields)).
Proof.
  eexists. split; [|reflexivity].
  apply joinComma_balanced, Forall_map, Forall_forall.
  intros [k x] _. cbn [fst snd].
  apply Balanced_app; [apply quoteString_balanced|].
  apply bal_char; try discriminate. apply renderJson_balanced.
Qed.

Lemma object_text_example : ObjectText (jsq "{'a':1}").
Proof.
  exists (jsq "'a':1"). split; [|reflexivity].
  apply (bal_string "a" ":1").
  - apply sb_char; [discriminate | discriminate | apply sb_nil].
  - repeat (apply bal_char; [discriminate ..|]). apply bal_nil.
Qed.

(** C1, as stated, fails: commentary before the object may itself contain
    an opening brace, and the scan starts at the first one. *)
Lemma extract_brace_in_commentary :
  ObjectText (jsq "{'a':1}")
  /\ extractFirstJsonObject ("Result {final}: " ++ jsq "{'a':1}" ++ " thanks")
     = Some "{final}"
  /\ extractFirstJsonObject ("Result {final}: " ++ jsq "{'a':1}" ++ " thanks")
     <> Some (jsq "{'a':1}").
Proof.
  split; [exact object_text_example|].
  split; [reflexivity | discriminate].
Qed.

(** C1 (amended): when the commentary before a balanced object has no
    opening brace, the extractor returns exactly the object's text, from its
    opening brace to the matching closing one, whatever follows it and
    whatever braces, quotes and escapes its string literals contain -- in
    particular for the JSON text of any object value; a text without opening
    brace, or one whose depth is never zero after a scanned character, gives
    the empty result [None]. *)
Theorem extractFirstJsonObject_spec :
  (forall pre obj post : string,
      noBrace pre = true -> ObjectText obj ->
      extractFirstJsonObject (pre ++ obj ++ post) = Some obj)
  /\ (forall (pre : string) (fields : list (string * jsval)) (post : string),
         noBrace pre = true ->
         extractFirstJsonObject (pre ++ renderJson (JObj fields) ++ post)
         = Some (renderJson (JObj fields)))
  /\ (forall text : string,
         noBrace text = true -> extractFirstJsonObject text = None)
  /\ (forall pre rest : string,
         noBrace pre = true ->
         (forall n, (0 < n <= String.length (String lbrace rest))%nat ->
            depth (scanRun (takeString n (String lbrace rest)) scanInit) <> 0) ->
         extractFirstJsonObject (pre ++ String lbrace rest) = None)
  /\ extractFirstJsonObject (jsq "here is it: {'a':1} thanks")
     = Some (jsq "{'a':1}")
  /\ extractFirstJsonObject (jsq "{'note':'a{b}c','x':1}")
     = Some (jsq "{'note':'a{b}c','x':1}").
Proof.
  assert (Hobj : forall pre obj post : string,
             noBrace pre = true -> ObjectText obj ->
             extractFirstJsonObject (pre ++ obj ++ post) = Some obj).
  { intros pre obj post Hpre (inner & Hin & ->).
    unfold extractFirstJsonObject.
    cbn [String.append]. rewrite index_lbrace_app by assumption.
    rewrite dropString_app, append_assoc. cbn [String.append].
    rewrite scanLoop_object by assumption. f_equal.
    replace (String.length inner + 2)%nat
      with (String.length (String lbrace (inner ++ String rbrace ""))).
    2:{ cbn [String.length]. rewrite length_append. cbn [String.length]. lia. }
    replace (String lbrace (inner ++ String rbrace post))
      with (String lbrace (inner ++ String rbrace "") ++ post).
    2:{ cbn [String.append]. now rewrite append_assoc. }
    apply substring_app_mid. }
  split; [exact Hobj|].
  split; [|split; [|split; [|split; reflexivity]]].
  - intros pre fields post Hpre. apply Hobj; [exact Hpre|].
    apply renderJson_object.
  - intros text H. unfold extractFirstJsonObject.
    now rewrite index_lbrace_none.
  - intros pre rest Hpre Hopen. unfold extractFirstJsonObject.
    rewrite index_lbrace_app, dropString_app by assumption.
    apply scanLoop_none, staysOpen_prefixes, Hopen.
Qed.

Lemma extractFirstJsonObject_spec_witness :
  extractFirstJsonObject ("here is it: " ++ jsq "{'a':1}" ++ " thanks")
  = Some (jsq "{'a':1}")
  /\ extractFirstJsonObject
       ("the reply: "
        ++ renderJson (JObj [("note", JStr "a{b}c"); ("x", JNum 1)])
        ++ " -- done")
     = Some (renderJson (JObj [("note", JStr "a{b}c"); ("x", JNum 1)]))
  /\ extractFirstJsonObject "no object here" = None
  /\ extractFirstJsonObject ("cut off: " ++ String lbrace (jsq "'a': {'b': 1}"))
     = None.
Proof.
  destruct extractFirstJsonObject_spec as (Hobj & Hjson & Hnone & Hopen & _).
  split; [|split; [|split]].
  - apply (Hobj "here is it: " (jsq "{'a':1}") " thanks").
    + reflexivity.
    + exact object_text_example.
  - apply Hjson. reflexivity.
  - apply Hnone. reflexivity.
  - apply Hopen; [reflexivity|].
    apply staysOpen_prefixes. reflexivity.
Defined.

(** ** Code-token extractor *)

Lemma isAlpha_upperChar (c : ascii) :
  isAlpha c = true -> isUpper (upperChar c) = true.
Proof.
  destruct c as [[] [] [] [] [] [] [] []]; vm_compute; congruence.
Qed.

Lemma isAlpha_wordChar (c : ascii) : isAlpha c = true -> isWordChar c = true.
Proof. unfold isWordChar. now intros ->. Qed.

(** No match starts right after a word character. *)
Lemma matchHere_after_word (p : ascii) (s : string) :
  isWordChar p = true -> matchHere (Some p) s = false.
Proof.
  intros Hp. destruct s as [|a [|b [|c r]]]; try reflexivity.
  unfold matchHere, boundaryAt. rewrite Hp.
  destruct (isWordChar a) eqn:Ha; [reflexivity|].
  destruct (isAlpha a) eqn:Hal; [|reflexivity].
  now rewrite (isAlpha_wordChar a Hal) in Ha.
Qed.

Lemma matchHere_letters (prev : option ascii) (a b c : ascii) (r : string) :
  matchHere prev (String a (String b (String c r))) = true ->
  isAlpha a = true /\ isAlpha b = true /\ isAlpha c = true.
Proof.
  unfold matchHere. rewrite !andb_true_iff. tauto.
Qed.

Lemma matchAllFrom_runs (n : nat) :
  forall (s : string) (prev : option ascii),
    (String.length s <= n)%nat -> matchAllFrom prev s 0 = runsFrom prev s.
Proof.
  induction n as [|n IH]; intros s prev Hn.
  - destruct s; [reflexivity | simpl in Hn; lia].
  - destruct s as [|a r0]; [reflexivity|].
    cbn [matchAllFrom runsFrom].
    destruct (matchHere prev (String a r0)) eqn:Hm.
    + destruct r0 as [|b [|c r]]; try discriminate Hm.
      destruct (matchHere_letters _ _ _ _ _ Hm) as (Ha & Hb & _).
      f_equal. cbn [matchAllFrom runsFrom].
      rewrite (matchHere_after_word a) by now apply isAlpha_wordChar.
      rewrite (matchHere_after_word b) by now apply isAlpha_wordChar.
      apply IH. simpl in Hn |- *. lia.
    + apply IH. simpl in Hn. lia.
Qed.

Lemma matchAll_codeRuns (text : string) : matchAll text = codeRuns text.
Proof. apply (matchAllFrom_runs (String.length text)). lia. Qed.

Lemma runsFrom_codeShaped (s : string) :
  forall prev, Forall (fun w => isCodeShaped w = true) (runsFrom prev s).
Proof.
  induction s as [|a r IH]; intros prev; cbn [runsFrom]; [constructor|].
  destruct (matchHere prev (String a r)) eqn:Hm; [|apply IH].
  constructor; [|apply IH].
  destruct r as [|b [|c r]]; try discriminate Hm.
  destruct (matchHere_letters _ _ _ _ _ Hm) as (Ha & Hb & Hc).
  unfold isCodeShaped. cbn. now rewrite Ha, Hb, Hc.
Qed.

Lemma upper_of_codeShaped (w : string) :
  isCodeShaped w = true -> isUpperCode (toUpperCase w) = true.
Proof.
  unfold isCodeShaped, isUpperCode.
  destruct w as [|a [|b [|c [|d r]]]]; try discriminate.
  cbn. rewrite !andb_true_r, !andb_true_iff. intros (Ha & Hb & Hc).
  now rewrite !isAlpha_upperChar.
Qed.

Lemma append_empty_r (s : string) : s ++ "" = s.
Proof. induction s as [|c s IH]; cbn [String.append]; [reflexivity | now rewrite IH]. Qed.

Lemma append_snoc (s : string) (c : ascii) (t : string) :
  (s ++ String c "") ++ t = s ++ String c t.
Proof. induction s as [|d s IH]; cbn [String.append]; [reflexivity | now rewrite IH]. Qed.

(** At the start of a word the expression matches exactly when the word is
    made of three letters, and what it matches is the word. *)
Lemma matchHere_word (prev : option ascii) (s : string) :
  notWord prev ->
  matchHere prev s = isCodeShaped (takeWord s)
  /\ (matchHere prev s = true -> takeString 3 s = takeWord s).
Proof.
  intros Hprev.
  assert (Hp : match prev with Some c => isWordChar c | None => false end = false).
  { destruct prev as [p|]; [exact Hprev | reflexivity]. }
  assert (W : forall c, isWordChar c = false -> isAlpha c = false).
  { intros c Hc. destruct (isAlpha c) eqn:Ha; [|reflexivity].
    now rewrite (isAlpha_wordChar c Ha) in Hc. }
  destruct s as [|a [|b [|c r]]]; unfold matchHere, boundaryAt; rewrite ?Hp;
    cbn [takeWord takeString xorb].
  - split; [reflexivity | discriminate].
  - destruct (isWordChar a); split; (reflexivity || discriminate).
  - destruct (isWordChar a); [|split; (reflexivity || discriminate)].
    destruct (isWordChar b); split; (reflexivity || discriminate).
  - destruct (isWordChar a) eqn:Ha.
    2:{ cbn [andb]. split; [reflexivity | discriminate]. }
    destruct (isWordChar b) eqn:Hb.
    2:{ rewrite (W b Hb), !andb_false_r. cbn [andb].
        split; [reflexivity | discriminate]. }
    destruct (isWordChar c) eqn:Hc.
    2:{ rewrite (W c Hc), !andb_false_r. cbn [andb].
        split; [reflexivity | discriminate]. }
    unfold isCodeShaped.
    destruct r as [|d r]; cbn [takeWord String.length allString].
    + destruct (isAlpha a), (isAlpha b), (isAlpha c);
        split; (reflexivity || discriminate).
    + destruct (isWordChar d); cbn [String.length allString];
        destruct (isAlpha a), (isAlpha b), (isAlpha c);
        split; (reflexivity || discriminate).
Qed.

(** The runs found are the words made of three letters. *)
Lemma runsFrom_words (s : string) :
  (forall prev, notWord prev ->
     runsFrom prev s = List.filter isCodeShaped (wordsFrom "" s))
  /\ (forall p c cur, isWordChar p = true ->
        List.filter isCodeShaped (wordsFrom (String c cur) s)
        = ((if isCodeShaped (String c cur ++ takeWord s)%string
            then [(String c cur ++ takeWord s)%string] else [])
           ++ runsFrom (Some p) s)%list).
Proof.
  induction s as [|a r [IHa IHb]]; split.
  - reflexivity.
  - intros p c cur _. cbn [wordsFrom takeWord runsFrom List.filter].
    rewrite append_empty_r.
    destruct (isCodeShaped (String c cur)); reflexivity.
  - intros prev Hprev. cbn [runsFrom wordsFrom].
    destruct (matchHere_word prev (String a r) Hprev) as [Hm Ht].
    destruct (isWordChar a) eqn:Ha.
    + cbn [String.append]. rewrite (IHb a a "" Ha).
      cbn [takeWord] in Hm, Ht. rewrite Ha in Hm, Ht.
      cbn [String.append]. rewrite <- Hm.
      destruct (matchHere prev (String a r)); [|reflexivity].
      now rewrite Ht.
    + cbn [takeWord] in Hm. rewrite Ha in Hm. rewrite Hm.
      cbn [isCodeShaped String.length Nat.eqb andb].
      apply IHa. exact Ha.
  - intros p c cur Hp. cbn [runsFrom wordsFrom takeWord].
    rewrite (matchHere_after_word p) by assumption.
    destruct (isWordChar a) eqn:Ha.
    + cbn [String.append]. rewrite (IHb a c (cur ++ String a "") Ha).
      cbn [String.append]. now rewrite append_snoc.
    + cbn [List.filter]. rewrite append_empty_r.
      rewrite <- (IHa (Some a) Ha).
      destruct (isCodeShaped (String c cur)); reflexivity.
Qed.

Lemma codeRuns_words (text : string) :
  codeRuns text = List.filter isCodeShaped (words text).
Proof. apply runsFrom_words. exact I. Qed.

(** The set built by successive insertions is the list of first
    occurrences. *)
Lemma fold_setAdd_keepFirst (l acc : list string) :
  fold_left setAdd l acc = (acc ++ keepFirst acc l)%list.
Proof.
  revert acc; induction l as [|x r IH]; intros acc; cbn [fold_left keepFirst].
  - now rewrite app_nil_r.
  - unfold setAdd at 2. destruct (decide (x ∈ acc)) as [Hin|Hnin].
    + apply IH.
    + rewrite IH, <- app_assoc. cbn [app]. f_equal. f_equal.
      clear IH. revert acc Hnin.
      assert (G : forall s1 s2 : list string,
                 (forall y, y ∈ s1 <-> y ∈ s2) ->
                 keepFirst s1 r = keepFirst s2 r).
      { induction r as [|y r IHr]; intros s1 s2 Heq; cbn [keepFirst];
          [reflexivity|].
        destruct (decide (y ∈ s1)) as [H1|H1], (decide (y ∈ s2)) as [H2|H2].
        - now apply IHr.
        - now apply Heq in H1.
        - now apply Heq in H2.
        - f_equal. apply IHr. intros z. rewrite !elem_of_cons, Heq. tauto. }
      intros acc _. apply G. intros y.
      rewrite elem_of_app, !elem_of_cons, elem_of_nil. tauto.
Qed.

Lemma newSet_keepFirst (l : list string) : newSet l = keepFirst [] l.
Proof. unfold newSet. now rewrite fold_setAdd_keepFirst. Qed.

Lemma keepFirst_elem (l seen : list string) (x : string) :
  x ∈ keepFirst seen l <-> x ∈ l /\ x ∉ seen.
Proof.
  revert seen; induction l as [|y r IH]; intros seen; cbn [keepFirst].
  - rewrite elem_of_nil. tauto.
  - destruct (decide (y ∈ seen)) as [Hin|Hnin].
    + rewrite IH, elem_of_cons. split; [tauto|].
      intros [[->|Hr] Hs]; tauto.
    + rewrite !elem_of_cons, IH, elem_of_cons. split.
      * intros [->|[Hr Hs]]; tauto.
      * intros [[->|Hr] Hs]; [tauto|].
        destruct (decide (x = y)); tauto.
Qed.

Lemma keepFirst_NoDup (l seen : list string) : NoDup (keepFirst seen l).
Proof.
  revert seen; induction l as [|y r IH]; intros seen; cbn [keepFirst].
  - constructor.
  - destruct (decide (y ∈ seen)); [apply IH|].
    constructor; [|apply IH].
    rewrite keepFirst_elem, elem_of_cons. tauto.
Qed.

Lemma keepFirst_Forall (P : string -> Prop) (l seen : list string) :
  Forall P l -> Forall P (keepFirst seen l).
Proof.
  intros H. revert seen. induction H as [|y r Hy _ IH]; intros seen;
    cbn [keepFirst]; [constructor|].
  destruct (decide (y ∈ seen)); [apply IH | constructor; [exact Hy | apply IH]].
Qed.

Lemma filter_all {A} (p : A -> bool) (l : list A) :
  Forall (fun x => p x = true) l -> List.filter p l = l.
Proof.
  induction 1 as [|x r Hx _ IH]; cbn [List.filter]; [reflexivity|].
  now rewrite Hx, IH.
Qed.

Lemma upperRuns_codes (text : string) :
  Forall (fun t => isUpperCode t = true)
         (keepFirst [] (map toUpperCase (codeRuns text))).
Proof.
  apply keepFirst_Forall, Forall_map.
  eapply Forall_impl; [apply runsFrom_codeShaped|].
  intros w. apply upper_of_codeShaped.
Qed.

Lemma extractIataCodesFromText_runs (text : string) :
  extractIataCodesFromText (Some text)
  = keepFirst [] (map toUpperCase (codeRuns text)).
Proof.
  unfold extractIataCodesFromText. destruct text as [|c r]; [reflexivity|].
  rewrite matchAll_codeRuns.
  destruct (codeRuns (String c r)) as [|w ws] eqn:Hruns; [reflexivity|].
  rewrite newSet_keepFirst, <- Hruns. apply filter_all, upperRuns_codes.
Qed.

(** C4, as stated, fails on its own example: the three-letter words "Fly",
    "the" and "hub" are matched as well. *)
Lemma extractIataCodesFromText_example_differs :
  extractIataCodesFromText
    (Some "Fly from NYC to the CDG hub, LAX also possible")
  <> ["NYC"; "CDG"; "LAX"].
Proof. vm_compute. discriminate. Qed.

(** C4 (amended): the code-token extractor returns the words of the text
    (its maximal runs of word characters, that is what stands between two
    word boundaries) that are made of three letters, whatever their case,
    in text order, uppercased and without repetitions (first occurrence
    kept); all of them are three uppercase letters, so that the final filter
    removes nothing.  On "Fly from NYC to the CDG hub, LAX also possible" the
    result is FLY, NYC, THE, CDG, HUB, LAX. *)
Theorem extractIataCodesFromText_spec :
  (forall text : string,
      extractIataCodesFromText (Some text)
      = keepFirst [] (map toUpperCase (List.filter isCodeShaped (words text)))
      /\ Forall (fun t => isUpperCode t = true)
                (extractIataCodesFromText (Some text))
      /\ NoDup (extractIataCodesFromText (Some text)))
  /\ extractIataCodesFromText
       (Some "Fly from NYC to the CDG hub, LAX also possible")
     = ["FLY"; "NYC"; "THE"; "CDG"; "HUB"; "LAX"].
Proof.
  split; [|vm_compute; reflexivity].
  intros text. rewrite extractIataCodesFromText_runs.
  split; [now rewrite codeRuns_words|].
  split; [apply upperRuns_codes | apply keepFirst_NoDup].
Qed.

(** ** Airport resolver *)

Lemma isSpace_lowerChar (c : ascii) : isSpace (lowerChar c) = isSpace c.
Proof. destruct c as [[] [] [] [] [] [] [] []]; reflexivity. Qed.

Section TrimMap.

Variable f : ascii -> ascii.
Hypothesis f_space : forall c, isSpace (f c) = isSpace c.

Lemma trimStart_mapString (s : string) :
  trimStart (mapString f s) = mapString f (trimStart s).
Proof.
  induction s as [|c r IH]; cbn [trimStart mapString]; [reflexivity|].
  rewrite f_space. destruct (isSpace c); [exact IH | reflexivity].
Qed.

Lemma trimEnd_mapString (s : string) :
  trimEnd (mapString f s) = mapString f (trimEnd s).
Proof.
  induction s as [|c r IH]; cbn [trimEnd mapString]; [reflexivity|].
  rewrite IH, f_space.
  destruct (trimEnd r); cbn [mapString]; [|reflexivity].
  destruct (isSpace c); reflexivity.
Qed.

Lemma trim_mapString (s : string) : trim (mapString f s) = mapString f (trim s).
Proof. unfold trim. now rewrite trimStart_mapString, trimEnd_mapString. Qed.

End TrimMap.

Lemma trimEnd_idem (s : string) : trimEnd (trimEnd s) = trimEnd s.
Proof.
  induction s as [|c r IH]; cbn [trimEnd]; [reflexivity|].
  destruct (trimEnd r) as [|d t] eqn:Hr.
  - destruct (isSpace c) eqn:Hc; cbn [trimEnd]; [reflexivity | now rewrite Hc].
  - cbn [trimEnd] in IH |- *. now rewrite IH.
Qed.

Lemma trimStart_trimEnd (s : string) :
  trimStart s = s -> trimStart (trimEnd s) = trimEnd s.
Proof.
  destruct s as [|c r]; [reflexivity|]. cbn [trimStart trimEnd].
  destruct (isSpace c) eqn:Hc.
  - intros H. exfalso.
    assert (L : forall t, (String.length (trimStart t) <= String.length t)%nat).
    { induction t as [|d t IHt]; cbn [trimStart]; [lia|].
      destruct (isSpace d); simpl; simpl in IHt; lia. }
    specialize (L r). rewrite H in L. simpl in L. lia.
  - intros _. destruct (trimEnd r); cbn [trimStart]; now rewrite Hc.
Qed.

Lemma trimStart_idem (s : string) : trimStart (trimStart s) = trimStart s.
Proof.
  induction s as [|c r IH]; cbn [trimStart]; [reflexivity|].
  destruct (isSpace c) eqn:Hc; [exact IH | cbn [trimStart]; now rewrite Hc].
Qed.

Lemma trim_idem (s : string) : trim (trim s) = trim s.
Proof.
  unfold trim.
  rewrite (trimStart_trimEnd (trimStart s)) by apply trimStart_idem.
  apply trimEnd_idem.
Qed.

(** The key looked up in the table is the trimmed input in lower case. *)
Lemma lookupKey_eq (input : string) :
  trim (toLowerCase (trim input)) = toLowerCase (trim input).
Proof.
  unfold toLowerCase. rewrite trim_mapString by apply isSpace_lowerChar.
  now rewrite trim_idem.
Qed.

Lemma table_entries (key : string) (l : list string) :
  COUNTRY_AIRPORTS !! key = Some l -> tableEntryOk l = true.
Proof.
  revert key l. apply (map_Forall_to_list (fun _ l => tableEntryOk l = true)).
  vm_compute. repeat constructor.
Qed.

Lemma airportLookupOf_fails (parse : string -> option jsval) (reply : GeminiReply) :
  replyFails reply = true -> airportLookupOf parse reply = None.
Proof. destruct reply; try reflexivity. discriminate. Qed.

Lemma sideFallback_nonempty (input : string) (c : string) (cs : list string) :
  sideFallback input (c :: cs) = c :: cs.
Proof. reflexivity. Qed.

Lemma sideFallback_empty (input : string) :
  sideFallback input []
  = if isCodeShaped (trim input) then [toUpperCase (trim input)]
    else match COUNTRY_AIRPORTS !! toLowerCase (trim input) with
         | Some table => table
         | None => []
         end.
Proof. unfold sideFallback. cbn [length Nat.eqb]. now rewrite lookupKey_eq. Qed.

Lemma finalFallback_fst_nonempty (s : string) (ss dst : list string) :
  (finalFallback (s :: ss, dst)).1 = s :: ss.
Proof. reflexivity. Qed.

Lemma finalFallback_snd_nonempty (src : list string) (d : string) (ds : list string) :
  (finalFallback (src, d :: ds)).2 = d :: ds.
Proof. now destruct src. Qed.

Lemma finalFallback_both (src dst : list string) :
  src <> [] \/ dst <> [] ->
  (finalFallback (src, dst)).1 <> [] /\ (finalFallback (src, dst)).2 <> [].
Proof.
  destruct src as [|s ss], dst as [|d ds]; cbn; intros [H|H];
    try congruence; split; discriminate.
Qed.

Lemma resolveAirports_unfold (lookup : option jsval) (source destination : string) :
  resolveAirports lookup source destination
  = finalFallback (sideFallback source (lookupTier lookup).1,
                   sideFallback destination (lookupTier lookup).2).
Proof. unfold resolveAirports. now destruct (lookupTier lookup). Qed.

Lemma table_entry_nonempty (key : string) (l : list string) :
  COUNTRY_AIRPORTS !! key = Some l -> exists c cs, l = c :: cs.
Proof.
  intros H. apply table_entries in H. destruct l as [|c cs]; [discriminate|].
  now exists c, cs.
Qed.

(** C7: a side left empty by the model-based tiers takes its own input,
    trimmed and uppercased, as its only code when that input is three
    letters; otherwise, when the trimmed input in lower case is a key of the
    table, it takes that key's codes.  With a failing upstream call,
    "Germany" and "France" resolve to the table's codes of the two
    countries. *)
Theorem static_fallback_spec :
  (forall (lookup : option jsval) (source destination : string),
      (lookupTier lookup).1 = [] ->
      (isCodeShaped (trim source) = true ->
       (resolveAirports lookup source destination).1
       = [toUpperCase (trim source)])
      /\ (isCodeShaped (trim source) = false ->
          forall table,
            COUNTRY_AIRPORTS !! toLowerCase (trim source) = Some table ->
            (resolveAirports lookup source destination).1 = table))
  /\ (forall (lookup : option jsval) (source destination : string),
         (lookupTier lookup).2 = [] ->
         (isCodeShaped (trim destination) = true ->
          (resolveAirports lookup source destination).2
          = [toUpperCase (trim destination)])
         /\ (isCodeShaped (trim destination) = false ->
             forall table,
               COUNTRY_AIRPORTS !! toLowerCase (trim destination) = Some table ->
               (resolveAirports lookup source destination).2 = table))
  /\ (forall (parse : string -> option jsval) (reply : GeminiReply),
         replyFails reply = true ->
         resolveAirports (airportLookupOf parse reply) "Germany" "France"
         = (["FRA"; "MUC"; "BER"; "DUS"; "HAM"],
            ["CDG"; "ORY"; "NCE"; "LYS"; "MRS"])).
Proof.
  split; [|split].
  - intros lookup source destination Hs. rewrite resolveAirports_unfold, Hs.
    rewrite sideFallback_empty. split.
    + intros ->. apply finalFallback_fst_nonempty.
    + intros -> table H. rewrite H.
      destruct (table_entry_nonempty _ _ H) as (c & cs & ->).
      apply finalFallback_fst_nonempty.
  - intros lookup source destination Hd. rewrite resolveAirports_unfold, Hd.
    rewrite (sideFallback_empty destination). split.
    + intros ->. apply finalFallback_snd_nonempty.
    + intros -> table H. rewrite H.
      destruct (table_entry_nonempty _ _ H) as (c & cs & ->).
      apply finalFallback_snd_nonempty.
  - intros parse reply Hfail. rewrite airportLookupOf_fails by assumption.
    vm_compute. reflexivity.
Qed.

Lemma static_fallback_spec_witness :
  (resolveAirports None " jfk " "France").1 = ["JFK"]
  /\ (resolveAirports None "Germany" " France").2
     = ["CDG"; "ORY"; "NCE"; "LYS"; "MRS"]
  /\ resolveAirports (airportLookupOf (fun _ => None) (GeminiStatus 503))
       "Germany" "France"
     = (["FRA"; "MUC"; "BER"; "DUS"; "HAM"],
        ["CDG"; "ORY"; "NCE"; "LYS"; "MRS"]).
Proof.
  destruct static_fallback_spec as (Hsrc & Hdst & Hex).
  split; [|split].
  - apply (proj1 (Hsrc None " jfk " "France" eq_refl)). reflexivity.
  - apply (proj2 (Hdst None "Germany" " France" eq_refl)).
    + reflexivity.
    + vm_compute. reflexivity.
  - apply Hex. reflexivity.
Defined.

(** C3: in the final tier an empty source list becomes the list of the first
    destination code when there is one, and an empty destination list the
    list of the first source code; so both sides are non-empty as soon as
    one side was resolved by an earlier tier.  With a failing upstream call,
    "XYZ" and the empty destination resolve to XYZ on both sides. *)
Theorem finalFallback_spec :
  (forall (d : string) (ds : list string),
      finalFallback ([], d :: ds) = ([d], d :: ds))
  /\ (forall (s : string) (ss : list string),
         finalFallback (s :: ss, []) = (s :: ss, [s]))
  /\ (forall (lookup : option jsval) (source destination : string),
         sideFallback source (lookupTier lookup).1 <> []
         \/ sideFallback destination (lookupTier lookup).2 <> [] ->
         (resolveAirports lookup source destination).1 <> []
         /\ (resolveAirports lookup source destination).2 <> [])
  /\ (forall (parse : string -> option jsval) (reply : GeminiReply),
         replyFails reply = true ->
         resolveAirports (airportLookupOf parse reply) "XYZ" ""
         = (["XYZ"], ["XYZ"])).
Proof.
  split; [|split; [|split]].
  - reflexivity.
  - reflexivity.
  - intros lookup source destination H. rewrite resolveAirports_unfold.
    now apply finalFallback_both.
  - intros parse reply Hfail. rewrite airportLookupOf_fails by assumption.
    vm_compute. reflexivity.
Qed.

Lemma finalFallback_spec_witness :
  ((resolveAirports None "Atlantis" "mexico").1 <> []
   /\ (resolveAirports None "Atlantis" "mexico").2 <> [])
  /\ resolveAirports (airportLookupOf (fun _ => None) (GeminiNetworkError "down"))
       "XYZ" ""
     = (["XYZ"], ["XYZ"]).
Proof.
  destruct finalFallback_spec as (_ & _ & Hboth & Hex). split.
  - apply Hboth. right. vm_compute. discriminate.
  - apply Hex. reflexivity.
Defined.

Lemma sideFallback_codes (input : string) (codes : list string) :
  Forall (fun c => isUpperCode c = true) codes ->
  Forall (fun c => isUpperCode c = true) (sideFallback input codes).
Proof.
  intros H. destruct codes as [|c cs]; [|exact H].
  rewrite sideFallback_empty.
  destruct (isCodeShaped (trim input)) eqn:Hshape.
  - constructor; [now apply upper_of_codeShaped | constructor].
  - destruct (COUNTRY_AIRPORTS !! toLowerCase (trim input)) as [table|] eqn:Hk;
      [|constructor].
    apply table_entries in Hk. unfold tableEntryOk in Hk.
    apply andb_true_iff in Hk as [_ Hk].
    apply Forall_forall. intros x Hx.
    rewrite forallb_forall in Hk. apply Hk. now apply list_elem_of_In.
Qed.

Lemma finalFallback_codes (P : string -> Prop) (src dst : list string) :
  Forall P src -> Forall P dst ->
  Forall P (finalFallback (src, dst)).1 /\ Forall P (finalFallback (src, dst)).2.
Proof.
  intros Hs Hd. destruct src as [|s ss], dst as [|d ds]; cbn; split;
    try assumption; try constructor;
    solve [ now inversion Hs | now inversion Hd | constructor ].
Qed.

Lemma sideFallback_resolved (input : string) (codes : list string) :
  sideFallback input codes <> [] <-> codes <> [] \/ sideResolvable input = true.
Proof.
  destruct codes as [|c cs].
  - rewrite sideFallback_empty. unfold sideResolvable.
    destruct (isCodeShaped (trim input)); cbn [orb].
    + split; [now right | discriminate].
    + destruct (COUNTRY_AIRPORTS !! toLowerCase (trim input)) as [table|] eqn:Hk.
      * destruct (table_entry_nonempty _ _ Hk) as (c & cs & ->).
        split; [intros _; right | discriminate].
        apply bool_decide_eq_true. eauto.
      * split; [congruence|]. intros [H|H]; [congruence|].
        apply bool_decide_eq_true in H. destruct H as [x Hx]. discriminate Hx.
  - cbn. split; [now left | discriminate].
Qed.

(** C2, as stated, fails: two inputs that are neither codes nor table keys
    leave both sides empty when the lookup gives nothing, and what the
    lookup gives is only uppercased, not checked to be a code. *)
Lemma resolveAirports_invariant_fails :
  resolveAirports None "Atlantis" "Narnia" = ([], [])
  /\ resolveAirports
       (Some (JObj [("source_airports", JArr [JStr "new york"]);
                    ("destination_airports", JArr [JStr "cdg"])]))
       "New York" "Paris"
     = (["NEW YORK"], ["CDG"])
  /\ isUpperCode "NEW YORK" = false.
Proof. vm_compute. auto. Qed.

(** C2 (amended): for inputs that name no inherited property of the table,
    whenever the lists taken from the lookup hold only codes of three
    uppercase letters -- as when the upstream call fails and they are
    empty -- every element of both resolved lists is a code of three
    uppercase letters; and both lists are non-empty as soon as the lookup
    gave a code for one side, or one of the two inputs is code-shaped or a
    key of the table; when nothing of this holds both lists are empty. *)
Theorem resolveAirports_invariant
    (lookup : option jsval) (source destination : string) :
  plainInput source = true -> plainInput destination = true ->
  Forall (fun c => isUpperCode c = true) (lookupTier lookup).1 ->
  Forall (fun c => isUpperCode c = true) (lookupTier lookup).2 ->
  Forall (fun c => isUpperCode c = true)
         (resolveAirports lookup source destination).1
  /\ Forall (fun c => isUpperCode c = true)
            (resolveAirports lookup source destination).2
  /\ ((lookupTier lookup).1 <> [] \/ (lookupTier lookup).2 <> []
      \/ sideResolvable source = true \/ sideResolvable destination = true ->
      (resolveAirports lookup source destination).1 <> []
      /\ (resolveAirports lookup source destination).2 <> [])
  /\ ((lookupTier lookup).1 = [] -> (lookupTier lookup).2 = [] ->
      sideResolvable source = false -> sideResolvable destination = false ->
      resolveAirports lookup source destination = ([], [])).
Proof.
  intros _ _ Hs Hd. rewrite resolveAirports_unfold.
  split; [|split; [|split]].
  - apply finalFallback_codes; now apply sideFallback_codes.
  - apply finalFallback_codes; now apply sideFallback_codes.
  - intros H. apply finalFallback_both.
    rewrite !sideFallback_resolved. tauto.
  - intros Hs0 Hd0 Hrs Hrd.
    assert (Es : sideFallback source (lookupTier lookup).1 = []).
    { destruct (sideFallback source (lookupTier lookup).1) eqn:E; [reflexivity|].
      assert (N : sideFallback source (lookupTier lookup).1 <> [])
        by (rewrite E; discriminate).
      apply sideFallback_resolved in N. destruct N; congruence. }
    assert (Ed : sideFallback destination (lookupTier lookup).2 = []).
    { destruct (sideFallback destination (lookupTier lookup).2) eqn:E;
        [reflexivity|].
      assert (N : sideFallback destination (lookupTier lookup).2 <> [])
        by (rewrite E; discriminate).
      apply sideFallback_resolved in N. destruct N; congruence. }
    now rewrite Es, Ed.
Qed.

(** A lookup that gives two arrays of code-shaped strings satisfies the
    assumption on the lookup. *)
Lemma lookupTier_arrays (l1 l2 : list string) :
  lookupTier (Some (JObj [("source_airports", JArr (map JStr l1));
                          ("destination_airports", JArr (map JStr l2))]))
  = (map toUpperCase l1, map toUpperCase l2).
Proof.
  unfold lookupTier. cbn [truthy getProp assocGet String.eqb Ascii.eqb
    Bool.eqb truthyOpt andb orb arrayifyCodes negb].
  now rewrite !map_map.
Qed.

Lemma resolveAirports_invariant_witness :
  (Forall (fun c => isUpperCode c = true)
          (resolveAirports None "Germany" "Narnia").1
   /\ (resolveAirports None "Germany" "Narnia").2 <> [])
  /\ (Forall (fun c => isUpperCode c = true)
        (resolveAirports
           (Some (JObj [("source_airports", JArr (map JStr ["jfk"; "Lga"]));
                        ("destination_airports", JArr (map JStr []))]))
           "New York" "Narnia").2)
  /\ resolveAirports None "" "" = ([], []).
Proof.
  split; [|split].
  - destruct (resolveAirports_invariant None "Germany" "Narnia")
      as (H1 & _ & H3 & _).
    + reflexivity.
    + reflexivity.
    + constructor.
    + constructor.
    + split; [exact H1|]. apply H3. right. right. left.
      vm_compute. reflexivity.
  - destruct (resolveAirports_invariant
                (Some (JObj [("source_airports", JArr (map JStr ["jfk"; "Lga"]));
                             ("destination_airports", JArr (map JStr []))]))
                "New York" "Narnia") as (_ & H2 & _).
    + reflexivity.
    + reflexivity.
    + rewrite lookupTier_arrays. cbn [fst map].
      repeat constructor.
    + rewrite lookupTier_arrays. cbn [snd map]. constructor.
    + exact H2.
  - destruct (resolveAirports_invariant None "" "") as (_ & _ & _ & H4).
    + reflexivity.
    + reflexivity.
    + constructor.
    + constructor.
    + apply H4; reflexivity.
Defined.

(** ** Sorting by a key *)

Section SortByKey.

Context {A : Type} (key : A -> Z).

Let cmp (a b : A) : Z := key a - key b.
Let leKey (a b : A) : Prop := key a <= key b.
Let hasKey (k : Z) (a : A) : bool := key a =? k.

Lemma insertBy_perm (x : A) (l : list A) :
  Permutation (x :: l) (insertBy cmp x l).
Proof.
  induction l as [|y r IH]; cbn [insertBy]; [reflexivity|].
  destruct (cmp x y <=? 0); [reflexivity|].
  rewrite perm_swap. now apply perm_skip.
Qed.

Lemma sortBy_perm (l : list A) : Permutation l (sortBy cmp l).
Proof.
  induction l as [|x r IH]; cbn [sortBy]; [reflexivity|].
  rewrite <- insertBy_perm. now apply perm_skip.
Qed.

Lemma insertBy_sorted (x : A) (l : list A) :
  StronglySorted leKey l -> StronglySorted leKey (insertBy cmp x l).
Proof.
  induction 1 as [|y r Hr IH Hy]; cbn [insertBy].
  - constructor; constructor.
  - destruct (cmp x y <=? 0) eqn:Hc.
    + apply Z.leb_le in Hc. unfold cmp in Hc.
      constructor; [now constructor|].
      constructor; [unfold leKey; lia|].
      eapply Forall_impl; [exact Hy|]. unfold leKey. intros; lia.
    + apply Z.leb_gt in Hc. unfold cmp in Hc.
      constructor; [exact IH|].
      eapply Permutation_Forall; [apply insertBy_perm|].
      constructor; [unfold leKey; lia | exact Hy].
Qed.

Lemma sortBy_sorted (l : list A) : StronglySorted leKey (sortBy cmp l).
Proof.
  induction l as [|x r IH]; cbn [sortBy]; [constructor|].
  now apply insertBy_sorted.
Qed.

Lemma insertBy_filter (k : Z) (x : A) (l : list A) :
  List.filter (hasKey k) (insertBy cmp x l) = List.filter (hasKey k) (x :: l).
Proof.
  induction l as [|y r IH]; cbn [insertBy]; [reflexivity|].
  destruct (cmp x y <=? 0) eqn:Hc; [reflexivity|].
  apply Z.leb_gt in Hc. unfold cmp in Hc.
  cbn [List.filter] in IH |- *. rewrite IH. unfold hasKey.
  destruct (key x =? k) eqn:Hx, (key y =? k) eqn:Hy; try reflexivity.
  apply Z.eqb_eq in Hx, Hy. lia.
Qed.

(** The sort is stable: the elements of one key keep their order. *)
Lemma sortBy_stable (k : Z) (l : list A) :
  List.filter (hasKey k) (sortBy cmp l) = List.filter (hasKey k) l.
Proof.
  induction l as [|x r IH]; cbn [sortBy]; [reflexivity|].
  rewrite insertBy_filter. cbn [List.filter]. now rewrite IH.
Qed.

Lemma filter_hasKey_In (k : Z) (x : A) (r l : list A) :
  List.filter (hasKey k) l = x :: r -> In x l /\ key x = k.
Proof.
  intros H. assert (Hin : In x (List.filter (hasKey k) l)) by (rewrite H; now left).
  apply filter_In in Hin as [Hin Hk]. split; [exact Hin|].
  now apply Z.eqb_eq in Hk.
Qed.

(** Two sorted lists with the same elements of each key, in the same order,
    are equal: the result of a stable sort is determined. *)
Lemma sorted_stable_unique (l1 l2 : list A) :
  StronglySorted leKey l1 -> StronglySorted leKey l2 ->
  (forall k, List.filter (hasKey k) l1 = List.filter (hasKey k) l2) ->
  l1 = l2.
Proof.
  intros H1. revert l2. induction H1 as [|x r1 Hr1 IH Hx]; intros l2 H2 Hf.
  - destruct l2 as [|y r2]; [reflexivity|].
    specialize (Hf (key y)). cbn [List.filter] in Hf.
    unfold hasKey in Hf. rewrite Z.eqb_refl in Hf. discriminate Hf.
  - destruct H2 as [|y r2 Hr2 Hy].
    + specialize (Hf (key x)). cbn [List.filter] in Hf.
      unfold hasKey in Hf. rewrite Z.eqb_refl in Hf. discriminate Hf.
    + assert (Exy : x = y).
      { pose proof (Hf (key x)) as Fx. pose proof (Hf (key y)) as Fy.
        cbn [List.filter] in Fx, Fy. unfold hasKey in Fx, Fy.
        rewrite Z.eqb_refl in Fx, Fy.
        destruct (key y =? key x) eqn:E.
        - congruence.
        - apply Z.eqb_neq in E.
          destruct (key x =? key y) eqn:E'; [apply Z.eqb_eq in E'; lia|].
          symmetry in Fx. apply filter_hasKey_In in Fx as [Hin _].
          apply filter_hasKey_In in Fy as [Hin' _].
          rewrite List.Forall_forall in Hx, Hy.
          apply Hy in Hin. apply Hx in Hin'. unfold leKey in Hin, Hin'. lia. }
      subst y. f_equal. apply IH; [exact Hr2|].
      intros k. specialize (Hf k). cbn [List.filter] in Hf.
      destruct (hasKey k x); congruence.
Qed.

(** Whatever stable sorting algorithm is used, its result is that of
    [sortBy]. *)
Lemma sortBy_unique (l out : list A) :
  StronglySorted leKey out ->
  (forall k, List.filter (hasKey k) out = List.filter (hasKey k) l) ->
  out = sortBy cmp l.
Proof.
  intros Hs Hf. apply sorted_stable_unique; [exact Hs | apply sortBy_sorted|].
  intros k. now rewrite Hf, sortBy_stable.
Qed.

Lemma StronglySorted_suffix (l1 l2 : list A) :
  StronglySorted leKey (l1 ++ l2)%list -> StronglySorted leKey l2.
Proof.
  induction l1 as [|x r IH]; cbn [app]; [trivial|].
  intros H. apply StronglySorted_inv in H as [H _]. now apply IH.
Qed.

(** An element of smaller key never comes after one of larger key. *)
Lemma sortBy_before (l l1 l2 : list A) (a b : A) :
  sortBy cmp l = (l1 ++ a :: l2)%list -> key b < key a -> ~ In b l2.
Proof.
  intros E Hlt Hin. pose proof (sortBy_sorted l) as Hs. rewrite E in Hs.
  apply StronglySorted_suffix in Hs.
  apply StronglySorted_inv in Hs as [_ Ha].
  rewrite List.Forall_forall in Ha. apply Ha in Hin. unfold leKey in Hin. lia.
Qed.

(** The head of the sorted list has the least key. *)
Lemma sortBy_head_least (l rest : list A) (f x : A) :
  sortBy cmp l = f :: rest -> In x l -> key f <= key x.
Proof.
  intros E Hin. pose proof (sortBy_sorted l) as Hs. rewrite E in Hs.
  apply StronglySorted_inv in Hs as [_ Hf].
  assert (Hx : In x (f :: rest)).
  { rewrite <- E. eapply Permutation_in; [apply sortBy_perm | exact Hin]. }
  destruct Hx as [->|Hx]; [lia|].
  rewrite List.Forall_forall in Hf. now apply Hf.
Qed.

End SortByKey.

(** ** Flight aggregator *)

Lemma flightsFor_fails (d : string) (reply : SerpReply) :
  serpFails reply = true -> flightsFor d reply = [].
Proof. destruct reply; try reflexivity. discriminate. Qed.

Lemma toFlightOption_destination (d : string) (flight : ProviderFlight)
    (f : FlightOption) :
  toFlightOption d flight = Some f -> destination f = d.
Proof.
  unfold toFlightOption.
  destruct (match flights flight with Some legs => mapLegs legs | None => Some [] end);
    [|discriminate].
  intros [= <-]. reflexivity.
Qed.

Lemma mapFlights_destination (d : string) (l : list ProviderFlight) :
  forall out, mapFlights (toFlightOption d) l = Some out ->
              Forall (fun f => destination f = d) out.
Proof.
  induction l as [|x r IH]; cbn [mapFlights]; intros out.
  - intros [= <-]. constructor.
  - destruct (toFlightOption d x) as [y|] eqn:Hx; [|discriminate].
    destruct (mapFlights (toFlightOption d) r) as [ys|]; [|discriminate].
    intros [= <-]. constructor; [|now apply IH].
    now apply toFlightOption_destination in Hx.
Qed.

Lemma flightsFor_destination (d : string) (reply : SerpReply) :
  Forall (fun f => destination f = d) (flightsFor d reply).
Proof.
  unfold flightsFor. destruct reply as [| | |data]; try constructor.
  destruct (best_flights data) as [[|f fs]|]; try constructor.
  destruct (mapFlights (toFlightOption d) (f :: fs)) as [out|] eqn:E;
    [|constructor].
  now apply mapFlights_destination in E.
Qed.

Lemma allFlightResults_eq (serp : SerpRequest -> SerpReply)
    (origin date : string) (dests : list string) :
  allFlightResults serp origin date dests
  = map (fun d => flightsFor d (serp (mkSerpRequest origin d date))) dests.
Proof. unfold allFlightResults, flightRequests. now rewrite map_map. Qed.

Lemma flat_destinations (serp : SerpRequest -> SerpReply)
    (origin date : string) (dests : list string) (f : FlightOption) :
  In f (concat (allFlightResults serp origin date dests)) ->
  In (destination f) dests.
Proof.
  rewrite allFlightResults_eq. induction dests as [|d ds IH]; cbn [map concat].
  - intros [].
  - rewrite in_app_iff. intros [H|H]; [left | right; now apply IH].
    pose proof (flightsFor_destination d (serp (mkSerpRequest origin d date))) as F.
    rewrite List.Forall_forall in F. symmetry. now apply F.
Qed.

Lemma aggregate_perm (serp : SerpRequest -> SerpReply)
    (origin date : string) (dests : list string) :
  Permutation (concat (allFlightResults serp origin date dests))
              (aggregateFlights serp origin date dests).
Proof. apply (sortBy_perm sortKey). Qed.

Lemma aggregate_destinations (serp : SerpRequest -> SerpReply)
    (origin date : string) (dests : list string) (f : FlightOption) :
  In f (aggregateFlights serp origin date dests) -> In (destination f) dests.
Proof.
  intros H. apply (flat_destinations serp origin date).
  eapply Permutation_in; [symmetry; apply aggregate_perm | exact H].
Qed.

Lemma sortKey_absent (f : FlightOption) :
  price f = None \/ price f = Some 0 -> sortKey f = MAX_SAFE_INTEGER.
Proof. unfold sortKey. now intros [->| ->]. Qed.

Lemma sortKey_present (f : FlightOption) (p : Z) :
  price f = Some p -> p <> 0 -> sortKey f = p.
Proof.
  unfold sortKey. intros -> Hp. apply Z.eqb_neq in Hp. now rewrite Hp.
Qed.

Lemma selectAirportCode_head (f : FlightOption) (rest : list FlightOption)
    (dests : list string) :
  destination f <> "" ->
  selectAirportCode (f :: rest) dests = Some (destination f).
Proof.
  intros H. cbn [selectAirportCode].
  destruct (String.eqb_spec (destination f) ""); [contradiction | reflexivity].
Qed.

(** C5, as stated, fails: an offer whose price is zero gets the key of a
    missing price, so the result is not ascending by price. *)
Lemma aggregateFlights_zero_price :
  let serp := fun _ : SerpRequest =>
    SerpOk (mkSerpData (Some [offerPriced 0; offerPriced 5])) in
  let out := aggregateFlights serp "JFK" "2025-06-01" ["CDG"] in
  map price out = [Some 5; Some 0]
  /\ ~ StronglySorted (fun a b => priceKey a <= priceKey b) out.
Proof.
  cbn zeta. split; [vm_compute; reflexivity|].
  intros H. vm_compute in H.
  apply StronglySorted_inv in H as [_ H].
  apply Forall_inv in H. vm_compute in H. now apply H.
Qed.

(** C5 (amended): the flight data are the per-destination results, in
    request order, sorted by a stable sort on the sort key, which is the
    price when it is present and not zero, and the largest safe integer
    2^53 - 1 otherwise: nothing is removed, keys ascend, offers of equal
    key keep their order, and an offer without price comes after every
    offer with a non-zero price below 2^53 - 1.  Without flight data the
    selected airport code is null; otherwise, the destination codes being
    non-empty strings, it is the destination code of the first entry. *)
Theorem aggregateFlights_spec (serp : SerpRequest -> SerpReply)
    (origin date : string) (dests : list string) :
  let flat := concat (allFlightResults serp origin date dests) in
  let out := aggregateFlights serp origin date dests in
  Permutation flat out
  /\ StronglySorted (fun a b => sortKey a <= sortKey b) out
  /\ (forall k, List.filter (fun f => sortKey f =? k) out
                = List.filter (fun f => sortKey f =? k) flat)
  /\ (forall f, price f = None \/ price f = Some 0 ->
                 sortKey f = MAX_SAFE_INTEGER)
  /\ (forall f p, price f = Some p -> p <> 0 -> sortKey f = p)
  /\ (forall l1 a l2 b p,
         out = (l1 ++ a :: l2)%list -> price a = None ->
         price b = Some p -> p <> 0 -> p < MAX_SAFE_INTEGER -> ~ In b l2)
  /\ (out = [] -> selectAirportCode out dests = None)
  /\ (forall f rest,
         Forall (fun d => d <> "") dests -> out = f :: rest ->
         selectAirportCode out dests = Some (destination f)).
Proof.
  cbn zeta. repeat split.
  - apply aggregate_perm.
  - apply (sortBy_sorted sortKey).
  - intros k. apply (sortBy_stable sortKey).
  - apply sortKey_absent.
  - intros f p. apply sortKey_present.
  - intros l1 a l2 b p E Ha Hb Hp Hlt.
    apply (sortBy_before sortKey _ _ _ _ _ E).
    rewrite (sortKey_present b p), (sortKey_absent a); auto.
  - now intros ->.
  - intros f rest Hd E. rewrite E. apply selectAirportCode_head.
    assert (Hin : In (destination f) dests).
    { apply (aggregate_destinations serp origin date). rewrite E. now left. }
    rewrite List.Forall_forall in Hd. now apply Hd.
Qed.

Lemma aggregateFlights_spec_witness :
  let serp := fun _ : SerpRequest =>
    SerpOk (mkSerpData (Some [offerUnpriced; offerPriced 5])) in
  let out := aggregateFlights serp "JFK" "2025-06-01" ["CDG"] in
  ~ In (pricedOption "CDG" 5) []
  /\ selectAirportCode out ["CDG"] = Some (destination (pricedOption "CDG" 5)).
Proof.
  cbn zeta.
  pose proof (aggregateFlights_spec
                (fun _ => SerpOk (mkSerpData (Some [offerUnpriced; offerPriced 5])))
                "JFK" "2025-06-01" ["CDG"]) as H.
  cbn zeta in H. destruct H as (_ & _ & _ & _ & _ & Hlast & _ & Hsel). split.
  - apply (Hlast [pricedOption "CDG" 5] (unpricedOption "CDG") [] _ 5);
      [reflexivity | reflexivity | reflexivity | lia | reflexivity].
  - apply (Hsel (pricedOption "CDG" 5) [unpricedOption "CDG"]).
    + repeat constructor. discriminate.
    + reflexivity.
Defined.

(** C9, as stated, fails: an offer priced at the largest safe integer has
    the key of the zero-priced offer, which keeps its place before it and
    is the selected one; next to a still higher price it even sorts
    first. *)
Lemma zero_price_selected :
  let serpTie := fun r : SerpRequest =>
    if String.eqb (arrival_id r) "AAA"
    then SerpOk (mkSerpData (Some [offerPriced 0]))
    else SerpOk (mkSerpData (Some [offerPriced 9007199254740991])) in
  let serpAbove := fun r : SerpRequest =>
    if String.eqb (arrival_id r) "AAA"
    then SerpOk (mkSerpData (Some [offerPriced 0]))
    else SerpOk (mkSerpData (Some [offerPriced 9007199254740992])) in
  (aggregateFlights serpTie "JFK" "2025-06-01" ["AAA"; "BBB"]
   = [pricedOption "AAA" 0; pricedOption "BBB" 9007199254740991]
   /\ selectAirportCode
        (aggregateFlights serpTie "JFK" "2025-06-01" ["AAA"; "BBB"])
        ["AAA"; "BBB"] = Some "AAA")
  /\ (aggregateFlights serpAbove "JFK" "2025-06-01" ["BBB"; "AAA"]
      = [pricedOption "AAA" 0; pricedOption "BBB" 9007199254740992]
      /\ selectAirportCode
           (aggregateFlights serpAbove "JFK" "2025-06-01" ["BBB"; "AAA"])
           ["BBB"; "AAA"] = Some "AAA").
Proof. cbn zeta. repeat split; vm_compute; reflexivity. Qed.

(** C9 (amended): an offer whose price is missing or exactly zero has the
    largest safe integer 2^53 - 1 as its sort key; so a zero-priced offer
    comes after every offer whose price is positive and below 2^53 - 1, and
    is not the first entry, the selected one, when such an offer exists. *)
Theorem zero_price_sorts_last (serp : SerpRequest -> SerpReply)
    (origin date : string) (dests : list string) :
  let out := aggregateFlights serp origin date dests in
  (forall f, price f = None \/ price f = Some 0 ->
             sortKey f = MAX_SAFE_INTEGER)
  /\ (forall l1 z l2 b p,
         out = (l1 ++ z :: l2)%list -> price z = Some 0 ->
         price b = Some p -> 0 < p < MAX_SAFE_INTEGER -> ~ In b l2)
  /\ (forall f rest b p,
         out = f :: rest -> In b out ->
         price b = Some p -> 0 < p < MAX_SAFE_INTEGER ->
         price f <> Some 0 /\ price f <> None).
Proof.
  cbn zeta. split; [|split].
  - apply sortKey_absent.
  - intros l1 z l2 b p E Hz Hb Hp.
    apply (sortBy_before sortKey _ _ _ _ _ E).
    rewrite (sortKey_present b p), (sortKey_absent z); auto; lia.
  - intros f rest b p E Hin Hb Hp.
    assert (Hle : sortKey f <= sortKey b).
    { apply (sortBy_head_least sortKey
               (concat (allFlightResults serp origin date dests)) rest);
        [exact E|].
      eapply Permutation_in; [symmetry; apply aggregate_perm | exact Hin]. }
    rewrite (sortKey_present b p) in Hle by (auto; lia).
    split; intros Hf; rewrite sortKey_absent in Hle by auto; lia.
Qed.

Lemma zero_price_sorts_last_witness :
  let serp := fun _ : SerpRequest =>
    SerpOk (mkSerpData (Some [offerPriced 0; offerPriced 5])) in
  ~ In (pricedOption "CDG" 5) []
  /\ price (pricedOption "CDG" 5) <> Some 0.
Proof.
  cbn zeta.
  pose proof (zero_price_sorts_last
                (fun _ => SerpOk (mkSerpData (Some [offerPriced 0; offerPriced 5])))
                "JFK" "2025-06-01" ["CDG"]) as H.
  cbn zeta in H. destruct H as (_ & Hlast & Hhead). split.
  - apply (Hlast [pricedOption "CDG" 5] (pricedOption "CDG" 0) [] _ 5);
      [reflexivity | reflexivity | reflexivity | unfold MAX_SAFE_INTEGER; lia].
  - apply (Hhead (pricedOption "CDG" 5) [pricedOption "CDG" 0]
                 (pricedOption "CDG" 5) 5);
      [reflexivity | now left | reflexivity | unfold MAX_SAFE_INTEGER; lia].
Defined.

Lemma aggregate_drop_failed (serp : SerpRequest -> SerpReply)
    (origin date : string) (ds1 : list string) (d : string) (ds2 : list string) :
  serpFails (serp (mkSerpRequest origin d date)) = true ->
  aggregateFlights serp origin date (ds1 ++ d :: ds2)
  = aggregateFlights serp origin date (ds1 ++ ds2).
Proof.
  intros H. unfold aggregateFlights. f_equal.
  rewrite !allFlightResults_eq, !map_app, !concat_app. f_equal.
  cbn [map concat]. now rewrite (flightsFor_fails _ _ H).
Qed.

(** C6, as stated, fails on its last point: a destination code can be the
    empty text, as when the lookup names one, and the selected code is then
    the first destination airport, here the one whose search failed, not
    the destination of the offer priced 200. *)
Lemma flight_fault_isolation_empty_code :
  let serp := fun r : SerpRequest =>
    if String.eqb (arrival_id r) "ORY" then SerpStatus 500
    else SerpOk (mkSerpData
           (Some [offerPriced 500; offerPriced 200; offerPriced 800])) in
  let lookup :=
    Some (JObj [("source_airports", JArr [JStr "JFK"]);
                ("destination_airports", JArr [JStr "ORY"; JStr ""])]) in
  let dests := (resolveAirports lookup "New York" "Paris").2 in
  let flights := aggregateFlights serp "JFK" "2025-06-01" dests in
  dests = ["ORY"; ""]
  /\ serpFails (serp (mkSerpRequest "JFK" "ORY" "2025-06-01")) = true
  /\ map price flights = [Some 200; Some 500; Some 800]
  /\ map destination flights = [""; ""; ""]
  /\ selectAirportCode flights dests = Some "ORY".
Proof. vm_compute. repeat split. Qed.

(** C6 (amended): a destination whose search fails gives the empty result,
    and the flight data are those of the other destinations alone.  With two
    destinations, one whose search fails and one, whose code is not the
    empty text, that returns offers priced 500, 200 and 800, the result is
    these three sorted 200, 500, 800, and the selected airport code is the
    destination of the offer priced 200. *)
Theorem flight_fault_isolation :
  (forall (d : string) (reply : SerpReply),
      serpFails reply = true -> flightsFor d reply = [])
  /\ (forall (serp : SerpRequest -> SerpReply) (origin date : string)
             (ds1 : list string) (d : string) (ds2 : list string),
         serpFails (serp (mkSerpRequest origin d date)) = true ->
         aggregateFlights serp origin date (ds1 ++ d :: ds2)
         = aggregateFlights serp origin date (ds1 ++ ds2))
  /\ (forall (serp : SerpRequest -> SerpReply) (origin date dFail dOk : string)
             (o1 o2 o3 : FlightOption) (dests : list string),
         serpFails (serp (mkSerpRequest origin dFail date)) = true ->
         flightsFor dOk (serp (mkSerpRequest origin dOk date)) = [o1; o2; o3] ->
         price o1 = Some 500 -> price o2 = Some 200 -> price o3 = Some 800 ->
         dOk <> "" ->
         dests = [dFail; dOk] \/ dests = [dOk; dFail] ->
         aggregateFlights serp origin date dests = [o2; o1; o3]
         /\ map price (aggregateFlights serp origin date dests)
            = [Some 200; Some 500; Some 800]
         /\ destination o2 = dOk
         /\ selectAirportCode (aggregateFlights serp origin date dests) dests
            = Some (destination o2)).
Proof.
  split; [exact flightsFor_fails | split; [exact aggregate_drop_failed|]].
  intros serp origin date dFail dOk o1 o2 o3 dests Hfail Hok H1 H2 H3 Hne Hd.
  assert (Hdest : destination o2 = dOk).
  { pose proof (flightsFor_destination dOk (serp (mkSerpRequest origin dOk date))) as F.
    rewrite Hok in F. apply Forall_inv_tail, Forall_inv in F. exact F. }
  assert (Hagg : aggregateFlights serp origin date dests = [o2; o1; o3]).
  { assert (E : aggregateFlights serp origin date dests
                = aggregateFlights serp origin date [dOk]).
    { destruct Hd as [-> | ->].
      - apply (aggregate_drop_failed serp origin date [] dFail [dOk] Hfail).
      - apply (aggregate_drop_failed serp origin date [dOk] dFail [] Hfail). }
    rewrite E. unfold aggregateFlights. rewrite allFlightResults_eq.
    cbn [map concat]. rewrite Hok, app_nil_r.
    assert (K1 : sortKey o1 = 500) by now apply sortKey_present.
    assert (K2 : sortKey o2 = 200) by now apply sortKey_present.
    assert (K3 : sortKey o3 = 800) by now apply sortKey_present.
    cbn [sortBy insertBy]. unfold comparePrice. rewrite K2, K3.
    change (200 - 800 <=? 0) with true. cbn [insertBy]. rewrite K1, K2.
    change (500 - 200 <=? 0) with false. cbn [insertBy]. rewrite ?K1, ?K3.
    reflexivity. }
  rewrite Hagg. cbn [map]. rewrite H1, H2, H3.
  repeat split; [exact Hdest|].
  apply selectAirportCode_head. now rewrite Hdest.
Qed.

Lemma flight_fault_isolation_witness :
  let serp := fun r : SerpRequest =>
    if String.eqb (arrival_id r) "ORY" then SerpStatus 500
    else SerpOk (mkSerpData
           (Some [offerPriced 500; offerPriced 200; offerPriced 800])) in
  aggregateFlights serp "JFK" "2025-06-01" ["ORY"; "CDG"]
  = [pricedOption "CDG" 200; pricedOption "CDG" 500; pricedOption "CDG" 800]
  /\ selectAirportCode (aggregateFlights serp "JFK" "2025-06-01" ["ORY"; "CDG"])
       ["ORY"; "CDG"]
     = Some (destination (pricedOption "CDG" 200)).
Proof.
  cbn zeta. destruct flight_fault_isolation as (_ & _ & H).
  destruct (H (fun r : SerpRequest =>
                 if String.eqb (arrival_id r) "ORY" then SerpStatus 500
                 else SerpOk (mkSerpData
                        (Some [offerPriced 500; offerPriced 200; offerPriced 800])))
              "JFK" "2025-06-01" "ORY" "CDG"
              (pricedOption "CDG" 500) (pricedOption "CDG" 200)
              (pricedOption "CDG" 800) ["ORY"; "CDG"])
    as (Hagg & _ & _ & Hsel);
    [reflexivity | reflexivity | reflexivity | reflexivity | reflexivity
    | discriminate | now left |].
  split; [exact Hagg | exact Hsel].
Defined.

(** ** Request handler *)

Section ServiceFacts.

Variable JSON_parse : string -> option jsval.
Variable toISODate : string -> option string.
Variable env : Env.
Variable gemini : GeminiPrompt -> GeminiReply.
Variable serp : SerpRequest -> SerpReply.

Lemma searchAll_run (requests : list SerpRequest) (calls : list UpstreamCall) :
  searchAll serp requests calls
  = (inr (map (fun r => flightsFor (arrival_id r) (serp r)) requests),
     (calls ++ map CallSerp requests)%list).
Proof.
  revert calls; induction requests as [|r rs IH]; intros calls;
    cbn [searchAll map].
  - unfold ret. now rewrite app_nil_r.
  - unfold bind, fetchSerp, upstream, ret. rewrite IH.
    now rewrite <- app_assoc.
Qed.

Lemma flightStage_run (request : TravelRequest) (origin : string)
    (dests : list string) (calls : list UpstreamCall) :
  flightStage toISODate env serp request origin dests calls
  = (inr (flightStageValue toISODate env serp request origin dests),
     (calls ++ map CallSerp
                (flightStageRequests toISODate env request origin dests))%list).
Proof.
  unfold flightStage, flightStageValue, flightStageRequests.
  destruct (includeFlights request); cbn [andb];
    [|unfold ret; now rewrite app_nil_r].
  destruct (truthyString (SERPAPI_API_KEY env)); cbn [negb];
    [|unfold ret; now rewrite app_nil_r].
  unfold tryCatch, bind.
  destruct (toISODate (startDate request)) as [flightDate|].
  - unfold ret at 1. rewrite searchAll_run. reflexivity.
  - unfold throw, ret. now rewrite app_nil_r.
Qed.

Lemma handlerBody_run (request : TravelRequest) (calls : list UpstreamCall) :
  truthyString (GEMINI_API_KEY env) = true ->
  handlerBody JSON_parse toISODate env gemini serp request calls
  = (outcomeOf JSON_parse toISODate env gemini serp request,
     (calls ++ callsOf JSON_parse toISODate env gemini serp request)%list).
Proof.
  intros Hkey.
  unfold handlerBody, outcomeOf, callsOf, itineraryPromptOf, stageOf,
    searchOrigin, resolvedAirports, lookupThrowsOf.
  rewrite Hkey. cbn [negb].
  unfold bind at 1. unfold lookupAirports, bind at 1, fetchGemini at 1, upstream, ret.
  destruct (lookupTierThrows _); [reflexivity|].
  destruct (resolveAirports _ (source request) (req_destination request))
    as [sourceAirports destinationAirports]. cbn [fst snd].
  unfold bind at 1. rewrite flightStage_run.
  destruct (flightStageValue toISODate env serp request
              (originAirportForSearch sourceAirports (source request))
              destinationAirports) as [flights selected]. cbn [fst snd].
  unfold bind, fetchGemini, upstream.
  rewrite <- !app_assoc. cbn [app].
  destruct (gemini (itineraryPrompt request flights selected));
    reflexivity.
Qed.

Lemma serve_run (req : HttpRequest) (request : TravelRequest) :
  method req = POST -> json req = inr request ->
  truthyString (GEMINI_API_KEY env) = true ->
  serve JSON_parse toISODate env gemini serp req
  = (match outcomeOf JSON_parse toISODate env gemini serp request with
     | inr body => RespOk body
     | inl message => RespError 500 message
     end, callsOf JSON_parse toISODate env gemini serp request).
Proof.
  intros Hm Hj Hkey. unfold serve. rewrite Hm, Hj, handlerBody_run by assumption.
  cbn [app]. now destruct (outcomeOf JSON_parse toISODate env gemini serp request).
Qed.

Lemma serve_thrown (req : HttpRequest) (request : TravelRequest) :
  method req = POST -> json req = inr request ->
  truthyString (GEMINI_API_KEY env) = true ->
  lookupThrowsOf JSON_parse gemini request = true ->
  serve JSON_parse toISODate env gemini serp req
  = (RespError 500 conversionError,
     [CallGemini (AirportPrompt (source request) (req_destination request))]).
Proof.
  intros Hm Hj Hkey Hthrow. rewrite (serve_run req request) by assumption.
  unfold outcomeOf, callsOf. now rewrite Hthrow.
Qed.

Lemma serve_converted (req : HttpRequest) (request : TravelRequest) :
  method req = POST -> json req = inr request ->
  truthyString (GEMINI_API_KEY env) = true ->
  lookupThrowsOf JSON_parse gemini request = false ->
  serve JSON_parse toISODate env gemini serp req
  = (match gemini (itineraryPromptOf JSON_parse toISODate env gemini serp
                     request) with
     | GeminiOk text _ =>
         RespOk
           {| airportCodes_source :=
                nonEmptyOrNull (resolvedAirports JSON_parse gemini request).1;
              airportCodes_destination :=
                nonEmptyOrNull (resolvedAirports JSON_parse gemini request).2;
              selectedAirportCode :=
                (stageOf JSON_parse toISODate env gemini serp request).2;
              flightData :=
                nonEmptyOrNull
                  (stageOf JSON_parse toISODate env gemini serp request).1;
              itinerary := match text with Some t => t | None => "" end |}
     | reply => RespError 500 (failureMessage reply)
     end,
     (CallGemini (AirportPrompt (source request) (req_destination request))
      :: map CallSerp
           (flightStageRequests toISODate env request
              (searchOrigin JSON_parse gemini request)
              (resolvedAirports JSON_parse gemini request).2)
      ++ [CallGemini (itineraryPromptOf JSON_parse toISODate env gemini serp
                        request)])%list).
Proof.
  intros Hm Hj Hkey Hthrow. rewrite (serve_run req request) by assumption.
  unfold outcomeOf, callsOf. rewrite Hthrow. now destruct (gemini _).
Qed.

Lemma serve_no_credential (req : HttpRequest) (request : TravelRequest) :
  method req = POST -> json req = inr request ->
  truthyString (GEMINI_API_KEY env) = false ->
  serve JSON_parse toISODate env gemini serp req
  = (RespError 500 "GEMINI_API_KEY is not configured", []).
Proof.
  intros Hm Hj Hkey. unfold serve, handlerBody. now rewrite Hm, Hj, Hkey.
Qed.

End ServiceFacts.

(** C8: every request ends in one response.  Without the credential of the
    text-generation service the response is the error "GEMINI_API_KEY is not
    configured" and no upstream call is made.  Whichever itinerary call a
    request makes, when that call fails the response is an error carrying
    the message of that failure, whatever the airport lookup and the flight
    searches returned; and a successful response is given only when the
    last call made is an itinerary call that succeeded.  A request with the
    credential either fails on turning the result of the lookup into codes,
    which is reported as an error after the lookup alone, or makes its
    itinerary call, whose failure or success is that of the request. *)
Theorem handler_error_envelope
    (JSON_parse : string -> option jsval) (toISODate : string -> option string)
    (env : Env) (gemini : GeminiPrompt -> GeminiReply)
    (serp : SerpRequest -> SerpReply) (req : HttpRequest) :
  let run := serve JSON_parse toISODate env gemini serp req in
  let prompt := itineraryPromptOf JSON_parse toISODate env gemini serp in
  (method req = OPTIONS -> run = (RespPreflight, []))
  /\ (forall message,
         method req = POST -> json req = inl message ->
         run = (RespError 500 message, []))
  /\ (forall p,
         In (CallGemini p) run.2 -> isItineraryPrompt p = true ->
         replyFails (gemini p) = true ->
         run.1 = RespError 500 (failureMessage (gemini p)))
  /\ (forall body,
         run.1 = RespOk body ->
         truthyString (GEMINI_API_KEY env) = true
         /\ exists p, last run.2 = Some (CallGemini p)
                      /\ isItineraryPrompt p = true
                      /\ replyFails (gemini p) = false)
  /\ (forall request,
         method req = POST -> json req = inr request ->
         (truthyString (GEMINI_API_KEY env) = false ->
          run = (RespError 500 "GEMINI_API_KEY is not configured", []))
         /\ (truthyString (GEMINI_API_KEY env) = true ->
             lookupThrowsOf JSON_parse gemini request = true ->
             run = (RespError 500 conversionError,
                    [CallGemini (AirportPrompt (source request)
                                   (req_destination request))]))
         /\ (truthyString (GEMINI_API_KEY env) = true ->
             lookupThrowsOf JSON_parse gemini request = false ->
             plainInput (source request) = true ->
             plainInput (req_destination request) = true ->
             last run.2 = Some (CallGemini (prompt request))
             /\ (replyFails (gemini (prompt request)) = true ->
                 run.1
                 = RespError 500 (failureMessage (gemini (prompt request))))
             /\ (replyFails (gemini (prompt request)) = false ->
                 exists body, run.1 = RespOk body))).
Proof.
  cbn zeta.
  pose proof (serve_converted JSON_parse toISODate env gemini serp req)
    as Hrun.
  pose proof (serve_thrown JSON_parse toISODate env gemini serp req)
    as Hthrown.
  assert (Hlast : forall (c : UpstreamCall) (l : list UpstreamCall)
                         (x : UpstreamCall),
             last (c :: l ++ [x]) = Some x).
  { intros c l x. change (c :: l ++ [x])%list with ((c :: l) ++ [x])%list.
    apply last_snoc. }
  split; [|split; [|split; [|split]]].
  - intros Hm. unfold serve. now rewrite Hm.
  - intros message Hm Hj. unfold serve. now rewrite Hm, Hj.
  - intros p Hin Hp Hfail.
    destruct (method req) eqn:Hm;
      [unfold serve in Hin; rewrite Hm in Hin; destruct Hin|].
    destruct (json req) as [message|request] eqn:Hj;
      [unfold serve in Hin; rewrite Hm, Hj in Hin; destruct Hin|].
    destruct (truthyString (GEMINI_API_KEY env)) eqn:Hkey;
      [|rewrite (serve_no_credential _ _ _ _ _ _ request) in Hin by assumption;
        destruct Hin].
    destruct (lookupThrowsOf JSON_parse gemini request) eqn:Hthrow.
    + rewrite (Hthrown request) in Hin by first [assumption | reflexivity].
      destruct Hin as [[= <-]|[]]. discriminate Hp.
    + rewrite (Hrun request) in Hin |- * by first [assumption | reflexivity]. cbn [fst snd] in Hin |- *.
      destruct Hin as [[= <-]|Hin]; [discriminate Hp|].
      apply in_app_iff in Hin as [Hin|[[= <-]|[]]].
      * apply in_map_iff in Hin as (r & Hr & _). discriminate Hr.
      * destruct (gemini _); [reflexivity .. | discriminate Hfail].
  - intros body Hok.
    destruct (method req) eqn:Hm;
      [unfold serve in Hok; rewrite Hm in Hok; discriminate Hok|].
    destruct (json req) as [message|request] eqn:Hj;
      [unfold serve in Hok; rewrite Hm, Hj in Hok; discriminate Hok|].
    destruct (truthyString (GEMINI_API_KEY env)) eqn:Hkey;
      [|rewrite (serve_no_credential _ _ _ _ _ _ request) in Hok by assumption;
        discriminate Hok].
    split; [reflexivity|].
    destruct (lookupThrowsOf JSON_parse gemini request) eqn:Hthrow;
      [rewrite (Hthrown request) in Hok by first [assumption | reflexivity]; discriminate Hok|].
    rewrite (Hrun request) in Hok |- * by first [assumption | reflexivity]. cbn [fst snd] in Hok |- *.
    exists (itineraryPromptOf JSON_parse toISODate env gemini serp request).
    split; [apply Hlast|]. split; [reflexivity|].
    destruct (gemini _); try discriminate Hok. reflexivity.
  - intros request Hm Hj. split; [|split].
    + now apply (serve_no_credential _ _ _ _ _ _ request).
    + intros Hkey Hthrow. now apply Hthrown.
    + intros Hkey Hthrow _ _. rewrite (Hrun request) by assumption.
      cbn [fst snd]. split; [apply Hlast|]. split.
      * intros Hfail. destruct (gemini _); [reflexivity .. | discriminate Hfail].
      * intros Hfail. destruct (gemini _); try discriminate Hfail.
        eexists. reflexivity.
Qed.

Lemma handler_error_envelope_witness :
  serve (fun _ => None) (fun d => Some d) (mkEnv None (Some "serp-key"))
        sampleGemini sampleSerp (mkHttpRequest POST (inr sampleRequest))
  = (RespError 500 "GEMINI_API_KEY is not configured", [])
  /\ (serve (fun _ => None) (fun d => Some d)
            (mkEnv (Some "gemini-key") (Some "serp-key"))
            sampleGemini sampleSerp (mkHttpRequest POST (inr sampleRequest))).1
     = RespError 500 "AI Gateway error: 503"
  /\ serve (fun _ => Some unreadableLookup) (fun d => Some d)
           (mkEnv (Some "gemini-key") (Some "serp-key"))
           (fun _ => GeminiOk (Some "{}") "{}") sampleSerp
           (mkHttpRequest POST (inr sampleRequest))
     = (RespError 500 "Cannot convert object to primitive value",
        [CallGemini (AirportPrompt "New York" "Paris")]).
Proof.
  split; [|split].
  - pose proof (handler_error_envelope (fun _ => None) (fun d => Some d)
                  (mkEnv None (Some "serp-key")) sampleGemini sampleSerp
                  (mkHttpRequest POST (inr sampleRequest))) as H.
    cbn zeta in H. destruct H as (_ & _ & _ & _ & H).
    destruct (H sampleRequest eq_refl eq_refl) as (Hnokey & _).
    apply Hnokey. reflexivity.
  - pose proof (handler_error_envelope (fun _ => None) (fun d => Some d)
                  (mkEnv (Some "gemini-key") (Some "serp-key"))
                  sampleGemini sampleSerp
                  (mkHttpRequest POST (inr sampleRequest))) as H.
    cbn zeta in H. destruct H as (_ & _ & _ & _ & H).
    destruct (H sampleRequest eq_refl eq_refl) as (_ & _ & Hcall).
    destruct (Hcall eq_refl eq_refl eq_refl eq_refl) as (_ & Hfail & _).
    apply Hfail. reflexivity.
  - pose proof (handler_error_envelope (fun _ => Some unreadableLookup)
                  (fun d => Some d)
                  (mkEnv (Some "gemini-key") (Some "serp-key"))
                  (fun _ => GeminiOk (Some "{}") "{}") sampleSerp
                  (mkHttpRequest POST (inr sampleRequest))) as H.
    cbn zeta in H. destruct H as (_ & _ & _ & _ & H).
    destruct (H sampleRequest eq_refl eq_refl) as (_ & Hthrow & _).
    apply Hthrow; reflexivity.
Defined.

Lemma flightRequests_origin (origin date : string) (dests : list string)
    (r : SerpRequest) :
  In r (flightRequests origin date dests) -> departure_id r = origin.
Proof.
  unfold flightRequests. rewrite in_map_iff. now intros (d & <- & _).
Qed.

(** C10: the origin of the flight searches is the first resolved source
    airport, or the source input itself when no source airport is resolved;
    every search request carries it as its departure, those of a handled
    request included, so that the source airports after the first play no
    part in the searches. *)
Theorem flight_search_origin :
  (forall (s : string) (rest : list string) (source : string),
      originAirportForSearch (s :: rest) source = s)
  /\ (forall source : string, originAirportForSearch [] source = source)
  /\ (forall (sourceAirports : list string) (source date : string)
             (dests : list string),
         flightRequests (originAirportForSearch sourceAirports source) date dests
         = map (fun d =>
                  mkSerpRequest (originAirportForSearch sourceAirports source)
                                d date) dests)
  /\ (forall (s : string) (rest rest' : list string) (source source' date : string)
             (dests : list string),
         flightRequests (originAirportForSearch (s :: rest) source) date dests
         = flightRequests (originAirportForSearch (s :: rest') source') date dests)
  /\ (forall (JSON_parse : string -> option jsval)
             (toISODate : string -> option string) (env : Env)
             (gemini : GeminiPrompt -> GeminiReply)
             (serp : SerpRequest -> SerpReply) (req : HttpRequest)
             (request : TravelRequest) (r : SerpRequest),
         json req = inr request ->
         In (CallSerp r) (serve JSON_parse toISODate env gemini serp req).2 ->
         departure_id r
         = originAirportForSearch
             (resolvedAirports JSON_parse gemini request).1 (source request)).
Proof.
  split; [reflexivity|]. split; [reflexivity|]. split; [reflexivity|].
  split; [reflexivity|].
  intros JSON_parse toISODate env gemini serp req request r Hj Hin.
  destruct (method req) eqn:Hm.
  - unfold serve in Hin. rewrite Hm in Hin. destruct Hin.
  - destruct (truthyString (GEMINI_API_KEY env)) eqn:Hkey.
    + rewrite (serve_run _ _ _ _ _ _ request) in Hin by assumption.
      cbn [snd] in Hin. unfold callsOf in Hin.
      destruct (lookupThrowsOf JSON_parse gemini request);
        [destruct Hin as [Hin|[]]; discriminate Hin|].
      destruct Hin as [Hin|Hin]; [discriminate Hin|].
      apply in_app_iff in Hin as [Hin|Hin].
      * apply in_map_iff in Hin as (r' & [= ->] & Hin).
        unfold flightStageRequests in Hin.
        destruct (includeFlights request && truthyString (SERPAPI_API_KEY env));
          [|destruct Hin].
        destruct (toISODate (startDate request)); [|destruct Hin].
        now apply flightRequests_origin in Hin.
      * destruct Hin as [Hin|[]]. discriminate Hin.
    + rewrite (serve_no_credential _ _ _ _ _ _ request) in Hin by assumption.
      destruct Hin.
Qed.

Lemma flight_search_origin_witness :
  departure_id (mkSerpRequest "JFK" "CDG" "2025-06-01")
  = originAirportForSearch
      (resolvedAirports (fun _ => None) sampleGemini sampleRequest).1
      (source sampleRequest).
Proof.
  destruct flight_search_origin as (_ & _ & _ & _ & H).
  apply (H (fun _ => None) (fun d => Some d)
           (mkEnv (Some "gemini-key") (Some "serp-key"))
           sampleGemini sampleSerp (mkHttpRequest POST (inr sampleRequest))
           sampleRequest (mkSerpRequest "JFK" "CDG" "2025-06-01")).
  - reflexivity.
  - vm_compute. right. left. reflexivity.
Defined.

(** ** Further properties of the JSON-candidate extractor *)

Lemma index_lbrace_some (text : string) (n : nat) :
  index 0 "{" text = Some n ->
  exists pre rest,
    text = pre ++ String lbrace rest /\ noBrace pre = true
    /\ String.length pre = n.
Proof.
  revert n; induction text as [|c text IH]; intros n H; [discriminate H|].
  rewrite index_lbrace_cons in H.
  destruct (Ascii.eqb_spec c lbrace) as [->|Hc].
  - injection H as <-. now exists "", text.
  - destruct (index 0 "{" text) as [m|]; [|discriminate H].
    injection H as <-. destruct (IH m eq_refl) as (pre & rest & -> & Hpre & Hlen).
    exists (String c pre), rest. cbn [String.append String.length].
    repeat split; [|now rewrite Hlen].
    unfold noBrace. cbn [allString]. apply Ascii.eqb_neq in Hc.
    now rewrite Hc.
Qed.

(** Where the loop stops: after a stretch over which the depth is never
    zero, at the character that brings it to zero. *)
Lemma scanLoop_some (text : string) (fb : nat) (s : string) :
  forall (i : nat) (st : ScanState) (r : string),
    scanLoop text fb i s st = Some r ->
    exists s1 ch s2,
      s = s1 ++ String ch s2 /\ staysOpen s1 st = true
      /\ depth (scanStep ch (scanRun s1 st)) = 0
      /\ r = substring fb (i + String.length s1 + 1 - fb) text.
Proof.
  induction s as [|c s IH]; intros i st r H; [discriminate H|].
  cbn [scanLoop] in H. destruct (depth (scanStep c st) =? 0) eqn:Hd.
  - injection H as <-. exists "", c, s. cbn [String.append staysOpen scanRun String.length].
    apply Z.eqb_eq in Hd. repeat split; [exact Hd|]. f_equal. lia.
  - destruct (IH _ _ _ H) as (s1 & ch & s2 & -> & Ho & Hz & ->).
    exists (String c s1), ch, s2.
    cbn [String.append staysOpen scanRun String.length]. rewrite Hd, Ho.
    repeat split; [exact Hz|]. f_equal. lia.
Qed.

Lemma scanStep_depth (ch : ascii) (st : ScanState) :
  depth st - 1 <= depth (scanStep ch st) <= depth st + 1
  /\ (depth (scanStep ch st) = depth st - 1 -> ch = rbrace).
Proof.
  unfold scanStep; cbn [depth].
  destruct (negb _); [|split; lia].
  destruct (Ascii.eqb_spec ch lbrace); [split; lia|].
  destruct (Ascii.eqb_spec ch rbrace); split; (lia || tauto).
Qed.

(** Over a stretch that never brings the depth to zero, a positive depth
    stays positive. *)
Lemma staysOpen_positive (s : string) :
  forall st, 0 < depth st -> staysOpen s st = true -> 0 < depth (scanRun s st).
Proof.
  induction s as [|c s IH]; intros st Hst H; cbn [staysOpen scanRun] in *;
    [exact Hst|].
  apply andb_true_iff in H as [Hd Hs]. apply negb_true_iff, Z.eqb_neq in Hd.
  apply IH; [|exact Hs]. pose proof (scanStep_depth c st). lia.
Qed.

(** What a result of the extractor is made of. *)
Lemma extract_decompose (text c : string) :
  extractFirstJsonObject text = Some c <->
  exists pre mid post,
    text = pre ++ String lbrace (mid ++ String rbrace post)
    /\ noBrace pre = true
    /\ c = String lbrace (mid ++ String rbrace "")
    /\ staysOpen (String lbrace mid) scanInit = true
    /\ depth (scanStep rbrace (scanRun (String lbrace mid) scanInit)) = 0.
Proof.
  split.
  - unfold extractFirstJsonObject.
    destruct (index 0 "{" text) as [fb|] eqn:Hi; [|discriminate].
    destruct (index_lbrace_some _ _ Hi) as (pre & rest & -> & Hpre & <-).
    rewrite dropString_app. intros H.
    destruct (scanLoop_some _ _ _ _ _ _ H) as (s1 & ch & s2 & E & Ho & Hz & Hr).
    destruct s1 as [|b mid].
    { cbn [String.append] in E. injection E as <- <-.
      cbn [scanRun] in Hz. discriminate Hz. }
    cbn [String.append] in E. injection E as <- ->.
    assert (Hpos : 0 < depth (scanRun (String lbrace mid) scanInit)).
    { cbn [staysOpen scanRun] in Ho |- *.
      apply andb_true_iff in Ho as [_ Ho].
      apply staysOpen_positive; [reflexivity | exact Ho]. }
    assert (ch = rbrace) as ->.
    { destruct (scanStep_depth ch (scanRun (String lbrace mid) scanInit))
        as [Hrange Hdown]. apply Hdown. lia. }
    exists pre, mid, s2. repeat split; try assumption.
    rewrite Hr.
    replace (String.length pre + String.length (String lbrace mid) + 1
             - String.length pre)%nat
      with (String.length (String lbrace (mid ++ String rbrace ""))).
    2:{ cbn [String.length]. rewrite length_append. cbn [String.length]. lia. }
    replace (String lbrace (mid ++ String rbrace s2))
      with (String lbrace (mid ++ String rbrace "") ++ s2).
    2:{ cbn [String.append]. now rewrite append_assoc. }
    apply substring_app_mid.
  - intros (pre & mid & post & -> & Hpre & -> & Ho & Hz).
    unfold extractFirstJsonObject.
    rewrite index_lbrace_app, dropString_app by assumption.
    change (String lbrace (mid ++ String rbrace post))
      with (String lbrace mid ++ String rbrace post).
    rewrite (scanLoop_open _ _ _ _ _ _ Ho). cbn [scanLoop].
    rewrite Hz. cbn [Z.eqb]. f_equal.
    replace (String.length pre + String.length (String lbrace mid) + 1
             - String.length pre)%nat
      with (String.length (String lbrace (mid ++ String rbrace ""))).
    2:{ cbn [String.length]. rewrite length_append. cbn [String.length]. lia. }
    replace (String lbrace mid ++ String rbrace post)
      with (String lbrace (mid ++ String rbrace "") ++ post).
    2:{ cbn [String.append]. now rewrite append_assoc. }
    apply substring_app_mid.
Qed.

(** X1: a candidate returned by the extractor is a piece of the text that
    starts at the first opening brace of the text, begins with that brace
    and ends with a closing brace. *)
Theorem extract_candidate_shape (text c : string) :
  extractFirstJsonObject text = Some c ->
  exists pre mid post,
    text = pre ++ c ++ post /\ noBrace pre = true
    /\ c = String lbrace (mid ++ String rbrace "")
    /\ (2 <= String.length c)%nat.
Proof.
  intros H. apply extract_decompose in H
    as (pre & mid & post & -> & Hpre & -> & _ & _).
  exists pre, mid, post. repeat split; try assumption.
  - cbn [String.append]. now rewrite append_assoc.
  - cbn [String.length]. rewrite length_append. cbn [String.length]. lia.
Qed.

Lemma extract_candidate_shape_witness :
  exists pre mid post,
    jsq "so: {'a':{'b':2}} } end" = pre ++ jsq "{'a':{'b':2}}" ++ post
    /\ noBrace pre = true
    /\ jsq "{'a':{'b':2}}" = String lbrace (mid ++ String rbrace "")
    /\ (2 <= String.length (jsq "{'a':{'b':2}}"))%nat.
Proof.
  apply (extract_candidate_shape (jsq "so: {'a':{'b':2}} } end")).
  reflexivity.
Defined.

(** X2: extracting from a candidate gives the candidate again, and what
    follows a candidate in the text has no influence: text appended to the
    input leaves the result unchanged. *)
Theorem extract_stable (text c : string) :
  extractFirstJsonObject text = Some c ->
  extractFirstJsonObject c = Some c
  /\ forall more, extractFirstJsonObject (text ++ more) = Some c.
Proof.
  intros H. apply extract_decompose in H
    as (pre & mid & post & -> & Hpre & -> & Ho & Hz). split.
  - apply extract_decompose. exists "", mid, "". now repeat split.
  - intros more. apply extract_decompose.
    exists pre, mid, (post ++ more). repeat split; try assumption.
    rewrite append_assoc. cbn [String.append]. now rewrite append_assoc.
Qed.

Lemma extract_stable_witness :
  extractFirstJsonObject (jsq "{'a':1}") = Some (jsq "{'a':1}")
  /\ extractFirstJsonObject (jsq "see {'a':1} and" ++ jsq " also {'b':2}")
     = Some (jsq "{'a':1}").
Proof.
  destruct (extract_stable (jsq "see {'a':1} and") (jsq "{'a':1}") eq_refl)
    as [H1 H2].
  split; [exact H1 | apply H2].
Defined.

(** ** Further properties of the code-token extractor *)

Lemma mapString_app (f : ascii -> ascii) (s t : string) :
  mapString f (s ++ t) = mapString f s ++ mapString f t.
Proof.
  induction s as [|c s IH]; cbn [String.append mapString];
    [reflexivity | now rewrite IH].
Qed.

Lemma mapString_compose (f g : ascii -> ascii) (s : string) :
  mapString f (mapString g s) = mapString (fun c => f (g c)) s.
Proof. induction s as [|c s IH]; cbn [mapString]; [reflexivity | now rewrite IH]. Qed.

Lemma mapString_ext (f g : ascii -> ascii) (s : string) :
  (forall c, f c = g c) -> mapString f s = mapString g s.
Proof.
  intros H. induction s as [|c s IH]; cbn [mapString];
    [reflexivity | now rewrite H, IH].
Qed.

Lemma length_mapString (f : ascii -> ascii) (s : string) :
  String.length (mapString f s) = String.length s.
Proof. induction s as [|c s IH]; cbn [mapString String.length]; [reflexivity | now rewrite IH]. Qed.

Lemma filter_map_comm {A B} (p : B -> bool) (g : A -> B) (l : list A) :
  List.filter p (map g l) = map g (List.filter (fun x => p (g x)) l).
Proof.
  induction l as [|x r IH]; cbn [map List.filter]; [reflexivity|].
  destruct (p (g x)); cbn [map]; now rewrite IH.
Qed.

Section CaseChange.

(** A change of characters that keeps word characters, letters, and the
    upper case of each character. *)
Variable f : ascii -> ascii.
Hypothesis f_word : forall c, isWordChar (f c) = isWordChar c.
Hypothesis f_alpha : forall c, isAlpha (f c) = isAlpha c.
Hypothesis f_upper : forall c, upperChar (f c) = upperChar c.

Lemma wordsFrom_mapString (s : string) :
  forall cur,
    wordsFrom (mapString f cur) (mapString f s)
    = map (mapString f) (wordsFrom cur s).
Proof.
  induction s as [|c r IH]; intros cur; cbn [mapString wordsFrom].
  - now destruct cur.
  - rewrite f_word. destruct (isWordChar c).
    + rewrite <- IH, mapString_app. reflexivity.
    + destruct cur as [|d cur]; cbn [mapString map]; [apply (IH "")|].
      f_equal. apply (IH "").
Qed.

Lemma isCodeShaped_mapString (w : string) :
  isCodeShaped (mapString f w) = isCodeShaped w.
Proof.
  unfold isCodeShaped. rewrite length_mapString. f_equal.
  induction w as [|c w IH]; cbn [mapString allString]; [reflexivity|].
  now rewrite f_alpha, IH.
Qed.

Lemma extract_mapString (text : string) :
  extractIataCodesFromText (Some (mapString f text))
  = extractIataCodesFromText (Some text).
Proof.
  rewrite !extractIataCodesFromText_runs, !codeRuns_words. unfold words.
  change EmptyString with (mapString f EmptyString) at 1.
  rewrite wordsFrom_mapString, filter_map_comm, map_map. f_equal.
  rewrite (filter_ext _ isCodeShaped) by apply isCodeShaped_mapString.
  apply map_ext. intros w. unfold toUpperCase.
  rewrite mapString_compose. now apply mapString_ext.
Qed.

End CaseChange.

Lemma isWordChar_upperChar (c : ascii) : isWordChar (upperChar c) = isWordChar c.
Proof. destruct c as [[] [] [] [] [] [] [] []]; reflexivity. Qed.

Lemma isWordChar_lowerChar (c : ascii) : isWordChar (lowerChar c) = isWordChar c.
Proof. destruct c as [[] [] [] [] [] [] [] []]; reflexivity. Qed.

Lemma isAlpha_of_upperChar (c : ascii) : isAlpha (upperChar c) = isAlpha c.
Proof. destruct c as [[] [] [] [] [] [] [] []]; reflexivity. Qed.

Lemma isAlpha_of_lowerChar (c : ascii) : isAlpha (lowerChar c) = isAlpha c.
Proof. destruct c as [[] [] [] [] [] [] [] []]; reflexivity. Qed.

Lemma upperChar_idem (c : ascii) : upperChar (upperChar c) = upperChar c.
Proof. destruct c as [[] [] [] [] [] [] [] []]; reflexivity. Qed.

Lemma upperChar_lowerChar (c : ascii) : upperChar (lowerChar c) = upperChar c.
Proof. destruct c as [[] [] [] [] [] [] [] []]; reflexivity. Qed.

Lemma lowerChar_upperChar (c : ascii) : lowerChar (upperChar c) = lowerChar c.
Proof. destruct c as [[] [] [] [] [] [] [] []]; reflexivity. Qed.

Lemma lowerChar_idem (c : ascii) : lowerChar (lowerChar c) = lowerChar c.
Proof. destruct c as [[] [] [] [] [] [] [] []]; reflexivity. Qed.

(** X3: the codes found in a text do not depend on the case of its letters:
    a text of ASCII characters put in upper case, and any text put in lower
    case, give the codes of the text itself. *)
Theorem extractIataCodesFromText_case (text : string) :
  (isAsciiText text = true ->
   extractIataCodesFromText (Some (toUpperCase text))
   = extractIataCodesFromText (Some text))
  /\ extractIataCodesFromText (Some (toLowerCase text))
     = extractIataCodesFromText (Some text).
Proof.
  split.
  - intros _. apply extract_mapString;
      [apply isWordChar_upperChar | apply isAlpha_of_upperChar | apply upperChar_idem].
  - apply extract_mapString;
      [apply isWordChar_lowerChar | apply isAlpha_of_lowerChar | apply upperChar_lowerChar].
Qed.

Lemma extractIataCodesFromText_case_witness :
  extractIataCodesFromText (Some (toUpperCase "fly to nyc or Lax"))
  = extractIataCodesFromText (Some "fly to nyc or Lax").
Proof.
  apply (proj1 (extractIataCodesFromText_case "fly to nyc or Lax")).
  reflexivity.
Defined.

Lemma isUpper_facts (c : ascii) :
  isUpper c = true ->
  isWordChar c = true /\ isAlpha c = true /\ upperChar c = c.
Proof.
  destruct c as [[] [] [] [] [] [] [] []]; intros H;
    try discriminate H; repeat split.
Qed.

Lemma isUpperCode_facts (w : string) :
  isUpperCode w = true ->
  allString isWordChar w = true /\ isCodeShaped w = true
  /\ toUpperCase w = w /\ w <> "".
Proof.
  unfold isUpperCode, isCodeShaped.
  destruct w as [|a [|b [|c [|d r]]]]; try discriminate.
  cbn [String.length Nat.eqb allString andb toUpperCase mapString].
  intros H. apply andb_true_iff in H as [Ha H].
  apply andb_true_iff in H as [Hb H]. apply andb_true_iff in H as [Hc _].
  destruct (isUpper_facts a Ha) as (Wa & Aa & Ua).
  destruct (isUpper_facts b Hb) as (Wb & Ab & Ub).
  destruct (isUpper_facts c Hc) as (Wc & Ac & Uc).
  rewrite Wa, Wb, Wc, Aa, Ab, Ac, Ua, Ub, Uc. repeat split. discriminate.
Qed.

Lemma wordsFrom_word (w : string) :
  allString isWordChar w = true ->
  forall cur rest, wordsFrom cur (w ++ rest) = wordsFrom (cur ++ w) rest.
Proof.
  induction w as [|c w IH]; intros H cur rest; cbn [String.append].
  - now rewrite append_empty_r.
  - cbn [allString] in H. apply andb_true_iff in H as [Hc Hw].
    cbn [wordsFrom]. rewrite Hc, (IH Hw). now rewrite append_snoc.
Qed.

Lemma words_concat (codes : list string) :
  Forall (fun w => allString isWordChar w = true /\ w <> "") codes ->
  words (String.concat " " codes) = codes.
Proof.
  induction 1 as [|x r [Hx Hne] Hr IH]; [reflexivity|].
  unfold words in *. cbn [String.concat].
  destruct r as [|y r].
  - rewrite <- (append_empty_r x) at 1.
    rewrite (wordsFrom_word x Hx). cbn [String.append wordsFrom].
    destruct x; [contradiction | reflexivity].
  - rewrite (wordsFrom_word x Hx). cbn [String.append wordsFrom].
    change (isWordChar " ") with false. cbn iota.
    rewrite IH. destruct x; [contradiction | reflexivity].
Qed.

Lemma keepFirst_NoDup_id (l : list string) :
  forall seen, NoDup l -> (forall x, x ∈ l -> x ∉ seen) -> keepFirst seen l = l.
Proof.
  induction l as [|x r IH]; intros seen Hnd Hdis; cbn [keepFirst]; [reflexivity|].
  apply NoDup_cons in Hnd as [Hx Hr].
  destruct (decide (x ∈ seen)) as [Hin|_].
  - exfalso. apply (Hdis x); [left | exact Hin].
  - f_equal. apply IH; [exact Hr|].
    intros y Hy. rewrite elem_of_cons. intros [->|Hs]; [contradiction|].
    apply (Hdis y); [now right | exact Hs].
Qed.

(** X4: a list of distinct codes of three uppercase letters, written out
    with single spaces between them, is read back as it is. *)
Theorem extractIataCodesFromText_roundtrip (codes : list string) :
  NoDup codes ->
  Forall (fun c => isUpperCode c = true) codes ->
  extractIataCodesFromText (Some (String.concat " " codes)) = codes.
Proof.
  intros Hnd Hcodes.
  rewrite extractIataCodesFromText_runs, codeRuns_words, words_concat.
  2:{ eapply Forall_impl; [exact Hcodes|]. intros w Hw.
      destruct (isUpperCode_facts w Hw) as (H1 & _ & _ & H4). now split. }
  rewrite filter_all.
  2:{ eapply Forall_impl; [exact Hcodes|]. intros w Hw.
      now destruct (isUpperCode_facts w Hw) as (_ & H2 & _). }
  replace (map toUpperCase codes) with codes.
  2:{ symmetry. clear Hnd. induction Hcodes as [|w r Hw _ IH]; [reflexivity|].
      cbn [map]. destruct (isUpperCode_facts w Hw) as (_ & _ & H3 & _).
      now rewrite H3, IH. }
  apply keepFirst_NoDup_id; [exact Hnd|]. intros x _. apply not_elem_of_nil.
Qed.

Lemma extractIataCodesFromText_roundtrip_witness :
  extractIataCodesFromText (Some (String.concat " " ["JFK"; "CDG"; "NRT"]))
  = ["JFK"; "CDG"; "NRT"].
Proof.
  apply extractIataCodesFromText_roundtrip.
  - repeat (apply NoDup_cons_2;
              [rewrite ?elem_of_cons, elem_of_nil; intuition discriminate|]).
    apply NoDup_nil_2.
  - repeat constructor.
Defined.

(** ** Further properties of the airport resolver *)

Lemma extract_object_text (pre obj post : string) :
  noBrace pre = true -> ObjectText obj ->
  extractFirstJsonObject (pre ++ obj ++ post) = Some obj.
Proof.
  intros Hpre (inner & Hin & ->). apply extract_decompose.
  exists pre, inner, post.
  destruct (scan_balanced inner Hin 1 ltac:(lia)) as [Ho Hr].
  repeat split; try assumption.
  - cbn [String.append]. now rewrite append_assoc.
  - cbn [scanRun]. unfold scanInit. rewrite scanStep_lbrace.
    change (0 + 1) with 1. rewrite Hr. reflexivity.
Qed.

Lemma arrayifyCodes_strings (l : list string) :
  arrayifyCodes (Some (JArr (map JStr l))) = map toUpperCase l.
Proof. cbn [arrayifyCodes truthy negb]. now rewrite map_map. Qed.

(** X5: when the model replies with the JSON object asked for, wrapped in
    commentary that has no opening brace before the object, and the parser
    reads that object, the lookup is this object; its two arrays of codes,
    uppercased, are the resolved lists when neither is empty, whatever the
    two inputs are. *)
Theorem lookup_from_json_reply
    (JSON_parse : string -> option jsval) (pre post stringified : string) :
  noBrace pre = true ->
  (forall fields : list (string * jsval),
      JSON_parse (renderJson (JObj fields)) = Some (JObj fields) ->
      airportLookupOf JSON_parse
        (GeminiOk (Some (pre ++ renderJson (JObj fields) ++ post)) stringified)
      = Some (JObj fields))
  /\ (forall (l1 l2 : list string) (source destination : string),
         JSON_parse (renderJson (airportsObject l1 l2))
         = Some (airportsObject l1 l2) ->
         l1 <> [] -> l2 <> [] ->
         resolveAirports
           (airportLookupOf JSON_parse
              (GeminiOk
                 (Some (pre ++ renderJson (airportsObject l1 l2) ++ post))
                 stringified))
           source destination
         = (map toUpperCase l1, map toUpperCase l2)).
Proof.
  intros Hpre.
  assert (Hlookup : forall fields : list (string * jsval),
             JSON_parse (renderJson (JObj fields)) = Some (JObj fields) ->
             airportLookupOf JSON_parse
               (GeminiOk (Some (pre ++ renderJson (JObj fields) ++ post))
                  stringified)
             = Some (JObj fields)).
  { intros fields Hparse. unfold airportLookupOf, fetchAirportCodesFromGemini.
    rewrite extract_object_text by (assumption || apply renderJson_object).
    unfold safeParseJsonCandidate.
    change (renderJson (JObj fields))
      with (String lbrace
              (joinComma
                 (map (fun kv => quoteString (fst kv)
                                 ++ String ":" (renderJson (snd kv))) fields)
               ++ String rbrace "")) at 1.
    cbv iota.
    change (String lbrace
              (joinComma
                 (map (fun kv => quoteString (fst kv)
                                 ++ String ":" (renderJson (snd kv))) fields)
               ++ String rbrace ""))
      with (renderJson (JObj fields)).
    rewrite Hparse. reflexivity. }
  split; [exact Hlookup|].
  intros l1 l2 source destination Hparse H1 H2.
  unfold airportsObject in *. rewrite (Hlookup _ Hparse).
  rewrite resolveAirports_unfold, lookupTier_arrays. cbn [fst snd].
  destruct l1 as [|a l1]; [contradiction|].
  destruct l2 as [|b l2]; [contradiction|]. reflexivity.
Qed.

Lemma lookup_from_json_reply_witness :
  resolveAirports
    (airportLookupOf (parseOnly (airportsObject ["jfk"; "LGA"] ["cdg"]))
       (GeminiOk
          (Some ("Here you go: "
                 ++ renderJson (airportsObject ["jfk"; "LGA"] ["cdg"])
                 ++ " Hope that helps {really}."))
          "{}"))
    "JFK" "France"
  = (["JFK"; "LGA"], ["CDG"]).
Proof.
  destruct (lookup_from_json_reply
              (parseOnly (airportsObject ["jfk"; "LGA"] ["cdg"]))
              "Here you go: " " Hope that helps {really}." "{}" eq_refl)
    as [_ H].
  apply (H ["jfk"; "LGA"] ["cdg"] "JFK" "France");
    [vm_compute; reflexivity | discriminate | discriminate].
Defined.

Lemma toUpperCase_codes (l : list string) :
  Forall (fun c => isUpperCode c = true) l -> map toUpperCase l = l.
Proof.
  induction 1 as [|w r Hw _ IH]; [reflexivity|]. cbn [map].
  destruct (isUpperCode_facts w Hw) as (_ & _ & H3 & _). now rewrite H3, IH.
Qed.

(** X6: when the model's reply holds no JSON object that parses, its
    three-letter words decide: with fewer than two of them the lookup gives
    nothing; otherwise the first is the only source code and the others are
    the destination codes, all of them codes of three uppercase letters,
    the source code not among the destination codes, and these are the
    resolved lists whatever the two inputs are. *)
Theorem lookup_from_tokens
    (JSON_parse : string -> option jsval) (text stringified : string) :
  truthyOpt (safeParseJsonCandidate JSON_parse (extractFirstJsonObject text))
  = false ->
  let tokens := extractIataCodesFromText (Some text) in
  let lookup :=
    airportLookupOf JSON_parse (GeminiOk (Some text) stringified) in
  ((length tokens < 2)%nat -> lookup = None)
  /\ (forall t ts,
         tokens = t :: ts -> ts <> [] ->
         lookupTier lookup = ([t], ts)
         /\ ~ In t ts
         /\ Forall (fun c => isUpperCode c = true) (t :: ts)
         /\ forall source destination,
              resolveAirports lookup source destination = ([t], ts)).
Proof.
  intros Hparse. cbn zeta.
  unfold airportLookupOf, fetchAirportCodesFromGemini. rewrite Hparse.
  split.
  - intros Hlen. apply Nat.leb_gt in Hlen. now rewrite Hlen.
  - intros t ts Htok Hts. rewrite Htok.
    destruct ts as [|u ts]; [contradiction|].
    cbn [length Nat.leb take drop].
    assert (Hcodes : Forall (fun c => isUpperCode c = true) (t :: u :: ts)).
    { rewrite <- Htok, extractIataCodesFromText_runs. apply upperRuns_codes. }
    assert (Hnd : NoDup (t :: u :: ts)).
    { rewrite <- Htok, extractIataCodesFromText_runs. apply keepFirst_NoDup. }
    assert (Htier : lookupTier
                      (Some (JObj [("source_airports", JArr (map JStr [t]));
                                   ("destination_airports",
                                    JArr (map JStr (u :: ts)))]))
                    = ([t], u :: ts)).
    { rewrite lookupTier_arrays.
      rewrite (toUpperCase_codes [t]), (toUpperCase_codes (u :: ts));
        [reflexivity | now inversion Hcodes |].
      constructor; [now inversion Hcodes | constructor]. }
    repeat split.
    + exact Htier.
    + apply NoDup_cons in Hnd as [Hnin _]. now rewrite <- list_elem_of_In.
    + exact Hcodes.
    + intros source destination.
      rewrite resolveAirports_unfold, Htier. reflexivity.
Qed.

Lemma lookup_from_tokens_witness :
  airportLookupOf (fun _ => None) (GeminiOk (Some "Only JFK, sorry.") "{}") = None
  /\ resolveAirports
       (airportLookupOf (fun _ => None)
          (GeminiOk (Some "Fly JFK to CDG or ORY") "{}"))
       "New York" "Paris"
     = (["FLY"], ["JFK"; "CDG"; "ORY"]).
Proof.
  split.
  - pose proof (lookup_from_tokens (fun _ => None) "Only JFK, sorry." "{}") as H.
    cbn zeta in H. apply H; [reflexivity | vm_compute; lia].
  - pose proof (lookup_from_tokens (fun _ => None) "Fly JFK to CDG or ORY" "{}")
      as H.
    cbn zeta in H. destruct (H eq_refl) as [_ H2].
    apply (H2 "FLY" ["JFK"; "CDG"; "ORY"]); [vm_compute; reflexivity | discriminate].
Defined.

Lemma isSpace_upperChar (c : ascii) : isSpace (upperChar c) = isSpace c.
Proof. destruct c as [[] [] [] [] [] [] [] []]; reflexivity. Qed.

(** The fallback of a side reads its input through its trimmed form in
    lower case only. *)
Lemma sideFallback_folded (input input' : string) (codes : list string) :
  toLowerCase (trim input) = toLowerCase (trim input') ->
  sideFallback input codes = sideFallback input' codes.
Proof.
  intros H. destruct codes as [|c cs]; [|reflexivity].
  rewrite !sideFallback_empty.
  assert (Hshape : forall s, isCodeShaped s = isCodeShaped (toLowerCase s)).
  { intros s. symmetry. apply isCodeShaped_mapString, isAlpha_of_lowerChar. }
  assert (Hup : forall s, toUpperCase s = toUpperCase (toLowerCase s)).
  { intros s. unfold toUpperCase, toLowerCase. rewrite mapString_compose.
    apply mapString_ext. intros c. now rewrite upperChar_lowerChar. }
  rewrite (Hshape (trim input)), (Hshape (trim input')).
  rewrite (Hup (trim input)), (Hup (trim input')). now rewrite H.
Qed.

(** X7: two inputs that differ only by white space around them and by the
    case of their letters resolve alike; in particular a destination may be
    given already trimmed, and a source of ASCII characters in upper
    case. *)
Theorem resolveAirports_folded
    (lookup : option jsval) (source source' destination destination' : string) :
  toLowerCase (trim source) = toLowerCase (trim source') ->
  toLowerCase (trim destination) = toLowerCase (trim destination') ->
  resolveAirports lookup source destination
  = resolveAirports lookup source' destination'
  /\ (isAsciiText source = true ->
      resolveAirports lookup (toUpperCase source) (trim destination)
      = resolveAirports lookup source destination).
Proof.
  intros Hs Hd. rewrite !resolveAirports_unfold. split.
  - now rewrite (sideFallback_folded source source' _ Hs),
      (sideFallback_folded destination destination' _ Hd).
  - intros _.
    rewrite (sideFallback_folded (toUpperCase source) source),
      (sideFallback_folded (trim destination) destination); [reflexivity | |].
    + now rewrite trim_idem.
    + unfold toUpperCase, toLowerCase.
      rewrite trim_mapString by apply isSpace_upperChar.
      rewrite mapString_compose. apply mapString_ext.
      intros c. apply lowerChar_upperChar.
Qed.

Lemma resolveAirports_folded_witness :
  resolveAirports None "  GerMany " "jfk"
  = resolveAirports None "germany" " JFK  "
  /\ resolveAirports None (toUpperCase "  GerMany ") (trim "jfk")
     = resolveAirports None "  GerMany " "jfk".
Proof.
  destruct (resolveAirports_folded None "  GerMany " "germany" "jfk" " JFK  ")
    as [H1 H2]; [reflexivity | reflexivity |].
  split; [exact H1 | apply H2; reflexivity].
Defined.

Lemma finalFallback_swap (src dst : list string) :
  finalFallback (dst, src)
  = ((finalFallback (src, dst)).2, (finalFallback (src, dst)).1).
Proof. destruct src, dst; reflexivity. Qed.

(** X8: with a lookup that gives nothing the two sides are treated alike:
    exchanging the two inputs exchanges the two resolved lists. *)
Theorem resolveAirports_swap (source destination : string) :
  resolveAirports None destination source
  = ((resolveAirports None source destination).2,
     (resolveAirports None source destination).1).
Proof. rewrite !resolveAirports_unfold. cbn [lookupTier fst snd]. apply finalFallback_swap. Qed.

Lemma noLower_upper (s : string) : noLower (toUpperCase s) = true.
Proof.
  unfold noLower, toUpperCase.
  induction s as [|c s IH]; cbn [mapString allString]; [reflexivity|].
  rewrite IH, andb_true_r.
  destruct c as [[] [] [] [] [] [] [] []]; reflexivity.
Qed.

Lemma noLower_code (w : string) : isUpperCode w = true -> noLower w = true.
Proof.
  intros H. destruct (isUpperCode_facts w H) as (_ & _ & <- & _).
  apply noLower_upper.
Qed.

Lemma arrayifyCodes_noLower (v : option jsval) :
  Forall (fun c => noLower c = true) (arrayifyCodes v).
Proof.
  destruct v as [v|]; [|constructor]. unfold arrayifyCodes.
  destruct (negb (truthy v)); [constructor|].
  destruct v; try constructor.
  - apply noLower_upper.
  - constructor.
  - apply Forall_map, Forall_forall. intros x _. apply noLower_upper.
Qed.

Lemma sideFallback_noLower (input : string) (codes : list string) :
  Forall (fun c => noLower c = true) codes ->
  Forall (fun c => noLower c = true) (sideFallback input codes).
Proof.
  intros H. destruct codes as [|c cs]; [|exact H].
  rewrite sideFallback_empty.
  destruct (isCodeShaped (trim input)).
  - constructor; [apply noLower_upper | constructor].
  - destruct (COUNTRY_AIRPORTS !! toLowerCase (trim input)) as [table|] eqn:Hk;
      [|constructor].
    apply table_entries in Hk. unfold tableEntryOk in Hk.
    apply andb_true_iff in Hk as [_ Hk].
    apply Forall_forall. intros x Hx. apply noLower_code.
    rewrite forallb_forall in Hk. apply Hk. now apply list_elem_of_In.
Qed.

(** X9: whatever the lookup returns and whatever the inputs are, no
    resolved code contains a lowercase letter. *)
Theorem resolveAirports_uppercase
    (lookup : option jsval) (source destination : string) :
  Forall (fun c => noLower c = true)
         (resolveAirports lookup source destination).1
  /\ Forall (fun c => noLower c = true)
            (resolveAirports lookup source destination).2.
Proof.
  rewrite resolveAirports_unfold.
  assert (Ht : Forall (fun c => noLower c = true) (lookupTier lookup).1
               /\ Forall (fun c => noLower c = true) (lookupTier lookup).2).
  { unfold lookupTier. destruct lookup as [v|]; [|split; constructor].
    destruct (truthy v && _); cbn [fst snd];
      [split; apply arrayifyCodes_noLower | split; constructor]. }
  destruct Ht as [H1 H2].
  apply finalFallback_codes; now apply sideFallback_noLower.
Qed.

(** ** Further properties of the flight aggregator *)

Lemma mapLegs_complete (legs : list ProviderLeg) :
  (forallb legComplete legs = true ->
   exists out, mapLegs legs = Some out /\ length out = length legs)
  /\ (forallb legComplete legs = false -> mapLegs legs = None).
Proof.
  induction legs as [|leg r [IHt IHf]]; cbn [forallb mapLegs].
  - split; [intros _; now exists [] | discriminate].
  - unfold legComplete at 1 3, toRouteLeg.
    destruct (departure_airport leg) as [dep|], (arrival_airport leg) as [arr|];
      cbn [andb]; split; try discriminate; try reflexivity.
    + intros H. destruct (IHt H) as (out & -> & Hlen).
      eexists. split; [reflexivity|]. cbn [length]. now rewrite Hlen.
    + intros H. now rewrite (IHf H).
Qed.

Lemma orElse_nonempty (x : option string) (d : string) :
  d <> "" -> orElse x d <> "".
Proof.
  intros Hd. unfold orElse. destruct x as [s|]; [|exact Hd].
  destruct (String.eqb_spec s ""); [exact Hd | assumption].
Qed.

Lemma toFlightOption_complete (d : string) (flight : ProviderFlight) :
  (offerComplete flight = true ->
   exists o, toFlightOption d flight = Some o
             /\ destination o = d /\ price o = flight_price flight
             /\ duration o = total_duration flight
             /\ length (route o) = length (legsOf flight)
             /\ airline o <> "")
  /\ (offerComplete flight = false -> toFlightOption d flight = None).
Proof.
  unfold offerComplete, toFlightOption, legsOf.
  destruct (flights flight) as [legs|].
  - destruct (mapLegs_complete legs) as [Ht Hf]. split.
    + intros H. destruct (Ht H) as (out & -> & Hlen).
      eexists. split; [reflexivity|]. cbn [destination price duration route airline].
      repeat split; [exact Hlen|]. now apply orElse_nonempty.
    + intros H. now rewrite (Hf H).
  - split; [|discriminate]. intros _.
    eexists. split; [reflexivity|]. cbn [destination price duration route airline].
    repeat split. now apply orElse_nonempty.
Qed.

Lemma mapFlights_complete (d : string) (offers : list ProviderFlight) :
  (forallb offerComplete offers = true ->
   exists out,
     mapFlights (toFlightOption d) offers = Some out
     /\ Forall2 (fun offer o =>
                   destination o = d /\ price o = flight_price offer
                   /\ duration o = total_duration offer
                   /\ length (route o) = length (legsOf offer)
                   /\ airline o <> "") offers out)
  /\ (forallb offerComplete offers = false ->
      mapFlights (toFlightOption d) offers = None).
Proof.
  induction offers as [|x r [IHt IHf]]; cbn [forallb mapFlights].
  - split; [intros _; exists []; split; [reflexivity | constructor] | discriminate].
  - destruct (toFlightOption_complete d x) as [Ht Hf].
    destruct (offerComplete x); cbn [andb]; split.
    + intros H. destruct (Ht eq_refl) as (o & -> & Ho).
      destruct (IHt H) as (out & -> & Hout).
      exists (o :: out). split; [reflexivity | now constructor].
    + intros H. rewrite (IHf H). now destruct (toFlightOption d x).
    + discriminate.
    + intros _. now rewrite (Hf eq_refl).
Qed.

(** X10: the offers returned for a destination become its flight options
    one for one, in order, each with the price and the duration of its
    offer, as many route legs as the offer has, and an airline that is never
    empty; but a single leg without departure or arrival airport, in any
    offer, leaves the destination without any option; so does a reply with
    no offers. *)
Theorem flightsFor_offers (d : string) (offers : list ProviderFlight) :
  (forallb offerComplete offers = true ->
   Forall2 (fun offer o =>
              destination o = d /\ price o = flight_price offer
              /\ duration o = total_duration offer
              /\ length (route o) = length (legsOf offer)
              /\ airline o <> "")
           offers (flightsFor d (SerpOk (mkSerpData (Some offers)))))
  /\ (forallb offerComplete offers = false ->
      flightsFor d (SerpOk (mkSerpData (Some offers))) = [])
  /\ flightsFor d (SerpOk (mkSerpData None)) = [].
Proof.
  destruct (mapFlights_complete d offers) as [Ht Hf].
  split; [|split; [|reflexivity]].
  - intros H. destruct (Ht H) as (out & Hout & Hall).
    cbn [flightsFor best_flights]. destruct offers as [|x r].
    + cbn [mapFlights] in Hout. injection Hout as <-. constructor.
    + now rewrite Hout.
  - intros H. cbn [flightsFor best_flights]. destruct offers as [|x r];
      [reflexivity|]. now rewrite (Hf H).
Qed.

Lemma flightsFor_offers_witness :
  Forall2 (fun offer o =>
             destination o = "CDG" /\ price o = flight_price offer
             /\ duration o = total_duration offer
             /\ length (route o) = length (legsOf offer)
             /\ airline o <> "")
          [mkProviderFlight (Some [sampleLeg]) (Some 420) (Some 510);
           offerPriced 300]
          (flightsFor "CDG"
             (SerpOk (mkSerpData
                (Some [mkProviderFlight (Some [sampleLeg]) (Some 420) (Some 510);
                       offerPriced 300]))))
  /\ flightsFor "CDG"
       (SerpOk (mkSerpData
          (Some [mkProviderFlight (Some [sampleLeg]) (Some 420) (Some 510);
                 mkProviderFlight (Some [sampleLeg; brokenLeg]) (Some 300) None])))
     = [].
Proof.
  split.
  - destruct (flightsFor_offers "CDG"
                [mkProviderFlight (Some [sampleLeg]) (Some 420) (Some 510);
                 offerPriced 300]) as [H _].
    apply H. reflexivity.
  - destruct (flightsFor_offers "CDG"
                [mkProviderFlight (Some [sampleLeg]) (Some 420) (Some 510);
                 mkProviderFlight (Some [sampleLeg; brokenLeg]) (Some 300) None])
      as (_ & H & _).
    apply H. reflexivity.
Defined.

Lemma filter_head_split {A} (p : A -> bool) (l : list A) (f : A) (r : list A) :
  List.filter p l = f :: r ->
  exists l1 l2, l = (l1 ++ f :: l2)%list /\ Forall (fun x => p x = false) l1.
Proof.
  induction l as [|x l IH]; cbn [List.filter]; [discriminate|].
  destruct (p x) eqn:Hx.
  - intros [= -> _]. exists [], l. split; [reflexivity | constructor].
  - intros H. destruct (IH H) as (l1 & l2 & -> & Hl1).
    exists (x :: l1), l2. split; [reflexivity | now constructor].
Qed.

(** X11: the first entry of the flight data is an offer of least sort key,
    and of the offers with that key the first in request order: in the
    results as they came, every offer before it has a greater key and every
    offer after it a key at least as great. *)
Theorem cheapest_first (serp : SerpRequest -> SerpReply)
    (origin date : string) (dests : list string)
    (f : FlightOption) (rest : list FlightOption) :
  aggregateFlights serp origin date dests = f :: rest ->
  exists l1 l2,
    concat (allFlightResults serp origin date dests) = (l1 ++ f :: l2)%list
    /\ Forall (fun x => sortKey f < sortKey x) l1
    /\ Forall (fun x => sortKey f <= sortKey x) l2.
Proof.
  intros E.
  set (flat := concat (allFlightResults serp origin date dests)) in *.
  pose proof (sortBy_stable sortKey (sortKey f) flat) as Hst.
  change (sortBy (fun a b => sortKey a - sortKey b) flat)
    with (aggregateFlights serp origin date dests) in Hst.
  rewrite E in Hst. cbn [List.filter] in Hst. rewrite Z.eqb_refl in Hst.
  symmetry in Hst. destruct (filter_head_split _ _ _ _ Hst)
    as (l1 & l2 & Hflat & Hl1).
  exists l1, l2. split; [exact Hflat|].
  assert (Hleast : forall x, In x flat -> sortKey f <= sortKey x).
  { intros x Hx. now apply (sortBy_head_least sortKey flat rest). }
  split; apply List.Forall_forall; intros x Hx.
  - assert (Hk : (sortKey x =? sortKey f) = false).
    { rewrite List.Forall_forall in Hl1. now apply Hl1. }
    apply Z.eqb_neq in Hk.
    assert (sortKey f <= sortKey x)
      by (apply Hleast; rewrite Hflat; apply in_or_app; now left).
    lia.
  - apply Hleast. rewrite Hflat. apply in_or_app. right. now right.
Qed.

Lemma cheapest_first_witness :
  exists l1 l2,
    concat (allFlightResults
              (fun r => SerpOk (mkSerpData
                 (Some (if String.eqb (arrival_id r) "ORY"
                        then [offerPriced 90; offerPriced 70]
                        else [offerPriced 70]))))
              "JFK" "2025-06-01" ["ORY"; "CDG"])
    = (l1 ++ pricedOption "ORY" 70 :: l2)%list
    /\ Forall (fun x => sortKey (pricedOption "ORY" 70) < sortKey x) l1
    /\ Forall (fun x => sortKey (pricedOption "ORY" 70) <= sortKey x) l2.
Proof.
  apply (cheapest_first _ "JFK" "2025-06-01" ["ORY"; "CDG"]
           (pricedOption "ORY" 70)
           [pricedOption "CDG" 70; pricedOption "ORY" 90]).
  reflexivity.
Defined.

(** ** Further properties of the request handler *)

Lemma flightRequests_arrivals (origin date : string) (dests : list string) :
  map arrival_id (flightRequests origin date dests) = dests.
Proof.
  unfold flightRequests. rewrite map_map. cbn [arrival_id]. apply map_id.
Qed.

(** X12: a request that passes the credential check, for inputs that name
    no inherited property of the table, makes its upstream calls in this
    order: one airport lookup, then the flight searches, then one itinerary
    call; unless turning the result of the lookup into codes raises an
    error, which ends the request with that error after the lookup alone.
    The searches are none at all, or one for each resolved destination
    airport in the order of the list; so the calls are at most two more than
    the resolved destination airports. *)
Theorem serve_calls
    (JSON_parse : string -> option jsval) (toISODate : string -> option string)
    (env : Env) (gemini : GeminiPrompt -> GeminiReply)
    (serp : SerpRequest -> SerpReply) (req : HttpRequest)
    (request : TravelRequest) :
  method req = POST -> json req = inr request ->
  truthyString (GEMINI_API_KEY env) = true ->
  plainInput (source request) = true ->
  plainInput (req_destination request) = true ->
  let run := serve JSON_parse toISODate env gemini serp req in
  let dests := (resolvedAirports JSON_parse gemini request).2 in
  (lookupThrowsOf JSON_parse gemini request = true ->
   run = (RespError 500 conversionError,
          [CallGemini (AirportPrompt (source request)
                         (req_destination request))]))
  /\ (lookupThrowsOf JSON_parse gemini request = false ->
      exists searches,
        run.2
        = (CallGemini (AirportPrompt (source request) (req_destination request))
           :: map CallSerp searches
           ++ [CallGemini
                 (itineraryPromptOf JSON_parse toISODate env gemini serp
                    request)])%list
        /\ (searches = [] \/ map arrival_id searches = dests))
  /\ (length run.2 <= 2 + length dests)%nat.
Proof.
  intros Hm Hj Hkey _ _. cbn zeta.
  set (searches := flightStageRequests toISODate env request
                     (searchOrigin JSON_parse gemini request)
                     (resolvedAirports JSON_parse gemini request).2).
  assert (Hs : searches = []
               \/ map arrival_id searches
                  = (resolvedAirports JSON_parse gemini request).2).
  { unfold searches, flightStageRequests.
    destruct (includeFlights request && truthyString (SERPAPI_API_KEY env));
      [|now left].
    destruct (toISODate (startDate request)); [|now left].
    right. apply flightRequests_arrivals. }
  split; [|split].
  - now apply serve_thrown.
  - intros Hthrow. rewrite (serve_converted _ _ _ _ _ _ request) by assumption.
    cbn [snd]. exists searches. split; [reflexivity | exact Hs].
  - destruct (lookupThrowsOf JSON_parse gemini request) eqn:Hthrow.
    + rewrite (serve_thrown _ _ _ _ _ _ request) by assumption.
      cbn [snd length]. lia.
    + rewrite (serve_converted _ _ _ _ _ _ request) by assumption.
      cbn [snd length]. fold searches.
      rewrite length_app, length_map. cbn [length].
      destruct Hs as [-> | <-]; [cbn [length]; lia|].
      rewrite length_map. lia.
Qed.

Lemma serve_calls_witness :
  (exists searches,
     (serve (fun _ => None) (fun d => Some d)
            (mkEnv (Some "gemini-key") (Some "serp-key"))
            sampleGemini sampleSerp (mkHttpRequest POST (inr sampleRequest))).2
     = (CallGemini (AirportPrompt "New York" "Paris")
        :: map CallSerp searches
        ++ [CallGemini
              (itineraryPromptOf (fun _ => None) (fun d => Some d)
                 (mkEnv (Some "gemini-key") (Some "serp-key"))
                 sampleGemini sampleSerp sampleRequest)])%list
     /\ (searches = []
         \/ map arrival_id searches
            = (resolvedAirports (fun _ => None) sampleGemini sampleRequest).2))
  /\ serve (fun _ => Some unreadableLookup) (fun d => Some d)
           (mkEnv (Some "gemini-key") (Some "serp-key"))
           (fun _ => GeminiOk (Some "{}") "{}") sampleSerp
           (mkHttpRequest POST (inr sampleRequest))
     = (RespError 500 conversionError,
        [CallGemini (AirportPrompt "New York" "Paris")]).
Proof.
  split.
  - apply (serve_calls (fun _ => None) (fun d => Some d)
             (mkEnv (Some "gemini-key") (Some "serp-key"))
             sampleGemini sampleSerp (mkHttpRequest POST (inr sampleRequest))
             sampleRequest); reflexivity.
  - apply (serve_calls (fun _ => Some unreadableLookup) (fun d => Some d)
             (mkEnv (Some "gemini-key") (Some "serp-key"))
             (fun _ => GeminiOk (Some "{}") "{}") sampleSerp
             (mkHttpRequest POST (inr sampleRequest))
             sampleRequest); reflexivity.
Defined.

Lemma flightStage_skipped (toISODate : string -> option string) (env : Env)
    (serp : SerpRequest -> SerpReply) (request : TravelRequest)
    (origin : string) (dests : list string) :
  includeFlights request = false
  \/ truthyString (SERPAPI_API_KEY env) = false
  \/ toISODate (startDate request) = None ->
  flightStageRequests toISODate env request origin dests = []
  /\ flightStageValue toISODate env serp request origin dests = ([], None).
Proof.
  unfold flightStageRequests, flightStageValue.
  intros [-> | [-> | ->]]; rewrite ?andb_false_r; cbn [andb];
    [now split | now split|].
  destruct (includeFlights request && truthyString (SERPAPI_API_KEY env));
    now split.
Qed.

(** X13: flights are optional: when they are not asked for, or the flight
    search credential is missing, or the start date is not a date, no search
    is made and a request whose lookup result is turned into codes goes on
    to the itinerary; its calls are the lookup and the itinerary call, and a
    successful response has neither flight data nor a selected airport
    code. *)
Theorem serve_without_flights
    (JSON_parse : string -> option jsval) (toISODate : string -> option string)
    (env : Env) (gemini : GeminiPrompt -> GeminiReply)
    (serp : SerpRequest -> SerpReply) (req : HttpRequest)
    (request : TravelRequest) :
  method req = POST -> json req = inr request ->
  truthyString (GEMINI_API_KEY env) = true ->
  lookupThrowsOf JSON_parse gemini request = false ->
  includeFlights request = false
  \/ truthyString (SERPAPI_API_KEY env) = false
  \/ toISODate (startDate request) = None ->
  let run := serve JSON_parse toISODate env gemini serp req in
  run.2
  = [CallGemini (AirportPrompt (source request) (req_destination request));
     CallGemini (itineraryPrompt request [] None)]
  /\ (forall body,
         run.1 = RespOk body ->
         flightData body = None /\ selectedAirportCode body = None)
  /\ (replyFails (gemini (itineraryPrompt request [] None)) = false ->
      exists body, run.1 = RespOk body).
Proof.
  intros Hm Hj Hkey Hthrow Hskip. cbn zeta.
  rewrite (serve_converted _ _ _ _ _ _ request) by assumption. cbn [fst snd].
  unfold itineraryPromptOf, stageOf.
  destruct (flightStage_skipped toISODate env serp request
              (searchOrigin JSON_parse gemini request)
              (resolvedAirports JSON_parse gemini request).2 Hskip) as [-> ->].
  cbn [fst snd map app]. split; [reflexivity|]. split.
  - intros body. destruct (gemini (itineraryPrompt request [] None));
      try discriminate. intros [= <-]. now split.
  - destruct (gemini (itineraryPrompt request [] None)); try discriminate.
    intros _. eexists. reflexivity.
Qed.

Lemma serve_without_flights_witness :
  (serve (fun _ => None) (fun _ => None)
         (mkEnv (Some "gemini-key") None)
         (fun _ => GeminiOk (Some "Day 1: walk") "{}") sampleSerp
         (mkHttpRequest POST (inr sampleRequest))).2
  = [CallGemini (AirportPrompt "New York" "Paris");
     CallGemini (itineraryPrompt sampleRequest [] None)].
Proof.
  apply (serve_without_flights (fun _ => None) (fun _ => None)
           (mkEnv (Some "gemini-key") None)
           (fun _ => GeminiOk (Some "Day 1: walk") "{}") sampleSerp
           (mkHttpRequest POST (inr sampleRequest)) sampleRequest);
    try reflexivity.
  right. left. reflexivity.
Defined.

Lemma lookupThrowsOf_fails (JSON_parse : string -> option jsval)
    (gemini : GeminiPrompt -> GeminiReply) (request : TravelRequest) :
  replyFails (gemini (AirportPrompt (source request) (req_destination request)))
  = true ->
  lookupThrowsOf JSON_parse gemini request = false.
Proof.
  intros H. unfold lookupThrowsOf. now rewrite airportLookupOf_fails.
Qed.

(** X14: a failed airport lookup and failed flight searches do not stop a
    request: for inputs that name no inherited property of the table, when
    the lookup call fails, or its result is turned into codes without
    error, the response is a success as soon as the itinerary call returns;
    it carries the text of that reply (the empty text when the reply has
    none) and the resolved airport lists. *)
Theorem serve_succeeds
    (JSON_parse : string -> option jsval) (toISODate : string -> option string)
    (env : Env) (gemini : GeminiPrompt -> GeminiReply)
    (serp : SerpRequest -> SerpReply) (req : HttpRequest)
    (request : TravelRequest) (text : option string) (stringified : string) :
  method req = POST -> json req = inr request ->
  truthyString (GEMINI_API_KEY env) = true ->
  plainInput (source request) = true ->
  plainInput (req_destination request) = true ->
  replyFails (gemini (AirportPrompt (source request) (req_destination request)))
  = true
  \/ lookupThrowsOf JSON_parse gemini request = false ->
  gemini (itineraryPromptOf JSON_parse toISODate env gemini serp request)
  = GeminiOk text stringified ->
  exists body,
    (serve JSON_parse toISODate env gemini serp req).1 = RespOk body
    /\ itinerary body = match text with Some t => t | None => "" end
    /\ airportCodes_source body
       = nonEmptyOrNull (resolvedAirports JSON_parse gemini request).1
    /\ airportCodes_destination body
       = nonEmptyOrNull (resolvedAirports JSON_parse gemini request).2.
Proof.
  intros Hm Hj Hkey _ _ Hlookup Hreply.
  assert (Hthrow : lookupThrowsOf JSON_parse gemini request = false).
  { destruct Hlookup as [H|H]; [now apply lookupThrowsOf_fails | exact H]. }
  rewrite (serve_converted _ _ _ _ _ _ request) by assumption. cbn [fst].
  rewrite Hreply. eexists. split; [reflexivity|].
  now repeat split.
Qed.

Lemma serve_succeeds_witness :
  exists body,
    (serve (fun _ => None) (fun d => Some d)
           (mkEnv (Some "gemini-key") (Some "serp-key"))
           (fun p => match p with
                     | AirportPrompt _ _ => GeminiStatus 500
                     | _ => GeminiOk None "{}"
                     end)
           (fun _ => SerpNetworkError "down")
           (mkHttpRequest POST (inr sampleRequest))).1 = RespOk body
    /\ itinerary body = ""
    /\ airportCodes_source body = None
    /\ airportCodes_destination body = None.
Proof.
  apply (serve_succeeds (fun _ => None) (fun d => Some d)
           (mkEnv (Some "gemini-key") (Some "serp-key"))
           (fun p => match p with
                     | AirportPrompt _ _ => GeminiStatus 500
                     | _ => GeminiOk None "{}"
                     end)
           (fun _ => SerpNetworkError "down")
           (mkHttpRequest POST (inr sampleRequest)) sampleRequest None "{}");
    try reflexivity.
  left. reflexivity.
Defined.

Lemma selectAirportCode_some (flights : list FlightOption) (dests : list string)
    (c : string) :
  Forall (fun f => In (destination f) dests) flights ->
  selectAirportCode flights dests = Some c ->
  flights <> [] /\ c <> "" /\ In c dests.
Proof.
  intros Hall. unfold selectAirportCode.
  destruct flights as [|f rest]; [discriminate|].
  apply Forall_inv in Hall.
  destruct (String.eqb_spec (destination f) "") as [He|Hne]; cbn [negb].
  - destruct dests as [|d ds]; [discriminate|].
    destruct (String.eqb_spec d "") as [|Hd]; cbn [negb]; [discriminate|].
    intros [= <-]. repeat split; [discriminate | exact Hd | now left].
  - intros [= <-]. repeat split; [discriminate | exact Hne | exact Hall].
Qed.

Lemma flightStageValue_facts (toISODate : string -> option string) (env : Env)
    (serp : SerpRequest -> SerpReply) (request : TravelRequest)
    (origin : string) (dests : list string) :
  let stage := flightStageValue toISODate env serp request origin dests in
  StronglySorted (fun a b => sortKey a <= sortKey b) stage.1
  /\ Forall (fun f => In (destination f) dests) stage.1
  /\ stage.2 = selectAirportCode stage.1 dests.
Proof.
  cbn zeta. unfold flightStageValue.
  destruct (includeFlights request && truthyString (SERPAPI_API_KEY env));
    [|repeat split; constructor].
  destruct (toISODate (startDate request)) as [date|];
    [|repeat split; constructor].
  cbn [fst snd]. repeat split.
  - apply (sortBy_sorted sortKey).
  - apply List.Forall_forall. intros f. apply aggregate_destinations.
Qed.

(** X15: a successful response is consistent: a selected airport code is a
    non-empty string, one of the resolved destination airports, and comes
    with flight data; flight data are never an empty list, they ascend by
    sort key and each entry is for one of the resolved destination airports;
    the airport lists are given as null rather than as empty lists. *)
Theorem response_consistent
    (JSON_parse : string -> option jsval) (toISODate : string -> option string)
    (env : Env) (gemini : GeminiPrompt -> GeminiReply)
    (serp : SerpRequest -> SerpReply) (req : HttpRequest)
    (request : TravelRequest) (body : ResponseBody) :
  json req = inr request ->
  (serve JSON_parse toISODate env gemini serp req).1 = RespOk body ->
  let dests := (resolvedAirports JSON_parse gemini request).2 in
  (forall c, selectedAirportCode body = Some c ->
             c <> "" /\ In c dests /\ flightData body <> None)
  /\ (forall l, flightData body = Some l ->
                l <> []
                /\ StronglySorted (fun a b => sortKey a <= sortKey b) l
                /\ Forall (fun f => In (destination f) dests) l)
  /\ airportCodes_source body <> Some []
  /\ airportCodes_destination body <> Some []
  /\ (airportCodes_destination body = None <-> dests = []).
Proof.
  intros Hj Hok. cbn zeta.
  destruct (method req) eqn:Hm.
  { unfold serve in Hok. rewrite Hm in Hok. discriminate Hok. }
  destruct (truthyString (GEMINI_API_KEY env)) eqn:Hkey.
  2:{ rewrite (serve_no_credential _ _ _ _ _ _ request) in Hok by assumption.
      discriminate Hok. }
  rewrite (serve_run _ _ _ _ _ _ request) in Hok by assumption.
  cbn [fst] in Hok. unfold outcomeOf in Hok.
  destruct (lookupThrowsOf JSON_parse gemini request); [discriminate Hok|].
  destruct (gemini _) as [| | |text s]; try discriminate Hok.
  injection Hok as <-.
  cbn [selectedAirportCode flightData airportCodes_source
       airportCodes_destination].
  pose proof (flightStageValue_facts toISODate env serp request
                (searchOrigin JSON_parse gemini request)
                (resolvedAirports JSON_parse gemini request).2) as Hst.
  cbn zeta in Hst. fold (stageOf JSON_parse toISODate env gemini serp request) in Hst.
  destruct Hst as (Hsorted & Hdest & Hsel).
  set (stage := stageOf JSON_parse toISODate env gemini serp request) in *.
  assert (Hne : forall A (l : list A), nonEmptyOrNull l <> Some []).
  { intros A [|x l]; discriminate. }
  repeat split.
  - rewrite Hsel in H. now apply (selectAirportCode_some _ _ _ Hdest) in H.
  - rewrite Hsel in H. now apply (selectAirportCode_some _ _ _ Hdest) in H.
  - rewrite Hsel in H. apply (selectAirportCode_some _ _ _ Hdest) in H as [H _].
    destruct stage.1; [contradiction | discriminate].
  - destruct stage.1; [discriminate H|]. injection H as <-. discriminate.
  - destruct stage.1; [discriminate H|]. now injection H as <-.
  - destruct stage.1; [discriminate H|]. now injection H as <-.
  - apply Hne.
  - apply Hne.
  - now destruct (resolvedAirports JSON_parse gemini request).2.
  - now intros ->.
Qed.

Lemma response_consistent_witness :
  exists body,
    (serve (fun _ => None) (fun d => Some d)
           (mkEnv (Some "gemini-key") (Some "serp-key"))
           (fun p => match p with
                     | AirportPrompt _ _ => GeminiOk (Some "JFK then CDG") "{}"
                     | _ => GeminiOk (Some "Day 1") "{}"
                     end)
           sampleSerp (mkHttpRequest POST (inr sampleRequest))).1 = RespOk body
    /\ selectedAirportCode body = Some "CDG"
    /\ In "CDG"
          (resolvedAirports (fun _ => None)
             (fun p => match p with
                       | AirportPrompt _ _ => GeminiOk (Some "JFK then CDG") "{}"
                       | _ => GeminiOk (Some "Day 1") "{}"
                       end) sampleRequest).2
    /\ flightData body <> None.
Proof.
  assert (E : exists body,
             (serve (fun _ => None) (fun d => Some d)
                (mkEnv (Some "gemini-key") (Some "serp-key"))
                (fun p => match p with
                          | AirportPrompt _ _ => GeminiOk (Some "JFK then CDG") "{}"
                          | _ => GeminiOk (Some "Day 1") "{}"
                          end)
                sampleSerp (mkHttpRequest POST (inr sampleRequest))).1
             = RespOk body
             /\ selectedAirportCode body = Some "CDG").
  { eexists. split; vm_compute; reflexivity. }
  destruct E as (body & E & Hsel). exists body. split; [exact E|].
  split; [exact Hsel|].
  destruct (response_consistent (fun _ => None) (fun d => Some d)
              (mkEnv (Some "gemini-key") (Some "serp-key"))
              (fun p => match p with
                        | AirportPrompt _ _ => GeminiOk (Some "JFK then CDG") "{}"
                        | _ => GeminiOk (Some "Day 1") "{}"
                        end)
              sampleSerp (mkHttpRequest POST (inr sampleRequest))
              sampleRequest body eq_refl E) as (H & _).
  destruct (H "CDG" Hsel) as (_ & Hin & Hfd). now split.
Defined.

(** ** The itinerary display *)

Lemma splitLines_nonempty (s : string) : splitLines s <> [].
Proof.
  induction s as [|c r IH]; cbn [splitLines]; [discriminate|].
  destruct (Ascii.eqb c newline); [discriminate|].
  destruct (splitLines r); discriminate.
Qed.

Lemma concat_cons_string (sep : string) (c : ascii) (line : string)
    (rest : list string) :
  String.concat sep (String c line :: rest)
  = String c (String.concat sep (line :: rest)).
Proof. destruct rest; reflexivity. Qed.

Lemma concat_splitLines (s : string) :
  String.concat (String newline "") (splitLines s) = s.
Proof.
  induction s as [|c r IH]; cbn [splitLines]; [reflexivity|].
  destruct (Ascii.eqb c newline) eqn:E.
  - apply Ascii.eqb_eq in E. subst c.
    destruct (splitLines r) as [|l rest] eqn:Hr;
      [now destruct (splitLines_nonempty r)|].
    change (String.concat (String newline "") ("" :: l :: rest))
      with (String newline (String.concat (String newline "") (l :: rest))).
    now rewrite IH.
  - destruct (splitLines r) as [|l rest] eqn:Hr;
      [now destruct (splitLines_nonempty r)|].
    rewrite concat_cons_string. now rewrite IH.
Qed.

Lemma splitLines_no_newline (s : string) :
  Forall (fun line => allString (fun c => negb (Ascii.eqb c newline)) line
                      = true) (splitLines s).
Proof.
  induction s as [|c r IH]; cbn [splitLines].
  - repeat constructor.
  - destruct (Ascii.eqb c newline) eqn:E.
    + constructor; [reflexivity|assumption].
    + destruct (splitLines r) as [|l rest]; [repeat constructor; cbn; now rewrite E|].
      inversion IH as [|? ? Hl Hrest]; subst.
      constructor; [|assumption].
      cbn [allString]. now rewrite E, Hl.
Qed.

Lemma key_blockOf (index : nat) (trimmed : string) :
  key (blockOf index trimmed) = index.
Proof.
  unfold blockOf.
  repeat match goal with |- context [if ?b then _ else _] => destruct b end;
    reflexivity.
Qed.

Lemma formatLines_keys (index : nat) (lines : list string) :
  map key (formatLines index lines)
  = List.filter (fun j => nonBlank (nth (j - index) lines ""))
      (seq index (length lines)).
Proof.
  revert index. induction lines as [|line rest IH]; intros index;
    [reflexivity|].
  cbn [formatLines length seq List.filter].
  assert (Htail :
    List.filter (fun j => nonBlank (nth (j - index) (line :: rest) ""))
      (seq (S index) (length rest))
    = List.filter (fun j => nonBlank (nth (j - S index) rest ""))
        (seq (S index) (length rest))).
  { apply List.filter_ext_in. intros j Hj. apply in_seq in Hj.
    replace (j - index)%nat with (S (j - S index)) by lia. reflexivity. }
  rewrite Htail, <- IH.
  replace (index - index)%nat with 0%nat by lia. cbn [nth]. unfold nonBlank.
  destruct (trim line) eqn:E; cbn [String.eqb negb]; [reflexivity|].
  cbn [map]. now rewrite key_blockOf.
Qed.

Lemma formatLines_blocks (index : nat) (lines : list string) (b : Block) :
  In b (formatLines index lines) ->
  exists line, nth_error lines (key b - index) = Some line
               /\ trim line <> "" /\ b = blockOf (key b) (trim line)
               /\ (index <= key b)%nat.
Proof.
  revert index. induction lines as [|line rest IH]; intros index;
    [intros []|].
  cbn [formatLines].
  assert (Hrest : In b (formatLines (S index) rest) ->
    exists l, nth_error (line :: rest) (key b - index) = Some l
              /\ trim l <> "" /\ b = blockOf (key b) (trim l)
              /\ (index <= key b)%nat).
  { intros H. destruct (IH _ H) as (l & Hl & Hne & Hb & Hle).
    exists l. replace (key b - index)%nat with (S (key b - S index)) by lia.
    repeat split; try assumption. lia. }
  destruct (trim line) eqn:E; [exact Hrest|].
  intros [Hb|H]; [|exact (Hrest H)].
  exists line. subst b. rewrite key_blockOf.
  replace (index - index)%nat with 0%nat by lia. rewrite E.
  repeat split; [discriminate | lia].
Qed.

Lemma formatLines_length (index : nat) (lines : list string) :
  length (formatLines index lines) = length (List.filter nonBlank lines).
Proof.
  revert index. induction lines as [|line rest IH]; intros index;
    [reflexivity|].
  cbn [formatLines List.filter]. unfold nonBlank at 1.
  destruct (trim line); cbn [String.eqb negb length]; now rewrite IH.
Qed.

(** X16: the lines of the itinerary are the pieces between its line breaks
    (joined by line breaks they give the text back, and none holds a line
    break); the display has one element for every line that is not blank,
    in the order of the lines, keyed by the number of its line, so that no
    key is used twice; each element is made from the trimmed text of its
    line alone. *)
Theorem formatItinerary_lines (text : string) :
  let lines := splitLines text in
  let blocks := formatItinerary text in
  String.concat (String newline "") lines = text
  /\ Forall (fun line => allString (fun c => negb (Ascii.eqb c newline)) line
                         = true) lines
  /\ map key blocks
     = List.filter (fun j => nonBlank (nth j lines "")) (seq 0 (length lines))
  /\ length blocks = length (List.filter nonBlank lines)
  /\ List.NoDup (map key blocks)
  /\ (forall b, In b blocks ->
        exists line, nth_error lines (key b) = Some line
                     /\ trim line <> ""
                     /\ b = blockOf (key b) (trim line)).
Proof.
  cbv zeta. unfold formatItinerary.
  assert (Hkeys : map key (formatLines 0 (splitLines text))
    = List.filter (fun j => nonBlank (nth j (splitLines text) ""))
        (seq 0 (length (splitLines text)))).
  { rewrite formatLines_keys. apply List.filter_ext. intros j.
    now rewrite Nat.sub_0_r. }
  split; [apply concat_splitLines|].
  split; [apply splitLines_no_newline|].
  split; [exact Hkeys|].
  split; [apply formatLines_length|].
  split.
  - rewrite Hkeys. apply List.NoDup_filter, List.seq_NoDup.
  - intros b Hb. destruct (formatLines_blocks _ _ _ Hb) as (l & Hl & Hne & E & _).
    exists l. rewrite Nat.sub_0_r in Hl. now repeat split.
Qed.

Lemma containsPair_other (a c : ascii) (s : string) :
  Ascii.eqb c a = false ->
  containsPair a (String c s) = containsPair a s.
Proof.
  intros H. cbn [containsPair]. rewrite H.
  destruct s; reflexivity.
Qed.

Lemma containsPair_then_other (a c d : ascii) (s : string) :
  Ascii.eqb d a = false ->
  containsPair a (String c (String d s)) = containsPair a s.
Proof.
  intros H. cbn [containsPair]. rewrite H, andb_false_r.
  cbn [orb andb]. destruct s; reflexivity.
Qed.

Lemma removeStars_pairs_bounded (n : nat) (s : string) :
  (String.length s <= n)%nat -> containsPair star (removeStars s) = false.
Proof.
  revert s. induction n as [|n IH]; intros s Hn.
  - destruct s; [reflexivity|cbn in Hn; lia].
  - destruct s as [|c r]; [reflexivity|]. cbn [String.length] in Hn.
    cbn [removeStars]. destruct (Ascii.eqb c star) eqn:Ec.
    + destruct r as [|c2 r2]; [reflexivity|]. cbn [String.length] in Hn.
      destruct (Ascii.eqb c2 star) eqn:E2.
      * apply IH. lia.
      * cbn [removeStars]. rewrite E2.
        rewrite containsPair_then_other by exact E2. apply IH. lia.
    + rewrite containsPair_other by exact Ec. apply IH. lia.
Qed.

Lemma removeStars_pairs (s : string) :
  containsPair star (removeStars s) = false.
Proof. apply (removeStars_pairs_bounded (String.length s)). lia. Qed.

Lemma isSpace_hash (c : ascii) : Ascii.eqb c hash = true -> isSpace c = false.
Proof. intros H. apply Ascii.eqb_eq in H. now subst c. Qed.

Lemma stripHashes_pairs_bounded (n : nat) (inSpace : bool) (s : string) :
  (String.length s <= n)%nat ->
  containsPair hash (stripHashes inSpace s) = false.
Proof.
  revert inSpace s. induction n as [|n IH]; intros inSpace s Hn.
  - destruct s; [reflexivity|cbn in Hn; lia].
  - destruct s as [|c r]; [reflexivity|]. cbn [String.length] in Hn.
    cbn [stripHashes]. destruct (inSpace && isSpace c) eqn:Es.
    { apply IH. lia. }
    destruct (Ascii.eqb c hash) eqn:Ec.
    + destruct r as [|c2 r2]; [reflexivity|]. cbn [String.length] in Hn.
      destruct (Ascii.eqb c2 hash) eqn:E2.
      * destruct r2 as [|c3 r3]; [reflexivity|]. cbn [String.length] in Hn.
        destruct (Ascii.eqb c3 hash); apply IH; cbn [String.length]; lia.
      * cbn [stripHashes andb]. rewrite E2.
        rewrite containsPair_then_other by exact E2. apply IH. lia.
    + rewrite containsPair_other by exact Ec. apply IH. lia.
Qed.

Lemma stripHashes_pairs (inSpace : bool) (s : string) :
  containsPair hash (stripHashes inSpace s) = false.
Proof. apply (stripHashes_pairs_bounded (String.length s)). lia. Qed.

Lemma prefix_cons (a : ascii) (p t : string) :
  String.prefix (String a p) t = true ->
  exists r, t = String a r /\ String.prefix p r = true.
Proof.
  destruct t as [|b r]; cbn [String.prefix]; [discriminate|].
  destruct (ascii_dec a b) as [->|]; [|discriminate].
  intros H. now exists r.
Qed.

Lemma trim_no_trailing_space (line : string) (c : ascii) :
  trim line <> String c " ".
Proof.
  intros H. pose proof (trim_idem line) as Hi. rewrite H in Hi.
  unfold trim in Hi. cbn [trimStart] in Hi.
  destruct (isSpace c) eqn:E.
  - cbn in Hi. discriminate Hi.
  - cbn [trimEnd] in Hi. cbn in Hi. rewrite E in Hi. discriminate Hi.
Qed.

Lemma blockOf_facts (index : nat) (line : string) :
  trim line <> "" ->
  let b := blockOf index (trim line) in
  (kind b = DayHeading -> containsPair star (content b) = false)
  /\ (kind b = SectionHeading -> containsPair hash (content b) = false)
  /\ (kind b <> SectionHeading -> content b <> "").
Proof.
  intros Hne. cbv zeta. unfold blockOf, startsWith.
  destruct (String.prefix "Day " (trim line) || String.prefix "**Day " (trim line))
    eqn:Eday.
  { cbn [kind content]. split; [intros _; apply removeStars_pairs|].
    split; [discriminate|]. intros _.
    apply orb_true_iff in Eday as [H|H].
    - apply prefix_cons in H as (r & -> & _). cbn. discriminate.
    - apply prefix_cons in H as (r & -> & H).
      apply prefix_cons in H as (r2 & -> & H).
      apply prefix_cons in H as (r3 & -> & _). cbn. discriminate. }
  destruct (String.prefix "###" (trim line) || String.prefix "##" (trim line)).
  { cbn [kind content]. split; [discriminate|].
    split; [intros _; apply stripHashes_pairs|]. intros H. now destruct H. }
  destruct (String.prefix "- " (trim line) || String.prefix "* " (trim line))
    eqn:Eitem.
  { cbn [kind content]. split; [discriminate|]. split; [discriminate|].
    intros _.
    assert (H : exists c r, trim line = String c (String " " r)).
    { apply orb_true_iff in Eitem as [H|H];
        apply prefix_cons in H as (r & E & H);
        apply prefix_cons in H as (r2 & -> & _); eauto. }
    destruct H as (c & r & E). rewrite E. cbn [dropString].
    intros ->. exact (trim_no_trailing_space line c E). }
  cbn [kind content]. split; [discriminate|]. split; [discriminate|].
  intros _. exact Hne.
Qed.

(** X17: in the displayed itinerary the text of a day heading holds no
    pair of stars and the text of a section heading no pair of hashes (the
    marks removed never leave a new one behind), and only a section heading
    can have an empty text: a day heading, a list item and a paragraph
    always show something. *)
Theorem formatItinerary_markers (text : string) (b : Block)
    (Hb : In b (formatItinerary text)) :
  (kind b = DayHeading -> containsPair star (content b) = false)
  /\ (kind b = SectionHeading -> containsPair hash (content b) = false)
  /\ (kind b <> SectionHeading -> content b <> "").
Proof.
  destruct (formatLines_blocks _ _ _ Hb) as (line & _ & Hne & E & _).
  rewrite E. exact (blockOf_facts (key b) line Hne).
Qed.

Lemma formatItinerary_markers_witness :
  let text := ("**Day 1: Paris**" ++ String newline "" ++ "#### Food ## Wine"
               ++ String newline "" ++ "- ")%string in
  formatItinerary text
  = [mkBlock 0 DayHeading "Day 1: Paris";
     mkBlock 1 SectionHeading "# Food Wine";
     mkBlock 2 Paragraph "-"]
  /\ containsPair hash "# Food Wine" = false.
Proof.
  cbv zeta. split; [vm_compute; reflexivity|].
  refine (proj1 (proj2 (formatItinerary_markers
    ("**Day 1: Paris**" ++ String newline "" ++ "#### Food ## Wine"
     ++ String newline "" ++ "- ")%string
    (mkBlock 1 SectionHeading "# Food Wine") _)) eq_refl).
  vm_compute. right. left. reflexivity.
Defined.

(** ** The page *)

(** X18: when the function answers with the body of a successful response,
    the page takes the itinerary and the flights from it, shows no toast
    and stops loading; the plan is shown exactly when the itinerary is not
    the empty text (with an empty one the form stays, without any
    message), the flight table exactly when the plan is shown and the body
    holds a flight; and the selected airport stays [null], because the page
    reads [selectedAirport] where the body has [selectedAirportCode], so
    the line naming the arrival airport is never shown. *)
Theorem handleSubmit_response (data : TravelFormData) (body : ResponseBody)
    (st : PageState) :
  let st' :=
    handleSubmit data (InvokeReturned (Some (responseJson body)) None) st in
  page_itinerary st' = JStr (itinerary body)
  /\ page_selectedAirport st' = JNull
  /\ showsArrival st' = Some false
  /\ page_toasts st' = page_toasts st
  /\ page_isLoading st' = false
  /\ page_formData st' = Some data
  /\ (showsPlan st' = true <-> itinerary body <> "")
  /\ (exists shown,
        showsFlights st' = Some shown
        /\ (shown = true
            <-> itinerary body <> ""
                /\ exists f l, flightData body = Some (f :: l)))
  /\ showsPlan (handleReset st') = false.
Proof.
  cbv zeta. destruct body as [src dst sel flights text].
  unfold handleSubmit, handleSubmitEnd, handleSubmitStart, responseJson.
  cbn [optChain getProp assocGet String.eqb Ascii.eqb Bool.eqb
       page_itinerary page_flightData page_selectedAirport page_formData
       page_isLoading page_toasts itinerary flightData selectedAirportCode
       orNull].
  unfold showsArrival, showsFlights, showsPlan, handleReset.
  cbn [page_itinerary page_flightData page_selectedAirport truthy].
  assert (Htext : negb (String.eqb text "") = true <-> text <> "").
  { destruct text; cbn; split; try discriminate; try reflexivity.
    intros H. now destruct H. }
  repeat split; try reflexivity.
  - destruct (negb (String.eqb text "")); [|reflexivity].
    now destruct flights as [[|f l]|].
  - apply Htext.
  - apply Htext.
  - destruct (negb (String.eqb text "")) eqn:E.
    + destruct flights as [[|f l]|]; cbn.
      * exists false. split; [reflexivity|]. split; [discriminate|].
        intros (_ & ? & ? & ?). discriminate.
      * exists true. split; [reflexivity|]. split; [|reflexivity].
        intros _. split; [now apply Htext | eauto].
      * exists false. split; [reflexivity|]. split; [discriminate|].
        intros (_ & ? & ? & ?). discriminate.
    + exists false. split; [reflexivity|]. split; [discriminate|].
      intros (H & _). apply Htext in H. discriminate H.
Qed.

(** X19: whenever the call of the function fails for the page (it is
    rejected, it comes back with an error, even beside data that hold an
    itinerary, or its data hold no itinerary) the page keeps the plan data
    it had, records the form data, stops loading and shows one toast,
    always the same: the message of the server is never shown. *)
Theorem handleSubmit_failure (data : TravelFormData)
    (outcome : InvokeOutcome) (st : PageState)
    (Hfails : outcomeFails outcome = true) :
  handleSubmit data outcome st
  = mkPageState (page_itinerary st) (page_flightData st)
      (page_selectedAirport st) (Some data) false
      (page_toasts st ++ [failureToast]).
Proof.
  unfold handleSubmit, handleSubmitEnd.
  destruct outcome as [message|result [message|]]; cbn in Hfails |- *;
    try reflexivity.
  destruct (optChain result (fun r => getProp r "itinerary"));
    [discriminate Hfails|reflexivity].
Qed.

Lemma handleSubmit_failure_witness :
  page_toasts
    (handleSubmit sampleForm
       (InvokeReturned
          (Some (JObj [("error", JStr "GEMINI_API_KEY is not configured");
                       ("itinerary", JStr "Day 1")]))
          (Some "Edge Function returned a non-2xx status code"))
       initialPage)
  = [failureToast]
  /\ showsPlan
       (handleSubmit sampleForm
          (InvokeReturned
             (Some (JObj [("error", JStr "GEMINI_API_KEY is not configured");
                          ("itinerary", JStr "Day 1")]))
             (Some "Edge Function returned a non-2xx status code"))
          initialPage) = false.
Proof.
  rewrite (handleSubmit_failure sampleForm
             (InvokeReturned
                (Some (JObj [("error", JStr "GEMINI_API_KEY is not configured");
                             ("itinerary", JStr "Day 1")]))
                (Some "Edge Function returned a non-2xx status code"))
             initialPage eq_refl).
  split; reflexivity.
Defined.

(** ** Evaluations *)

Example decimal_samples :
  decimal 0 = "0" /\ decimal (-15) = "-15" /\ decimal 500 = "500".
Proof. vm_compute. auto. Qed.

Example arrayifyCodes_samples :
  arrayifyCodes (Some (JArr [JStr "jfk"; JNum 12; JNull; JArr [JStr "a"; JNull]]))
  = ["JFK"; "12"; "NULL"; "A,"]
  /\ arrayifyCodes (Some (JStr "cdg")) = ["CDG"]
  /\ arrayifyCodes (Some (JStr "")) = []
  /\ arrayifyCodes (Some (JObj [])) = []
  /\ arrayifyCodes None = [].
Proof. vm_compute. auto 6. Qed.

(** Free text from the model: the first code found is the source, the
    others the destinations. *)
Example lookup_from_free_text :
  airportLookupOf (fun _ => None) (GeminiOk (Some "JFK then CDG or ORY") "{}")
  = Some (JObj [("source_airports", JArr [JStr "JFK"]);
                ("destination_airports", JArr [JStr "CDG"; JStr "ORY"])]).
Proof. vm_compute. reflexivity. Qed.

Example trim_samples :
  trim "  Paris " = "Paris" /\ trim "" = "" /\ trim "   " = ""
  /\ trim "New  York" = "New  York".
Proof. vm_compute. auto. Qed.

Example renderJson_sample :
  renderJson (JObj [("note", JStr "a{b}c"); ("x", JNum 1)])
  = jsq "{'note':'a{b}c','x':1}".
Proof. vm_compute. reflexivity. Qed.
